(** * Better USOS: the dashboard card layout engine

    A shallow embedding of the dashboard part of the content script
    ([getFrameId], [setupDashboard] with its closures [getSpan],
    [persistOrder], [onDragStart], [onDragEnd], [onDragOver], [onDrop], and
    the [chrome.runtime.onMessage] listener), followed by the properties the
    specification states about it.

    Conventions of the embedding:
    - a JS number that the code keeps in the int32 range is a [Z], with the
      wrap-around of [<<] and [| 0] written out ([toInt32]);
    - an element id is a [string]; the [href] attribute read by
      [charCodeAt] is the list of its UTF-16 code units;
    - a DOM element is identified by its position in the list [frames]
      built by [setupDashboard]; the children of the grid wrapper are a list
      of [Node]s; cards are children of the wrapper, none sits inside
      another one;
    - [Map<string, HTMLElement>] is a [gmap string nat], [Set<string>] a
      [gset string], the [spans] object the [gmap string Z] of its own
      properties;
    - the closures of [setupDashboard] share the state of a [Session]; the
      module-level cache and the writes to [chrome.storage.local] are a
      [Store]; a listener is a function on these;
    - the statistics, the grade cells, the palette, the semester lists and
      the text helpers that follow the dashboard are embedded in the same
      way, each in the part that bears its name; the numbers that the
      statistics add and compare are doubles, the primitive [float]. *)

From Stdlib Require Import ZArith Ascii String Floats.
From stdpp Require Import gmap strings list fin_maps pretty.

Local Open Scope Z_scope.
#[local] Set Warnings "-clear-no-such-hyp".

(** ** Identity resolver: [getFrameId] *)

(** [ToInt32]: the value kept by [x | 0]. *)
Definition toInt32 (x : Z) : Z := (x + 2 ^ 31) mod 2 ^ 32 - 2 ^ 31.

(** [a << n] on numbers. *)
Definition shl (a n : Z) : Z := toInt32 (Z.shiftl (toInt32 a) (Z.land n 31)).

(** One turn of the loop body:
    [hash = ((hash << 5) - hash + href.charCodeAt(i)) | 0]. *)
Definition hashStep (hash c : Z) : Z := toInt32 (shl hash 5 - hash + c).

(** The whole loop, started from [hash = 0]. *)
Definition hashHref (href : list Z) : Z := foldl hashStep 0 href.

(** Digits of [Number.prototype.toString(36)]. *)
Definition digit36 (d : Z) : ascii :=
  if d <? 10 then ascii_of_nat (48 + Z.to_nat d)
  else ascii_of_nat (87 + Z.to_nat d).

Fixpoint toString36_go (fuel : nat) (n : Z) (acc : string) : string :=
  match fuel with
  | O => acc
  | S fuel' =>
      let acc' := String (digit36 (n mod 36)) acc in
      if n / 36 =? 0 then acc' else toString36_go fuel' (n / 36) acc'
  end.

(** [n.toString(36)] for a non-negative integer [n]. *)
Definition toString36 (n : Z) : string :=
  toString36_go (S (Z.to_nat (Z.log2 n))) n "".

(** The first [a] under the title slot, as far as [getFrameId] reads it:
    [getAttribute("href")] is [null] when the attribute is missing; the text
    is what the user sees and changes with the display language. *)
Record TitleLink := {
  l_href : option (list Z);
  l_text : string;
}.

(** A dashboard card element: a native [usos-frame] or one of the two
    panels created by the extension. *)
Record Frame := {
  f_id : string;                   (* [el.id], the empty string when absent *)
  f_titleLink : option TitleLink;  (* [querySelector('[slot="title"] a, ...')] *)
  f_hiddenCard : bool;             (* class [bu-hidden-card] *)
  f_dragging : bool;               (* class [bu-dragging] *)
  f_buSpan : option Z;             (* [dataset.buSpan], a decimal numeral *)
}.

(** [titleLink?.getAttribute("href") ?? ""] *)
Definition titleHref (frame : Frame) : list Z :=
  match f_titleLink frame with
  | Some l => default [] (l_href l)
  | None => []
  end.

Definition getFrameId (frame : Frame) : string :=
  if bool_decide (f_id frame = "") then
    "bu-" +:+ toString36 (Z.abs (hashHref (titleHref frame)))
  else f_id frame.

(** Code units of an ASCII string, for concrete inputs. *)
Fixpoint codeUnits (s : string) : list Z :=
  match s with
  | EmptyString => []
  | String a s' => Z.of_nat (nat_of_ascii a) :: codeUnits s'
  end.

(** ** Layout state store *)

(** Column span: 2 = 1/3, 3 = 1/2, 4 = 2/3, 6 = full row. *)
Definition SPAN_OPTIONS : list Z := [2; 3; 4; 6].

(** [interface DashboardState]; [spans] is optional. [order] and [hidden]
    are arrays in every state the cache holds: [initDashboardCache] checks
    it for what it loads, [persistOrder] builds them for what it saves. *)
Record DashboardState := {
  order : list string;
  hidden : list string;
  spans : option (gmap string Z);
}.

(** The module-level [_dashboardCache] and the calls of
    [chrome.storage.local.set] made so far, newest first. *)
Record Store := {
  _dashboardCache : option DashboardState;
  storageWrites : list DashboardState;
}.

Definition loadDashboardState (σ : Store) : option DashboardState :=
  _dashboardCache σ.

Definition saveDashboardState (state : DashboardState) (σ : Store) : Store :=
  {| _dashboardCache := Some state; storageWrites := state :: storageWrites σ |}.

(** ** [setupDashboard]: registry and reconciliation *)

(** [if (!frame.id) frame.id = id] *)
Definition assignId (frame : Frame) : Frame :=
  if bool_decide (f_id frame = "") then
    {| f_id := getFrameId frame; f_titleLink := f_titleLink frame;
       f_hiddenCard := f_hiddenCard frame; f_dragging := f_dragging frame;
       f_buSpan := f_buSpan frame |}
  else frame.

(** Body of the loop "assign ids and collect default order"; the element
    is stored in the map as its position [k] in [frames]. *)
Definition collectStep (acc : gmap string nat * list string) (kf : nat * Frame)
    : gmap string nat * list string :=
  let id := getFrameId kf.2 in
  (<[id := kf.1]> acc.1, acc.2 ++ [id]).

Definition collect (frames : list Frame) : gmap string nat * list string :=
  foldl collectStep (∅, []) (imap pair frames).

Definition idToFrame (frames : list Frame) : gmap string nat := (collect frames).1.
Definition defaultOrder (frames : list Frame) : list string := (collect frames).2.

(** [if (!order.includes(id)) order.unshift(id)] *)
Definition unshiftNew (order : list string) (id : string) : list string :=
  if bool_decide (id ∈ order) then order else id :: order.

(** [state?.order?.filter((id) => idToFrame.has(id)) ?? defaultOrder], the
    first value of the local [order]. *)
Definition initialOrder (frames : list Frame) (state : option DashboardState)
    : list string :=
  match state with
  | Some s => filter (λ id, is_Some (idToFrame frames !! id)) (order s)
  | None => defaultOrder frames
  end.

(** The local [order] after the loop over [defaultOrder]: every id that is
    missing is put in front, one after the other. With no saved state
    [order] is the array [defaultOrder] itself; the loop then finds every
    id and changes nothing. *)
Definition mergedOrder (frames : list Frame) (state : option DashboardState)
    : list string :=
  foldl unshiftNew (initialOrder frames state) (defaultOrder frames).

(** [new Set(state?.hidden ?? [])] *)
Definition hiddenSet (state : option DashboardState) : gset string :=
  match state with
  | Some s => list_to_set (hidden s)
  | None => ∅
  end.

(** [state?.spans ?? {}] *)
Definition savedSpans (state : option DashboardState) : gmap string Z :=
  match state with
  | Some s => default ∅ (spans s)
  | None => ∅
  end.

(** [spans[id]] finds a property of the object itself first. For a key the
    object does not have, the lookup yields [undefined] or a member of
    [Object.prototype], which is an object or a function; neither is in
    [SPAN_OPTIONS], so both fall to the default. *)
Definition getSpan (state : option DashboardState) (id : string) : Z :=
  match savedSpans state !! id with
  | Some s =>
      if bool_decide (s ≠ 0) && bool_decide (s ∈ SPAN_OPTIONS) then s
      else if bool_decide (id = "bu-stats-frame") then 6 else 3
  | None => if bool_decide (id = "bu-stats-frame") then 6 else 3
  end.

Definition visibleOrder (frames : list Frame) (state : option DashboardState)
    : list string :=
  filter (λ id, id ∉ hiddenSet state) (mergedOrder frames state).

Definition hiddenOrder (frames : list Frame) (state : option DashboardState)
    : list string :=
  filter (λ id, id ∈ hiddenSet state) (mergedOrder frames state).

(** ** [setupDashboard]: the grid *)

(** A child of the grid wrapper: the card at position [k] of [frames], or
    the divider between the visible and the hidden cards. *)
Inductive Node := Card (k : nat) | Divider.

#[global] Instance Node_eq_dec : EqDecision Node.
Proof. solve_decision. Defined.

Definition removeChild (w : list Node) (n : Node) : list Node :=
  filter (λ c, c ≠ n) w.

(** [wrapper.appendChild(n)]: a node that is already a child moves to the
    end. *)
Definition appendChild (w : list Node) (n : Node) : list Node :=
  removeChild w n ++ [n].

Fixpoint nextSibling (w : list Node) (n : Node) : option Node :=
  match w with
  | [] => None
  | c :: w' => if bool_decide (c = n) then head w' else nextSibling w' n
  end.

Fixpoint insertAt (w : list Node) (ref n : Node) : list Node :=
  match w with
  | [] => [n]
  | c :: w' => if bool_decide (c = ref) then n :: c :: w' else c :: insertAt w' ref n
  end.

(** [wrapper.insertBefore(node, child)]; [None] is the [NotFoundError] the
    DOM throws when [child] is not a child of the wrapper. A [child] equal
    to [node] stands for the sibling after it. *)
Definition insertBefore (w : list Node) (node : Node) (child : option Node)
    : option (list Node) :=
  match child with
  | None => Some (removeChild w node ++ [node])
  | Some c =>
      if bool_decide (c ∈ w) then
        let ref := if bool_decide (c = node) then nextSibling w node else Some c in
        Some match ref with
             | Some r => insertAt (removeChild w node) r node
             | None => removeChild w node ++ [node]
             end
      else None
  end.

(** [applySpan]: [String(span)] stored in [dataset.buSpan] is read back by
    [parseInt(span, 10)] as the same number. *)
Definition applySpan (span : Z) (frame : Frame) : Frame :=
  {| f_id := f_id frame; f_titleLink := f_titleLink frame;
     f_hiddenCard := f_hiddenCard frame; f_dragging := f_dragging frame;
     f_buSpan := Some span |}.

Definition setHiddenCard (b : bool) (frame : Frame) : Frame :=
  {| f_id := f_id frame; f_titleLink := f_titleLink frame;
     f_hiddenCard := b; f_dragging := f_dragging frame;
     f_buSpan := f_buSpan frame |}.

Definition setDragging (b : bool) (frame : Frame) : Frame :=
  {| f_id := f_id frame; f_titleLink := f_titleLink frame;
     f_hiddenCard := f_hiddenCard frame; f_dragging := b;
     f_buSpan := f_buSpan frame |}.

(** Body of [for (const id of visibleOrder)]. *)
Definition placeVisible (m : gmap string nat) (state : option DashboardState)
    (dom : list Frame * list Node) (id : string) : list Frame * list Node :=
  match m !! id with
  | Some k => (alter (applySpan (getSpan state id)) k dom.1, appendChild dom.2 (Card k))
  | None => dom
  end.

(** Body of [for (const id of hiddenOrder)]. *)
Definition placeHidden (m : gmap string nat) (state : option DashboardState)
    (dom : list Frame * list Node) (id : string) : list Frame * list Node :=
  match m !! id with
  | Some k =>
      (alter (λ f, applySpan (getSpan state id) (setHiddenCard true f)) k dom.1,
       appendChild dom.2 (Card k))
  | None => dom
  end.

(** What the closures of [setupDashboard] share: the card elements, the
    children of [wrapper], the class [bu-edit-mode] of the dashboard and
    the variable [dragged]. *)
Record Session := {
  frames : list Frame;
  wrapper : list Node;
  editMode : bool;
  dragged : option nat;
}.

(** The elements, with their ids assigned, and the wrapper after the loop
    over [visibleOrder]. *)
Definition visibleGrid (frames0 : list Frame) (state : option DashboardState)
    : list Frame * list Node :=
  foldl (placeVisible (idToFrame frames0) state) (assignId <$> frames0, [])
        (visibleOrder frames0 state).

(** [if (hiddenOrder.length > 0)]: the divider, then the loop over
    [hiddenOrder]. *)
Definition fullGrid (frames0 : list Frame) (state : option DashboardState)
    : list Frame * list Node :=
  let dom := visibleGrid frames0 state in
  match hiddenOrder frames0 state with
  | [] => dom
  | ids => foldl (placeHidden (idToFrame frames0) state)
                 (dom.1, appendChild dom.2 Divider) ids
  end.

(** [setupDashboard] from the line that builds [frames] on; [frames0] is
    [[statsPanel, slotPanel, ...usosFrames]]. The dashboard of the host
    page starts without the class [bu-edit-mode]. *)
Definition setupDashboard (frames0 : list Frame) (σ : Store) : Session :=
  let dom := fullGrid frames0 (loadDashboardState σ) in
  {| frames := dom.1; wrapper := dom.2; editMode := false; dragged := None |}.

Definition statsPanel : Frame :=
  {| f_id := "bu-stats-frame"; f_titleLink := None; f_hiddenCard := false;
     f_dragging := false; f_buSpan := None |}.

Definition slotPanel : Frame :=
  {| f_id := "bu-slot-frame"; f_titleLink := None; f_hiddenCard := false;
     f_dragging := false; f_buSpan := None |}.

(** The page of one content-script instance. *)
Record Page := {
  dashboardEditState : option Session;
  store : Store;
}.

(** A page load: [setupDashboard] returns at once when the dashboard holds
    no [usos-frame]; otherwise it ends with [dashboardEditState] set. *)
Definition pageLoad (usosFrames : list Frame) (σ : Store) : Page :=
  {| dashboardEditState :=
       match usosFrames with
       | [] => None
       | _ => Some (setupDashboard (statsPanel :: slotPanel :: usosFrames) σ)
       end;
     store := σ |}.

(** ** Snapshots of the live grid and [persistOrder] *)

Definition cardOf (s : Session) (n : Node) : option Frame :=
  match n with
  | Card k => frames s !! k
  | Divider => None
  end.

Definition getCurrentOrder (s : Session) : list string :=
  omap (λ n, getFrameId <$> cardOf s n) (wrapper s).

Definition getHiddenIds (s : Session) : list string :=
  omap (λ n, f ← cardOf s n; if f_hiddenCard f then Some (getFrameId f) else None)
       (wrapper s).

(** [out[id] = n] on the plain object [out]. The key [__proto__] names the
    accessor that [out] inherits from [Object.prototype], whose setter
    ignores a value that is not an object: assigning a number to it creates
    no property. Every other key becomes a property of [out]. *)
Definition assignSpan (id : string) (n : Z) (out : gmap string Z) : gmap string Z :=
  if bool_decide (id = "__proto__") then out else <[id := n]> out.

Definition getSpans (s : Session) : gmap string Z :=
  foldl (λ out n,
           match cardOf s n with
           | Some f =>
               let n := default 3 (f_buSpan f) in
               if bool_decide (n ∈ SPAN_OPTIONS) then assignSpan (getFrameId f) n out
               else out
           | None => out
           end) ∅ (wrapper s).

Definition snapshot (s : Session) : DashboardState :=
  {| order := getCurrentOrder s; hidden := getHiddenIds s; spans := Some (getSpans s) |}.

Definition persistOrder (s : Session) (σ : Store) : Store :=
  saveDashboardState (snapshot s) σ.

(** ** Drag and drop *)

Definition onDragStart (k : nat) (s : Session) : Session :=
  if editMode s then
    {| frames := alter (setDragging true) k (frames s); wrapper := wrapper s;
       editMode := editMode s; dragged := Some k |}
  else s.

Definition onDragEnd (s : Session) : Session :=
  {| frames := match dragged s with
               | Some k => alter (setDragging false) k (frames s)
               | None => frames s
               end;
     wrapper := wrapper s; editMode := editMode s; dragged := None |}.

(** [target] is [e.target.closest(CARD_SEL)], [above] the outcome of
    [e.clientY < mid]. An exception of [insertBefore] leaves the listener
    with nothing changed. *)
Definition onDragOver (target : option nat) (above : bool) (s : Session) : Session :=
  match target, dragged s with
  | Some t, Some d =>
      if bool_decide (t = d) then s
      else match frames s !! d, frames s !! t with
           | Some fd, Some ft =>
               if bool_decide (f_hiddenCard fd ≠ f_hiddenCard ft) then s
               else
                 let child :=
                   if above then Some (Card t) else nextSibling (wrapper s) (Card t) in
                 match insertBefore (wrapper s) (Card d) child with
                 | Some w' =>
                     {| frames := frames s; wrapper := w';
                        editMode := editMode s; dragged := dragged s |}
                 | None => s
                 end
           | _, _ => s
           end
  | _, _ => s
  end.

Definition onDrop (s : Session) (σ : Store) : Store := persistOrder s σ.

Inductive DragEvent :=
  | DragStart (k : nat)
  | DragOver (target : option nat) (above : bool)
  | Drop
  | DragEnd.

(** One event delivered to the listeners of the cards. *)
Definition dispatch (c : Session * Store) (e : DragEvent) : Session * Store :=
  match e with
  | DragStart k => (onDragStart k c.1, c.2)
  | DragOver target above => (onDragOver target above c.1, c.2)
  | Drop => (c.1, onDrop c.1 c.2)
  | DragEnd => (onDragEnd c.1, c.2)
  end.

Definition dispatchAll (c : Session * Store) (es : list DragEvent) : Session * Store :=
  foldl dispatch c es.

Definition isDragStart (e : DragEvent) : bool :=
  match e with
  | DragStart _ => true
  | _ => false
  end.

(** ** Messages of the popup *)

Inductive Message := GET_DASHBOARD_EDIT_STATE | TOGGLE_DASHBOARD_EDIT.

Inductive Response :=
  | EditState (hasDashboard active : bool)   (* [{ hasDashboard, active }] *)
  | Active (active : bool).                  (* [{ active }] *)

Definition toggleEditMode (s : Session) : Session :=
  {| frames := frames s; wrapper := wrapper s;
     editMode := negb (editMode s); dragged := dragged s |}.

Definition onMessage (msg : Message) (p : Page) : Page * Response :=
  match msg with
  | GET_DASHBOARD_EDIT_STATE =>
      match dashboardEditState p with
      | Some s => (p, EditState true (editMode s))
      | None => (p, EditState false false)
      end
  | TOGGLE_DASHBOARD_EDIT =>
      match dashboardEditState p with
      | None => (p, Active false)
      | Some s =>
          let s' := toggleEditMode s in
          let active := editMode s' in
          ({| dashboardEditState := Some s';
              store := if active then store p else persistOrder s' (store p) |},
           Active active)
      end
  end.

(** ** Notions used in the statements *)

(** Modelled from the spec: the deterministic 32-bit rolling hash of the
    link target, an order-dependent fold over its characters. It starts at
    0, and every code unit [c] of the target takes [h] to [31 * h + c]
    brought back into the signed 32-bit range. *)
Definition rollingHash32 (target : list Z) : Z :=
  foldl (λ h c, (31 * h + c + 2 ^ 31) mod 2 ^ 32 - 2 ^ 31) 0 target.

(** The value of a numeral in base 36 with the digits [0-9a-z]; [None] for
    the empty string and for a string with any other character. *)
Definition digitValue36 (c : ascii) : option Z :=
  let n := Z.of_nat (nat_of_ascii c) in
  if bool_decide (48 ≤ n ≤ 57) then Some (n - 48)
  else if bool_decide (97 ≤ n ≤ 122) then Some (n - 87)
  else None.

Fixpoint parse36_go (acc : Z) (s : string) : option Z :=
  match s with
  | EmptyString => Some acc
  | String c s' =>
      match digitValue36 c with
      | Some d => parse36_go (36 * acc + d) s'
      | None => None
      end
  end.

Definition parse36 (s : string) : option Z :=
  match s with
  | EmptyString => None
  | _ => parse36_go 0 s
  end.

(** The same card with another display text on its title link. *)
Definition withTitleText (text : string) (frame : Frame) : Frame :=
  {| f_id := f_id frame;
     f_titleLink :=
       match f_titleLink frame with
       | Some l => Some {| l_href := l_href l; l_text := text |}
       | None => None
       end;
     f_hiddenCard := f_hiddenCard frame; f_dragging := f_dragging frame;
     f_buSpan := f_buSpan frame |}.

(** No card carries the class [bu-dragging]. *)
Definition noMarker (s : Session) : Prop :=
  ∀ k f, frames s !! k = Some f → f_dragging f = false.

(** The drag state machine is idle. *)
Definition idle (s : Session) : Prop := dragged s = None ∧ noMarker s.

(** While a gesture lasts, only the dragged card can carry the marker. *)
Definition markerOnDragged (s : Session) : Prop :=
  ∀ k f, frames s !! k = Some f → f_dragging f = true → dragged s = Some k.

(** The two loops that fill the wrapper differ only in what they do to the
    card they place. *)
Definition place (g : string → Frame → Frame) (m : gmap string nat)
    (dom : list Frame * list Node) (id : string) : list Frame * list Node :=
  match m !! id with
  | Some k => (alter (g id) k dom.1, appendChild dom.2 (Card k))
  | None => dom
  end.

(** The mapping from each of [ids] to its resolved width. *)
Definition spansOf (state : option DashboardState) (ids : list string) : gmap string Z :=
  foldl (λ out id, <[id := getSpan state id]> out) ∅ ids.

(** The state made of a layout: its full order, its hidden ids and the
    mapping of every id to its resolved width. *)
Definition layoutState (frames : list Frame) (state : option DashboardState)
    : DashboardState :=
  {| order := visibleOrder frames state ++ hiddenOrder frames state;
     hidden := hiddenOrder frames state;
     spans := Some (spansOf state (visibleOrder frames state ++ hiddenOrder frames state)) |}.

(** The same state as [persistOrder] saves it when it runs on the grid as
    [setupDashboard] built it (see [snapshot_setupDashboard]): the [spans]
    object that [getSpans] fills by assignment has no property
    [__proto__]. *)
Definition savedLayout (frames : list Frame) (state : option DashboardState)
    : DashboardState :=
  {| order := order (layoutState frames state);
     hidden := hidden (layoutState frames state);
     spans := delete "__proto__" <$> spans (layoutState frames state) |}.

(** A card as [setupDashboard] leaves it in the grid. *)
Definition placed (state : option DashboardState) (h : bool) (id : string) (f : Frame)
    : Prop :=
  getFrameId f = id ∧ f_hiddenCard f = h ∧ f_buSpan f = Some (getSpan state id).

Definition recordSpan (out : gmap string Z) (f : Frame) : gmap string Z :=
  let n := default 3 (f_buSpan f) in
  if bool_decide (n ∈ SPAN_OPTIONS) then assignSpan (getFrameId f) n out else out.

(** ** Concrete pages *)

Definition kontrolerFrame (text : string) : Frame :=
  {| f_id := "";
     f_titleLink := Some {| l_href := Some (codeUnits "kontroler.php?_action=home/grupy");
                            l_text := text |};
     f_hiddenCard := false; f_dragging := false; f_buSpan := None |}.

Definition spansSample : option DashboardState :=
  Some {| order := ["a"; "b"]; hidden := [];
          spans := Some {[ "a" := 4; "b" := 5 ]} |}.

Definition emptyStore : Store := {| _dashboardCache := None; storageWrites := [] |}.

Definition plainFrame (id : string) : Frame :=
  {| f_id := id; f_titleLink := None; f_hiddenCard := false;
     f_dragging := false; f_buSpan := None |}.

(** A page with two native cards, in edit mode. *)
Definition editingPage : Page :=
  (onMessage TOGGLE_DASHBOARD_EDIT
     (pageLoad [plainFrame "a"; plainFrame "b"] emptyStore)).1.

(** Stored state in which card [b] is hidden. *)
Definition storeHidingB : Store :=
  {| _dashboardCache :=
       Some {| order := ["a"; "bu-slot-frame"; "bu-stats-frame"; "b"];
               hidden := ["b"]; spans := None |};
     storageWrites := [] |}.

(** The grid [a, slot, stats | b] in edit mode: card 2 ([a]) is visible,
    card 3 ([b]) is hidden. *)
Definition editingSession : Session :=
  toggleEditMode
    (setupDashboard [statsPanel; slotPanel; plainFrame "a"; plainFrame "b"] storeHidingB).

Definition draggingSession : Session := onDragStart 2 editingSession.

(** Five discovered cards; the stored order names three of them and one
    id that is gone. *)
Definition fiveCards : list Frame :=
  [statsPanel; slotPanel; plainFrame "a"; plainFrame "b"; plainFrame "c"].

Definition storedThreeAndStale : DashboardState :=
  {| order := ["b"; "gone"; "bu-stats-frame"; "a"];
     hidden := ["a"; "q"];
     spans := Some {[ "a" := 4; "q" := 2 ]} |}.

Definition fourCards : list Frame :=
  [statsPanel; slotPanel; plainFrame "a"; plainFrame "b"].

(** A stored state written before cards [a] and [b] were known. *)
Definition storedPanelsOnly : DashboardState :=
  {| order := ["bu-slot-frame"; "bu-stats-frame"]; hidden := []; spans := None |}.

(** A stored state whose [hidden] list names card [b] while its order does
    not. *)
Definition storedHidingUnknown : DashboardState :=
  {| order := ["bu-stats-frame"; "bu-slot-frame"; "a"]; hidden := ["b"]; spans := None |}.

(** Two native cards without id and without title link: both resolve to
    [bu-0]. *)
Definition collidingCards : list Frame :=
  [statsPanel; slotPanel; plainFrame ""; plainFrame ""].

Definition storeThreeAndStale : Store :=
  {| _dashboardCache := Some storedThreeAndStale; storageWrites := [] |}.

(** ** Hide and width buttons *)

(** [wrapper.querySelectorAll(`:is(${CARD_SEL}).bu-hidden-card`).length]
    is not zero. *)
Definition anyHiddenCard (fs : list Frame) (w : list Node) : bool :=
  existsb (λ n, match n with
                | Card k => from_option f_hiddenCard false (fs !! k)
                | Divider => false
                end) w.

Definition withGrid (s : Session) (fs : list Frame) (w : list Node) : Session :=
  {| frames := fs; wrapper := w; editMode := editMode s; dragged := dragged s |}.

(** The click listener of the hide button of the card at position [k].
    When [insertBefore] throws, the class is already removed and
    [persistOrder] is not reached. *)
Definition onHideClick (k : nat) (c : Session * Store) : Session * Store :=
  let s := c.1 in
  match frames s !! k with
  | None => c
  | Some frame =>
      if f_hiddenCard frame then
        let fs := alter (setHiddenCard false) k (frames s) in
        match insertBefore (wrapper s) (Card k) (Some Divider) with
        | None => (withGrid s fs (wrapper s), c.2)
        | Some w =>
            let w' := if negb (anyHiddenCard fs w) && bool_decide (Divider ∈ w)
                      then removeChild w Divider else w in
            let s' := withGrid s fs w' in
            (s', persistOrder s' c.2)
        end
      else
        let fs := alter (setHiddenCard true) k (frames s) in
        let w1 := if bool_decide (Divider ∈ wrapper s) then wrapper s
                  else appendChild (wrapper s) Divider in
        let s' := withGrid s fs (appendChild w1 (Card k)) in
        (s', persistOrder s' c.2)
  end.

(** The click listener of the width button [span] of the card at position
    [k]. *)
Definition onWidthClick (k : nat) (span : Z) (c : Session * Store) : Session * Store :=
  let s' := withGrid c.1 (alter (applySpan span) k (frames c.1)) (wrapper c.1) in
  (s', persistOrder s' c.2).

(** [TOGGLE_DASHBOARD_EDIT] on a page with a dashboard, as [onMessage]
    has it. *)
Definition toggleEdit (c : Session * Store) : Session * Store :=
  let s' := toggleEditMode c.1 in
  (s', if editMode s' then c.2 else persistOrder s' c.2).

(** What the user can do on the grid. *)
Inductive GridEvent :=
  | Drag (e : DragEvent)
  | HideClick (k : nat)
  | WidthClick (k : nat) (span : Z).

Definition handle (c : Session * Store) (e : GridEvent) : Session * Store :=
  match e with
  | Drag e => dispatch c e
  | HideClick k => onHideClick k c
  | WidthClick k span => onWidthClick k span c
  end.

(** An event the page can deliver: the card it is fired at is a child of
    the wrapper, and a width button exists for the four spans only. *)
Definition admissible (s : Session) (e : GridEvent) : Prop :=
  match e with
  | Drag (DragStart k) => Card k ∈ wrapper s
  | Drag (DragOver (Some t) _) => Card t ∈ wrapper s
  | Drag _ => True
  | HideClick k => Card k ∈ wrapper s
  | WidthClick k span => Card k ∈ wrapper s ∧ span ∈ SPAN_OPTIONS
  end.

(** The class [bu-hidden-card] of the card at position [k]. *)
Definition hiddenAt (s : Session) (k : nat) : bool :=
  from_option f_hiddenCard false (frames s !! k).

(** The divider is in the wrapper when some card is hidden. *)
Definition dividerOf (hs : list nat) : list Node :=
  match hs with
  | [] => []
  | _ => [Divider]
  end.

(** The visible cards, then the divider when a card is hidden, then the
    hidden cards; the class [bu-hidden-card] is on the cards after the divider
    and on no other. *)
Definition shaped (s : Session) : Prop :=
  ∃ vs hs, wrapper s = (Card <$> vs) ++ dividerOf hs ++ (Card <$> hs) ∧
           Forall (λ k, hiddenAt s k = false) vs ∧
           Forall (λ k, hiddenAt s k = true) hs.

(** The grid is well formed for the registry [m]: it has that shape; no node
    twice; every
    card of the wrapper is the element registered for its id, and every
    registered element is in the wrapper; every card carries a span of
    [SPAN_OPTIONS]; the dragged card is in the wrapper. *)
Record wellFormed (m : gmap string nat) (s : Session) : Prop := {
  wf_shape : shaped s;
  wf_NoDup : NoDup (wrapper s);
  wf_registered :
    ∀ k, Card k ∈ wrapper s →
         ∃ f, frames s !! k = Some f ∧ m !! getFrameId f = Some k;
  wf_complete : ∀ id k, m !! id = Some k → Card k ∈ wrapper s;
  wf_spans :
    ∀ k f, Card k ∈ wrapper s → frames s !! k = Some f →
           ∃ v, f_buSpan f = Some v ∧ v ∈ SPAN_OPTIONS;
  wf_dragged : ∀ d, dragged s = Some d → Card d ∈ wrapper s;
}.

(** The configurations that a page load followed by admissible events
    reaches. *)
Inductive reachable (frames0 : list Frame) (σ0 : Store) : Session * Store → Prop :=
  | reachable_load : reachable frames0 σ0 (setupDashboard frames0 σ0, σ0)
  | reachable_edit c :
      reachable frames0 σ0 c →
      reachable frames0 σ0 (toggleEdit c)
  | reachable_event c e :
      reachable frames0 σ0 c → admissible c.1 e →
      reachable frames0 σ0 (handle c e).

(** A visit of the page with four cards and nothing stored: edit mode is
    switched on, card [a] is hidden, card [b] is set to two thirds of the
    width and dragged above the slot panel. *)
Definition editedGrid : Session * Store :=
  foldl handle (toggleEdit (setupDashboard fourCards emptyStore, emptyStore))
        [HideClick 2; WidthClick 3 4; Drag (DragStart 3);
         Drag (DragOver (Some 1%nat) true); Drag Drop; Drag DragEnd].

(** A page with one native card whose id is [__proto__]. *)
Definition protoCards : list Frame :=
  [statsPanel; slotPanel; plainFrame "__proto__"].

(** ** Text helper: [escapeHTML] *)

(** [str.replace(/c/g, by)] for a pattern of one literal code unit [c] and a
    replacement without [$]: every occurrence of [c] becomes [by], from left
    to right, and what was put in is not searched again. *)
Definition replaceAll (c : Z) (by_ : list Z) (str : list Z) : list Z :=
  str ≫= (λ x, if bool_decide (x = c) then by_ else [x]).

(** The five passes, in the order of the source. A string is the list of
    its UTF-16 code units. *)
Definition escapeHTML (str : list Z) : list Z :=
  replaceAll 39 (codeUnits "&#39;")
    (replaceAll 34 (codeUnits "&quot;")
       (replaceAll 62 (codeUnits "&gt;")
          (replaceAll 60 (codeUnits "&lt;")
             (replaceAll 38 (codeUnits "&amp;") str)))).

(** The entity that stands for one code unit. *)
Definition entity (x : Z) : list Z :=
  if bool_decide (x = 38) then codeUnits "&amp;"
  else if bool_decide (x = 60) then codeUnits "&lt;"
  else if bool_decide (x = 62) then codeUnits "&gt;"
  else if bool_decide (x = 34) then codeUnits "&quot;"
  else if bool_decide (x = 39) then codeUnits "&#39;"
  else [x].

(** ** Numbers *)

(** A JS number is an IEEE 754 double, the primitive [float] of Rocq:
    [a + b] is [PrimFloat.add a b] and [a <= b] is [PrimFloat.leb a b], as
    the standard has them (round to nearest, ties to even; an addition that
    passes 2^53 loses the units; a comparison with [NaN] is false). *)

(** The double nearest to the integer [n]; it is [n] itself below 2^53. *)
Definition floatOfZ (n : Z) : spec_float := binary_normalize prec emax n 0 false.

Definition numberOfZ (n : Z) : float := SF2Prim (floatOfZ n).

(** [Math.max(a, b)]: [NaN] when either argument is, and of the two zeros
    the positive one. *)
Definition Math_max (a b : float) : float :=
  if PrimFloat.is_nan a || PrimFloat.is_nan b then PrimFloat.nan
  else if PrimFloat.ltb a b then b
  else if PrimFloat.ltb b a then a
  else if PrimFloat.get_sign a then b else a.

(** ** Statistics: [_statsCache] and its users *)

(** [interface GradeEntry]. The two numbers of an entry are kept as the
    decimal numerals they are parsed from ([dataset.buGrade] and the group
    of the [max] pattern); nothing below computes with them. *)
Record GradeEntry := {
  e_name : string;
  e_subject : string;
  e_value : string;
  e_max : option string;
  e_date : Z;
  e_url : string;
}.

(** [interface GradeStatistics]. The counters, [totalGrades] and [coins]
    are the numbers that the code adds to and compares; they come from
    storage as they are, so they are doubles of any value. The two time
    stamps are whole numbers of milliseconds, as [Date.now()] gives them. *)
Record GradeStatistics := {
  defeatedCount : float;
  failCount : float;
  revealedCount : float;
  totalGrades : float;
  lastUpdated : Z;
  defeatedEntries : list GradeEntry;
  failEntries : list GradeEntry;
  coins : float;
  lastFreeSpin : Z;
}.

Definition EMPTY_STATS : GradeStatistics :=
  {| defeatedCount := 0%float; failCount := 0%float; revealedCount := 0%float;
     totalGrades := 0%float; lastUpdated := 0; defeatedEntries := [];
     failEntries := []; coins := 0%float; lastFreeSpin := 0 |}.

(** What the statistics code reads and writes outside its arguments: the
    module-level cache, the calls of [chrome.storage.local.set] (newest
    first), the system clock as the sequence of its readings with the number
    of readings taken so far, the local calendar ([getFullYear], [getMonth],
    [getDate] of a time stamp), and the three places of the dashboard that
    show statistics, each present or not: the statistics whose rendering
    fills [#bu-stats-panel-content], the number whose numeral
    [#bu-slot-coins] shows, and whether [#bu-slot-pull] is disabled. *)
Record World := {
  _statsCache : GradeStatistics;
  statsWrites : list GradeStatistics;
  clock : nat → Z;
  ticks : nat;
  localDate : Z → Z * Z * Z;
  panelShown : option GradeStatistics;
  slotCoins : option float;
  leverDisabled : option bool;
}.

(** Code that runs against the world. *)
Definition St (A : Type) : Type := World → A * World.

#[global] Instance St_ret : MRet St := λ A a w, (a, w).
#[global] Instance St_bind : MBind St := λ A B k m w, let r := m w in k r.1 r.2.

(** [Date.now()] and [new Date()]: the next reading of the clock. *)
Definition Date_now : St Z := λ w,
  (clock w (ticks w),
   {| _statsCache := _statsCache w; statsWrites := statsWrites w; clock := clock w;
      ticks := S (ticks w); localDate := localDate w; panelShown := panelShown w;
      slotCoins := slotCoins w; leverDisabled := leverDisabled w |}).

Definition loadStatistics : St GradeStatistics := λ w, (_statsCache w, w).

Definition withLastUpdated (now : Z) (stats : GradeStatistics) : GradeStatistics :=
  {| defeatedCount := defeatedCount stats; failCount := failCount stats;
     revealedCount := revealedCount stats; totalGrades := totalGrades stats;
     lastUpdated := now; defeatedEntries := defeatedEntries stats;
     failEntries := failEntries stats; coins := coins stats;
     lastFreeSpin := lastFreeSpin stats |}.

(** [_statsCache = { ...stats }] and [chrome.storage.local.set]. *)
Definition putStatistics (stats : GradeStatistics) : St unit := λ w,
  (tt,
   {| _statsCache := stats; statsWrites := stats :: statsWrites w; clock := clock w;
      ticks := ticks w; localDate := localDate w; panelShown := panelShown w;
      slotCoins := slotCoins w; leverDisabled := leverDisabled w |}).

Definition saveStatistics (stats : GradeStatistics) : St unit :=
  now ← Date_now; putStatistics (withLastUpdated now stats).

(** The keys that [updateStatistic] accepts. *)
Inductive StatKey := KdefeatedCount | KfailCount | KrevealedCount | Kcoins.

(** [stats[key] += increment]: the addition of two doubles, stored under
    [key]; the other properties are not touched. *)
Definition addTo (key : StatKey) (increment : float) (stats : GradeStatistics)
    : GradeStatistics :=
  match key with
  | KdefeatedCount =>
      {| defeatedCount := PrimFloat.add (defeatedCount stats) increment;
         failCount := failCount stats; revealedCount := revealedCount stats;
         totalGrades := totalGrades stats; lastUpdated := lastUpdated stats;
         defeatedEntries := defeatedEntries stats; failEntries := failEntries stats;
         coins := coins stats; lastFreeSpin := lastFreeSpin stats |}
  | KfailCount =>
      {| defeatedCount := defeatedCount stats;
         failCount := PrimFloat.add (failCount stats) increment;
         revealedCount := revealedCount stats;
         totalGrades := totalGrades stats; lastUpdated := lastUpdated stats;
         defeatedEntries := defeatedEntries stats; failEntries := failEntries stats;
         coins := coins stats; lastFreeSpin := lastFreeSpin stats |}
  | KrevealedCount =>
      {| defeatedCount := defeatedCount stats; failCount := failCount stats;
         revealedCount := PrimFloat.add (revealedCount stats) increment;
         totalGrades := totalGrades stats; lastUpdated := lastUpdated stats;
         defeatedEntries := defeatedEntries stats; failEntries := failEntries stats;
         coins := coins stats; lastFreeSpin := lastFreeSpin stats |}
  | Kcoins =>
      {| defeatedCount := defeatedCount stats; failCount := failCount stats;
         revealedCount := revealedCount stats;
         totalGrades := totalGrades stats; lastUpdated := lastUpdated stats;
         defeatedEntries := defeatedEntries stats; failEntries := failEntries stats;
         coins := PrimFloat.add (coins stats) increment;
         lastFreeSpin := lastFreeSpin stats |}
  end.

(** [refreshStatisticsPanel]: the panel, when it is there, is filled with
    the rendering of the cached statistics. *)
Definition refreshStatisticsPanel : St unit := λ w,
  (tt,
   match panelShown w with
   | None => w
   | Some _ =>
       {| _statsCache := _statsCache w; statsWrites := statsWrites w; clock := clock w;
          ticks := ticks w; localDate := localDate w;
          panelShown := Some (_statsCache w);
          slotCoins := slotCoins w; leverDisabled := leverDisabled w |}
   end).

(** [hasFreeSpinToday]: the clock is read only when a free spin was taken
    before. *)
Definition otherDay (last now : Z) : St bool := λ w,
  (bool_decide (localDate w last ≠ localDate w now), w).

Definition hasFreeSpinToday : St bool :=
  stats ← loadStatistics;
  if bool_decide (lastFreeSpin stats = 0) then (mret true : St bool)
  else (now ← Date_now; otherDay (lastFreeSpin stats) now : St bool).

Definition setSlotCoins (n : float) : St unit := λ w,
  (tt,
   {| _statsCache := _statsCache w; statsWrites := statsWrites w; clock := clock w;
      ticks := ticks w; localDate := localDate w; panelShown := panelShown w;
      slotCoins := Some n; leverDisabled := leverDisabled w |}).

Definition setLeverDisabled (b : bool) : St unit := λ w,
  (tt,
   {| _statsCache := _statsCache w; statsWrites := statsWrites w; clock := clock w;
      ticks := ticks w; localDate := localDate w; panelShown := panelShown w;
      slotCoins := slotCoins w; leverDisabled := Some b |}).

(** [refreshCoinDisplay]; [coins <= 0 && !hasFreeSpinToday()] calls
    [hasFreeSpinToday] only when no coin is left. *)
Definition refreshLever (stats : GradeStatistics) : St unit := λ w,
  match leverDisabled w with
  | None => (tt, w)
  | Some _ =>
      (if PrimFloat.leb (coins stats) 0
       then (free ← hasFreeSpinToday; setLeverDisabled (negb free) : St unit)
       else setLeverDisabled false) w
  end.

Definition refreshCoinDisplay : St unit := λ w,
  match slotCoins w with
  | None => (tt, w)
  | Some _ =>
      (stats ← loadStatistics;
       setSlotCoins (coins stats);;
       refreshLever stats : St unit) w
  end.

(** What [updateStatistic] does with the new statistics: it saves them and
    refreshes the panel and the coin display. *)
Definition publish (stats : GradeStatistics) : St unit :=
  saveStatistics stats;;
  refreshStatisticsPanel;;
  refreshCoinDisplay.

Definition updateStatistic (key : StatKey) (increment : float) : St unit :=
  stats ← loadStatistics;
  saveStatistics (addTo key increment stats);;
  refreshStatisticsPanel;;
  refreshCoinDisplay.

Inductive EntryType := Defeated | Fail.

(** [list.push(entry)] on the array that the copy returned by
    [loadStatistics] shares with the cache, then the save. *)
Definition pushEntry (type : EntryType) (entry : GradeEntry) (stats : GradeStatistics)
    : GradeStatistics :=
  {| defeatedCount := defeatedCount stats; failCount := failCount stats;
     revealedCount := revealedCount stats; totalGrades := totalGrades stats;
     lastUpdated := lastUpdated stats;
     defeatedEntries := match type with
                        | Defeated => defeatedEntries stats ++ [entry]
                        | Fail => defeatedEntries stats
                        end;
     failEntries := match type with
                    | Defeated => failEntries stats
                    | Fail => failEntries stats ++ [entry]
                    end;
     coins := coins stats; lastFreeSpin := lastFreeSpin stats |}.

Definition addGradeEntry (type : EntryType) (entry : GradeEntry) : St unit :=
  stats ← loadStatistics; saveStatistics (pushEntry type entry stats).

Definition withTotalGrades (total : float) (stats : GradeStatistics) : GradeStatistics :=
  {| defeatedCount := defeatedCount stats; failCount := failCount stats;
     revealedCount := revealedCount stats; totalGrades := total;
     lastUpdated := lastUpdated stats; defeatedEntries := defeatedEntries stats;
     failEntries := failEntries stats; coins := coins stats;
     lastFreeSpin := lastFreeSpin stats |}.

Definition setTotalGrades (total : float) : St unit :=
  stats ← loadStatistics;
  saveStatistics (withTotalGrades (Math_max (totalGrades stats) total) stats).

Definition withLastFreeSpin (now : Z) (stats : GradeStatistics) : GradeStatistics :=
  {| defeatedCount := defeatedCount stats; failCount := failCount stats;
     revealedCount := revealedCount stats; totalGrades := totalGrades stats;
     lastUpdated := lastUpdated stats; defeatedEntries := defeatedEntries stats;
     failEntries := failEntries stats; coins := coins stats;
     lastFreeSpin := now |}.

Definition useFreeSpinToday : St unit :=
  stats ← loadStatistics;
  now ← Date_now;
  saveStatistics (withLastFreeSpin now stats).

(** ** Hidden grades: [setupHiddenGrades] *)

(** A grade cell of [#drzewo]. The listeners read from its row two tests,
    both times by the same expressions: [c_perfect] is
    [max !== null && Math.abs(grade - max) < 0.005] and [c_zero] is
    [Math.abs(grade) < 0.005]; the model takes their outcome, and the name
    of the grade, as part of the page. *)
Record Cell := {
  c_revealed : bool;        (* class [bu-grade-revealed], else [bu-grade-hidden] *)
  c_perfect : bool;
  c_zero : bool;
  c_name : string;          (* [getGradeName(cell)] *)
  c_value : string;         (* [dataset.buGrade] *)
  c_max : option string;    (* the number after [max] in the row, if any *)
}.

Inductive Overlay := YouDefeated | YouFailed.

(** The closure state of [setupHiddenGrades]: the cells in document order,
    the [Set] [revealed] in insertion order, the arrays handed to
    [chrome.storage.local.set] by [saveRevealed] (newest first), the
    overlays shown (newest first) and whether the button of "reveal all" is
    in the page. *)
Record GradesPage := {
  cells : list Cell;
  revealed : list nat;
  revealedWrites : list (list nat);
  overlays : list Overlay;
  subjectName : string;
  pageUrl : string;
  revealAllBtn : bool;
}.

(** [set.add(i)] *)
Definition setAdd (set : list nat) (i : nat) : list nat :=
  if bool_decide (i ∈ set) then set else set ++ [i].

(** [classList.remove("bu-grade-hidden"); classList.add("bu-grade-revealed")] *)
Definition reveal (cell : Cell) : Cell :=
  {| c_revealed := true; c_perfect := c_perfect cell; c_zero := c_zero cell;
     c_name := c_name cell; c_value := c_value cell; c_max := c_max cell |}.

Definition entryOf (g : GradesPage) (cell : Cell) (now : Z) : GradeEntry :=
  {| e_name := c_name cell; e_subject := subjectName g; e_value := c_value cell;
     e_max := c_max cell; e_date := now; e_url := pageUrl g |}.

(** The click listener of cell [index]. *)
Definition cellClick (index : nat) (p : GradesPage * World) : GradesPage * World :=
  let g := p.1 in
  match cells g !! index with
  | None => p
  | Some cell =>
      let shown := if c_perfect cell then YouDefeated :: overlays g
                   else if c_zero cell then YouFailed :: overlays g
                   else overlays g in
      if c_revealed cell then
        ({| cells := cells g; revealed := revealed g;
            revealedWrites := revealedWrites g; overlays := shown;
            subjectName := subjectName g; pageUrl := pageUrl g;
            revealAllBtn := revealAllBtn g |}, p.2)
      else
        let set := setAdd (revealed g) index in
        ({| cells := alter reveal index (cells g); revealed := set;
            revealedWrites := set :: revealedWrites g; overlays := shown;
            subjectName := subjectName g; pageUrl := pageUrl g;
            revealAllBtn := revealAllBtn g |},
         ((updateStatistic KrevealedCount 1%float;;
           updateStatistic Kcoins 1%float;;
           if c_perfect cell then
             (updateStatistic KdefeatedCount 1%float;;
              updateStatistic Kcoins 1%float;;
              now ← Date_now;
              addGradeEntry Defeated (entryOf g cell now) : St unit)
           else if c_zero cell then
             (updateStatistic KfailCount 1%float;;
              now ← Date_now;
              addGradeEntry Fail (entryOf g cell now) : St unit)
           else (mret tt : St unit)) p.2).2)
  end.

(** One turn of the [forEach] of the "reveal all" listener; the third
    component is [newReveals]. *)
Definition revealAllStep (acc : GradesPage * World * nat) (index : nat)
    : GradesPage * World * nat :=
  let g := acc.1.1 in
  match cells g !! index with
  | None => acc
  | Some cell =>
      if c_revealed cell then acc
      else
        ({| cells := alter reveal index (cells g);
            revealed := setAdd (revealed g) index;
            revealedWrites := revealedWrites g; overlays := overlays g;
            subjectName := subjectName g; pageUrl := pageUrl g;
            revealAllBtn := revealAllBtn g |},
         ((updateStatistic KrevealedCount 1%float;;
           updateStatistic Kcoins 1%float;;
           if c_perfect cell then
             (updateStatistic KdefeatedCount 1%float;;
              updateStatistic Kcoins 1%float;;
              now ← Date_now;
              addGradeEntry Defeated (entryOf g cell now) : St unit)
           else if c_zero cell then
             (updateStatistic KfailCount 1%float;;
              now ← Date_now;
              addGradeEntry Fail (entryOf g cell now) : St unit)
           else (mret tt : St unit)) acc.1.2).2,
         S acc.2)
  end.

(** The click listener of the button; it exists while the button does. *)
Definition revealAll (p : GradesPage * World) : GradesPage * World :=
  if revealAllBtn p.1 then
    let acc := foldl revealAllStep (p, 0%nat) (seq 0 (length (cells p.1))) in
    let g := acc.1.1 in
    let saved := bool_decide (0 < acc.2)%nat in
    ({| cells := cells g; revealed := revealed g;
        revealedWrites := if saved then revealed g :: revealedWrites g
                          else revealedWrites g;
        overlays := overlays g; subjectName := subjectName g; pageUrl := pageUrl g;
        revealAllBtn := false |},
     if saved then (refreshCoinDisplay acc.1.2).2 else acc.1.2)
  else p.

(** [new Set(arr)] when the stored value is an array, the empty set
    otherwise. *)
Definition loadRevealed (stored : option (list nat)) : list nat :=
  foldl setAdd [] (default [] stored).

Definition withRevealed (b : bool) (cell : Cell) : Cell :=
  {| c_revealed := b; c_perfect := c_perfect cell; c_zero := c_zero cell;
     c_name := c_name cell; c_value := c_value cell; c_max := c_max cell |}.

(** [setupHiddenGrades] from [loadRevealed] on: [rows] are the grade cells
    found in [#drzewo], [stored] is the value under the key of the page. *)
Definition setupHiddenGrades (rows : list Cell) (subject url : string)
    (stored : option (list nat)) (w : World) : GradesPage * World :=
  let set := loadRevealed stored in
  match rows with
  | [] =>
      ({| cells := []; revealed := set; revealedWrites := []; overlays := [];
          subjectName := subject; pageUrl := url; revealAllBtn := false |}, w)
  | _ =>
      let cs := imap (λ index cell, withRevealed (bool_decide (index ∈ set)) cell) rows in
      ({| cells := cs; revealed := set; revealedWrites := []; overlays := [];
          subjectName := subject; pageUrl := url;
          revealAllBtn := existsb (λ cell, negb (c_revealed cell)) cs |},
       (setTotalGrades (numberOfZ (Z.of_nat (length rows))) w).2)
  end.

(** The events of the grades page. *)
Inductive GradeEvent := CellClick (index : nat) | RevealAll.

Definition gradeHandle (p : GradesPage * World) (e : GradeEvent) : GradesPage * World :=
  match e with
  | CellClick index => cellClick index p
  | RevealAll => revealAll p
  end.

(** ** Slot machine: the lever *)

Definition SLOT_EMOJIS : list string :=
  ["🍒"; "🍋"; "🍊"; "🍇"; "⭐"; "💎"; "7️⃣"; "🔔"].

Inductive SlotResult :=
  | Blank | NoCoins | Jackpot | Almost | TryAgain (msg : nat).

(** The closure state of [initSlotMachine]: [spinning], the three [results]
    of the spin under way ([None] is [undefined]), and what
    [#bu-slot-result] shows. *)
Record Slot := {
  spinning : bool;
  results : option string * option string * option string;
  resultEl : SlotResult;
}.

(** The click listener of the lever; [t0], [t1], [t2] are the three values
    of [Math.floor(Math.random() * N)]. *)
Definition leverClick (t0 t1 t2 : nat) (c : Slot * World) : Slot * World :=
  if spinning c.1 then c
  else
    let r1 := loadStatistics c.2 in
    let r2 := hasFreeSpinToday r1.2 in
    if PrimFloat.leb (coins r1.1) 0 && negb r2.1 then
      ({| spinning := spinning c.1; results := results c.1; resultEl := NoCoins |},
       r2.2)
    else
      ({| spinning := true;
          results := (SLOT_EMOJIS !! t0, SLOT_EMOJIS !! t1, SLOT_EMOJIS !! t2);
          resultEl := Blank |},
       ((if r2.1 then (useFreeSpinToday;; refreshCoinDisplay : St unit)
         else updateStatistic Kcoins (-1)%float) r2.2).2).

(** The continuation of [Promise.all(promises)], which runs once for every
    spin, when the three reels have stopped; [msg] is the value of
    [Math.floor(Math.random() * msgs.length)]. *)
Definition spinDone (msg : nat) (c : Slot * World) : Slot * World :=
  if spinning c.1 then
    let '(a, b, d) := results c.1 in
    if bool_decide (a = b) && bool_decide (b = d) then
      ({| spinning := false; results := results c.1; resultEl := Jackpot |},
       (updateStatistic Kcoins 10%float c.2).2)
    else if bool_decide (a = b) || bool_decide (b = d) || bool_decide (a = d) then
      ({| spinning := false; results := results c.1; resultEl := Almost |}, c.2)
    else
      ({| spinning := false; results := results c.1; resultEl := TryAgain msg |}, c.2)
  else c.

Inductive SlotEvent := LeverClick (t0 t1 t2 : nat) | SpinDone (msg : nat).

Definition slotHandle (c : Slot * World) (e : SlotEvent) : Slot * World :=
  match e with
  | LeverClick t0 t1 t2 => leverClick t0 t1 t2 c
  | SpinDone msg => spinDone msg c
  end.

(** ** Notions used in the statements about statistics *)

(** The number of revealed cells that pass the test [P]. *)
Definition tally (P : Cell → bool) (cs : list Cell) : Z :=
  Z.of_nat (length (filter (λ cell, c_revealed cell && P cell) cs)).

Definition everyCell (cell : Cell) : bool := true.

(** A cell that counts as failed: zero, and not perfect. *)
Definition failed (cell : Cell) : bool := negb (c_perfect cell) && c_zero cell.

(** [x] after [n] times [x += 1]. *)
Definition bump (n : nat) (x : float) : float :=
  Nat.iter n (λ y, PrimFloat.add y 1) x.

(** The number [x] is the whole number [n], not negative and below 2^53,
    the range in which every whole number is a double. *)
Definition whole (x : float) (n : Z) : Prop := x = numberOfZ n ∧ 0 ≤ n < 2 ^ 53.

(** [s'] is [s] after crediting [r] revealed grades, [p] of them perfect
    and [f] of them failed: [revealedCount] was incremented [r] times,
    [defeatedCount] and [failCount] [p] and [f] times, [coins] once for
    every revealed grade and once more for every perfect one; the lists of
    entries grew by [p] and by [f]; [totalGrades] and [lastFreeSpin] are
    the same. *)
Definition credited (r p f : nat) (s s' : GradeStatistics) : Prop :=
  revealedCount s' = bump r (revealedCount s) ∧
  defeatedCount s' = bump p (defeatedCount s) ∧
  failCount s' = bump f (failCount s) ∧
  coins s' = bump (r + p) (coins s) ∧
  length (defeatedEntries s') = (length (defeatedEntries s) + p)%nat ∧
  length (failEntries s') = (length (failEntries s) + f)%nat ∧
  totalGrades s' = totalGrades s ∧
  lastFreeSpin s' = lastFreeSpin s.

(** The cells [cs'] have [r] more revealed cells than [cs], [p] more
    perfect ones and [f] more failed ones among them. *)
Definition revealedMore (r p f : nat) (cs cs' : list Cell) : Prop :=
  tally everyCell cs' = tally everyCell cs + Z.of_nat r ∧
  tally c_perfect cs' = tally c_perfect cs + Z.of_nat p ∧
  tally failed cs' = tally failed cs + Z.of_nat f.

(** How many more cells of [cs'] than of [cs] are revealed and pass the
    test [P]. *)
Definition newly (P : Cell → bool) (cs cs' : list Cell) : nat :=
  Z.to_nat (tally P cs' - tally P cs).

(** The value under the storage key of the page: the array of the last
    [saveRevealed], or what was there when the page was loaded. *)
Definition storedNow (stored : option (list nat)) (g : GradesPage) : option (list nat) :=
  match revealedWrites g with
  | [] => stored
  | arr :: _ => Some arr
  end.

(** The dashboard shows the statistics as they are: the coin badge the
    cached coins, the panel the three cached counters, and the lever, which
    comes with the badge, is not disabled while a coin is left, that is
    unless [coins <= 0] holds. *)
Definition inSync (w : World) : Prop :=
  (∀ n, slotCoins w = Some n → n = coins (_statsCache w)) ∧
  (∀ shown, panelShown w = Some shown →
     revealedCount shown = revealedCount (_statsCache w) ∧
     defeatedCount shown = defeatedCount (_statsCache w) ∧
     failCount shown = failCount (_statsCache w)) ∧
  (leverDisabled w = Some true → PrimFloat.leb (coins (_statsCache w)) 0 = true) ∧
  (is_Some (leverDisabled w) → is_Some (slotCoins w)).

(** [w'] is a later world of [w]: the same clock and calendar, no reading
    given back, and the same elements in the page. *)
Definition later (w w' : World) : Prop :=
  clock w' = clock w ∧ localDate w' = localDate w ∧ (ticks w ≤ ticks w')%nat ∧
  (is_Some (panelShown w') ↔ is_Some (panelShown w)) ∧
  (is_Some (slotCoins w') ↔ is_Some (slotCoins w)) ∧
  (is_Some (leverDisabled w') ↔ is_Some (leverDisabled w)).

(** The free spin of the day is taken: [lastFreeSpin] is set, and every
    reading that the clock has still to give falls on its local date. *)
Definition freeSpinTaken (w : World) : Prop :=
  lastFreeSpin (_statsCache w) ≠ 0 ∧
  ∀ n, (ticks w ≤ n)%nat →
       localDate w (clock w n) = localDate w (lastFreeSpin (_statsCache w)).

(** The events of a visit: grade pages and the dashboard share the
    statistics. *)
Inductive Event := OnGrades (e : GradeEvent) | OnSlot (e : SlotEvent).

Definition handleEvent (c : GradesPage * Slot * World) (e : Event)
    : GradesPage * Slot * World :=
  match e with
  | OnGrades e => let r := gradeHandle (c.1.1, c.2) e in (r.1, c.1.2, r.2)
  | OnSlot e => let r := slotHandle (c.1.2, c.2) e in (c.1.1, r.1, r.2)
  end.

(** ** Concrete worlds *)

(** A clock that advances by one second at every reading, and a calendar
    that tells days apart by their number. *)
Definition sampleWorld (stats : GradeStatistics) : World :=
  {| _statsCache := stats; statsWrites := [];
     clock := λ n, 1700000000000 + 1000 * Z.of_nat n; ticks := 0;
     localDate := λ t, (2023, 10, t / 86400000);
     panelShown := Some stats; slotCoins := Some (coins stats);
     leverDisabled := Some false |}.

Definition sampleRows : list Cell :=
  [ {| c_revealed := false; c_perfect := true; c_zero := false;
       c_name := "Kolokwium 1"; c_value := "10"; c_max := Some "10" |};
    {| c_revealed := false; c_perfect := false; c_zero := true;
       c_name := "Kolokwium 2"; c_value := "0"; c_max := Some "10" |};
    {| c_revealed := false; c_perfect := false; c_zero := false;
       c_name := "Egzamin"; c_value := "7.5"; c_max := None |} ].

(** The grades page with the third grade revealed on an earlier visit. *)
Definition sampleGrades : GradesPage * World :=
  setupHiddenGrades sampleRows "Analiza" "https://usos.edu.pl/oceny?wez_id=7"
    (Some [2%nat]) (sampleWorld EMPTY_STATS).

Definition idleSlot : Slot :=
  {| spinning := false; results := (None, None, None); resultEl := Blank |}.

(** The dashboard late on a day on which the free spin was taken, with two
    coins left: the clock gives a thousand more readings a millisecond
    apart and then stands still. *)
Definition eveningStats : GradeStatistics :=
  {| defeatedCount := 1%float; failCount := 0%float; revealedCount := 2%float;
     totalGrades := 3%float; lastUpdated := 1700000000000; defeatedEntries := [];
     failEntries := []; coins := 2%float; lastFreeSpin := 1700000000000 |}.

Definition eveningWorld : World :=
  {| _statsCache := eveningStats; statsWrites := [];
     clock := λ n, 1700000000000 + Z.min (Z.of_nat n) 1000; ticks := 0;
     localDate := λ t, (2023, 10, t / 86400000);
     panelShown := Some eveningStats; slotCoins := Some 2%float;
     leverDisabled := Some false |}.

(** Statistics with half a coin, as storage may hold them, on a day on
    which the free spin is taken. *)
Definition halfCoinStats : GradeStatistics :=
  {| defeatedCount := 1%float; failCount := 0%float; revealedCount := 2%float;
     totalGrades := 3%float; lastUpdated := 1700000000000; defeatedEntries := [];
     failEntries := []; coins := 0.5%float; lastFreeSpin := 1700000000000 |}.

Definition halfCoinWorld : World :=
  {| _statsCache := halfCoinStats; statsWrites := [];
     clock := λ n, 1700000000000 + Z.min (Z.of_nat n) 1000; ticks := 0;
     localDate := λ t, (2023, 10, t / 86400000);
     panelShown := Some halfCoinStats; slotCoins := Some 0.5%float;
     leverDisabled := Some false |}.

(** Statistics whose counter of revealed grades is 2^53. *)
Definition fullStats : GradeStatistics :=
  {| defeatedCount := 0%float; failCount := 0%float;
     revealedCount := 9007199254740992%float;
     totalGrades := 3%float; lastUpdated := 0; defeatedEntries := [];
     failEntries := []; coins := 0%float; lastFreeSpin := 0 |}.

(** ** Semester lists: [collapseFlatSemesters] *)

(** A child of the list [parentUl] of the host page: an [li], with the
    trimmed text of its first [span.note] (the empty string when there is
    none), or another element. An element is identified by its position
    among the children. *)
Inductive HostChild := HostLi (code : string) | HostOther.

Record Li := {
  li_key : nat;
  li_code : string;
}.

#[global] Instance Li_eq_dec : EqDecision Li.
Proof. solve_decision. Defined.

(** [parentUl.querySelectorAll(":scope > li")] *)
Definition liChildren (children : list HostChild) : list Li :=
  omap id (imap (λ k c, match c with
                        | HostLi code => Some {| li_key := k; li_code := code |}
                        | HostOther => None
                        end) children).

Record Group := {
  g_code : string;
  g_items : list Li;
}.

(** One turn of the grouping loop; the second component is [currentCode]. *)
Definition pushItem (acc : list Group * string) (li : Li) : list Group * string :=
  if bool_decide (li_code li ≠ acc.2) || bool_decide (acc.1 = []) then
    (acc.1 ++ [{| g_code := li_code li; g_items := [li] |}], li_code li)
  else
    (alter (λ g, {| g_code := g_code g; g_items := g_items g ++ [li] |})
           (length acc.1 - 1)%nat acc.1,
     acc.2).

Definition groupItems (items : list Li) : list Group :=
  (foldl pushItem ([], "") items).1.

(** A child of [parentUl] after the function has run: an [li] of the host
    page, another element of the host page, or a [li.bu-semester-group]
    with the label of its toggle, the class [bu-collapsed] of its inner
    list, and the items moved into that list. *)
Inductive UlChild :=
  | Plain (li : Li)
  | Other (k : nat)
  | SemesterGroup (label : string) (collapsed : bool) (items : list Li).

#[global] Instance UlChild_eq_dec : EqDecision UlChild.
Proof. solve_decision. Defined.

Definition hostChildren (children : list HostChild) : list UlChild :=
  imap (λ k c, match c with
               | HostLi code => Plain {| li_key := k; li_code := code |}
               | HostOther => Other k
               end) children.

(** [/^(\d{4})([ZL])$/i] matches a code of four decimal digits followed by
    one of the letters Z and L, in either case; [parseInt] of the digits. *)
Definition isDigit (a : ascii) : bool :=
  (48 <=? nat_of_ascii a)%nat && (nat_of_ascii a <=? 57)%nat.

Definition digitValue (a : ascii) : Z := Z.of_nat (nat_of_ascii a) - 48.

Definition codeToLabel (code : string) : string :=
  match code with
  | String a (String b (String c (String d (String season EmptyString)))) =>
      if isDigit a && isDigit b && isDigit c && isDigit d &&
         bool_decide (season ∈ ["Z"; "z"; "L"; "l"]%char)
      then
        let year := 1000 * digitValue a + 100 * digitValue b + 10 * digitValue c +
                    digitValue d in
        if bool_decide (season ∈ ["Z"; "z"]%char)
        then "Semestr zimowy " +:+ pretty year +:+ "/" +:+ pretty (year + 1)
        else "Semestr letni " +:+ pretty (year - 1) +:+ "/" +:+ pretty year
      else code
  | EmptyString => "Inny semestr"
  | _ => code
  end.

(** One turn of the wrapping loop, for group [i]: its items are moved into
    the inner list, and the wrapper goes in front of the first child. *)
Definition wrapGroup (cs : list UlChild) (ig : nat * Group) : list UlChild :=
  SemesterGroup (codeToLabel (g_code ig.2)) (bool_decide (0 < ig.1)%nat) (g_items ig.2)
    :: filter (λ c, c ∉ (Plain <$> g_items ig.2)) cs.

(** [collapseFlatSemesters]; the wrapping loop runs from the last group to
    the first. *)
Definition collapseFlatSemesters (children : list HostChild) : list UlChild :=
  let items := liChildren children in
  match items with
  | [] => hostChildren children
  | _ =>
      let groups := groupItems items in
      if bool_decide (length groups ≤ 1)%nat then hostChildren children
      else foldl wrapGroup (hostChildren children)
                 (reverse (imap (λ i g, (i, g)) groups))
  end.

(** An element of the host page that is not an [li]. *)
Definition isOther (c : UlChild) : bool :=
  match c with
  | Other _ => true
  | _ => false
  end.

(** The semester code of year [y] (four digits) and a season letter. *)
Definition semesterCode (y : Z) (season : ascii) : string :=
  String (ascii_of_nat (48 + Z.to_nat (y / 1000)))
    (String (ascii_of_nat (48 + Z.to_nat (y / 100 mod 10)))
       (String (ascii_of_nat (48 + Z.to_nat (y / 10 mod 10)))
          (String (ascii_of_nat (48 + Z.to_nat (y mod 10)))
             (String season EmptyString)))).

(** The list of tests of a student, as the host page gives it: two tests
    of the winter term, one of the summer term before, a heading that is
    not an [li], and one more test of the winter term. *)
Definition sampleTests : list HostChild :=
  [HostLi "2025Z"; HostLi "2025Z"; HostLi "2025L"; HostOther; HostLi "2025Z"].

(** ** Theme: [applyPalette] and [applySettings] *)

(** A palette in the order of its keys ([Object.entries]). *)
Definition LIGHT_PALETTE : list (string * string) :=
  [ ("--usos-bg", "#f8fafc");
    ("--usos-surface", "#ffffff");
    ("--usos-border", "#e2e8f0");
    ("--usos-border-subtle", "#f1f5f9");
    ("--usos-primary", "#2563eb");
    ("--usos-primary-hover", "#1d4ed8");
    ("--usos-text", "#1e293b");
    ("--usos-text-muted", "#64748b");
    ("--usos-header-gradient", "#fafbfc");
    ("--usos-border-hover", "#cbd5e1") ].

Definition DARK_PALETTE : list (string * string) :=
  [ ("--usos-bg", "#020617");
    ("--usos-surface", "#0f172a");
    ("--usos-border", "#1e293b");
    ("--usos-border-subtle", "#111827");
    ("--usos-primary", "#3b82f6");
    ("--usos-primary-hover", "#60a5fa");
    ("--usos-text", "#e2e8f0");
    ("--usos-text-muted", "#94a3b8");
    ("--usos-header-gradient", "#111827");
    ("--usos-border-hover", "#334155");
    ("--usos-shadow", "0 1px 3px rgba(0, 0, 0, 0.3)");
    ("--usos-shadow-md", "0 4px 12px rgba(0, 0, 0, 0.3)");
    ("--font-color", "#e2e8f0");
    ("--primary", "#818cf8");
    ("--on-primary", "#020617");
    ("--secondary", "#fbbf24");
    ("--secondary-variant", "#f59e0b");
    ("--background", "#0f172a");
    ("--on-background", "#e2e8f0");
    ("--background-secondary", "#1e293b");
    ("--on-background-secondary", "#cbd5e1");
    ("--grey", "#94a3b8");
    ("--border", "#334155");
    ("--ok-status", "#4ade80");
    ("--error", "#f87171");
    ("--warning", "#fbbf24");
    ("--accent-red", "#f87171");
    ("--accent-blue", "#60a5fa");
    ("--accent-green", "#34d399");
    ("--accent-violet", "#a78bfa");
    ("--font-color-reverse", "#1e293b");
    ("--background-reverse", "#e2e8f0");
    ("--bu-tt-color-1", "rgba(52, 211, 153, 0.18)");
    ("--bu-tt-color-1-border", "rgba(52, 211, 153, 0.5)");
    ("--bu-tt-color-2", "rgba(251, 191, 36, 0.18)");
    ("--bu-tt-color-2-border", "rgba(251, 191, 36, 0.5)");
    ("--bu-tt-color-3", "rgba(96, 165, 250, 0.18)");
    ("--bu-tt-color-3-border", "rgba(96, 165, 250, 0.5)");
    ("--bu-tt-color-4", "rgba(167, 139, 250, 0.18)");
    ("--bu-tt-color-4-border", "rgba(167, 139, 250, 0.5)");
    ("--bu-tt-color-5", "rgba(163, 230, 53, 0.18)");
    ("--bu-tt-color-5-border", "rgba(163, 230, 53, 0.5)");
    ("--bu-tt-color-6", "rgba(253, 224, 71, 0.18)");
    ("--bu-tt-color-6-border", "rgba(253, 224, 71, 0.5)");
    ("--bu-tt-color-7", "rgba(148, 163, 184, 0.18)");
    ("--bu-tt-color-7-border", "rgba(148, 163, 184, 0.5)");
    ("--bu-tt-color-8", "rgba(251, 113, 133, 0.18)");
    ("--bu-tt-color-8-border", "rgba(251, 113, 133, 0.5)");
    ("--bu-tt-day-bg", "transparent") ].

Inductive PaletteId := light | dark.

#[global] Instance PaletteId_eq_dec : EqDecision PaletteId.
Proof. solve_decision. Defined.

(** The parts of the page that the theme code touches: the declarations of
    the inline style of the root element, the two classes of [body], and
    the calls of [localStorage.setItem] (newest first), each with its key
    and the value before [JSON.stringify]. *)
Inductive CacheWrite :=
  | ThemeCache (id : PaletteId)
  | BannerCache (showBanner : bool)
  | EnabledCache (enabled : bool).

Record ThemeState := {
  rootStyle : gmap string string;
  darkClass : bool;          (* class [better-usos-dark] *)
  hideBannerClass : bool;    (* class [better-usos-hide-banner] *)
  cacheWrites : list CacheWrite;
}.

Definition paletteOf (id : PaletteId) : list (string * string) :=
  match id with
  | dark => DARK_PALETTE
  | light => LIGHT_PALETTE
  end.

(** [new Set([...])]: the elements in the order of their first
    occurrence. *)
Definition setOf (l : list string) : list string :=
  foldl (λ s x, if bool_decide (x ∈ s) then s else s ++ [x]) [] l.

Definition allKeys : list string := setOf (LIGHT_PALETTE.*1 ++ DARK_PALETTE.*1).

(** The first loop: [if (!(key in palette)) root.style.removeProperty(key)]. *)
Definition removeStale (palette : list (string * string)) (st : gmap string string)
    (key : string) : gmap string string :=
  if bool_decide (key ∈ palette.*1) then st else delete key st.

(** The second loop: [root.style.setProperty(key, value)]. *)
Definition setProperty (st : gmap string string) (kv : string * string)
    : gmap string string :=
  <[kv.1 := kv.2]> st.

Definition applyPalette (id : PaletteId) (t : ThemeState) : ThemeState :=
  let palette := paletteOf id in
  {| rootStyle := foldl setProperty (foldl (removeStale palette) (rootStyle t) allKeys)
                        palette;
     darkClass := bool_decide (id = dark);
     hideBannerClass := hideBannerClass t;
     cacheWrites := ThemeCache id :: cacheWrites t |}.

(** [interface BetterUsosSettings]; a theme id is any string. *)
Record BetterUsosSettings := {
  s_enabled : option bool;
  s_showBanner : option bool;
  s_themeId : option string;
}.

Definition applySettings (settings : BetterUsosSettings) (t : ThemeState) : ThemeState :=
  let showBanner := default true (s_showBanner settings) in
  let themeId := if bool_decide (s_themeId settings = Some "dark") then dark else light in
  applyPalette themeId
    {| rootStyle := rootStyle t; darkClass := darkClass t;
       hideBannerClass := negb showBanner;
       cacheWrites := EnabledCache (default true (s_enabled settings))
                        :: BannerCache showBanner :: cacheWrites t |}.

(** A page whose own inline style sets one variable of the host and one
    that the dark palette overrides. *)
Definition hostTheme : ThemeState :=
  {| rootStyle := {[ "--page-width" := "960px"; "--background" := "#ffffff" ]};
     darkClass := false; hideBannerClass := false; cacheWrites := [] |}.

(** * Properties *)

(** Closed decidable facts are settled by evaluating their decision
    procedure. *)
Ltac by_decide := apply (bool_decide_unpack _); vm_compute; exact I.

(** ** Identity resolver *)

Lemma toInt32_range (x : Z) : - 2 ^ 31 ≤ toInt32 x < 2 ^ 31.
Proof.
  unfold toInt32.
  pose proof (Z.mod_pos_bound (x + 2 ^ 31) (2 ^ 32) ltac:(lia)). lia.
Qed.

Lemma toInt32_wrap (x k : Z) : toInt32 (x + k * 2 ^ 32) = toInt32 x.
Proof.
  unfold toInt32.
  replace (x + k * 2 ^ 32 + 2 ^ 31) with (x + 2 ^ 31 + k * 2 ^ 32) by lia.
  by rewrite Z_mod_plus_full.
Qed.

Lemma toInt32_decomp (x : Z) : ∃ k, toInt32 x = x + k * 2 ^ 32.
Proof.
  exists (- ((x + 2 ^ 31) `div` 2 ^ 32)). unfold toInt32.
  pose proof (Z_div_mod_eq_full (x + 2 ^ 31) (2 ^ 32)). lia.
Qed.

Lemma toInt32_id (x : Z) : - 2 ^ 31 ≤ x < 2 ^ 31 → toInt32 x = x.
Proof.
  intros Hx. unfold toInt32. rewrite Z.mod_small; lia.
Qed.

(** The shift-and-subtract of the loop body is multiplication by 31,
    modulo 2^32. *)
Lemma hashStep_rolling (hash c : Z) : hashStep hash c = toInt32 (31 * hash + c).
Proof.
  unfold hashStep, shl.
  change (Z.land 5 31) with 5. rewrite Z.shiftl_mul_pow2 by lia.
  destruct (toInt32_decomp hash) as [k ->].
  destruct (toInt32_decomp ((hash + k * 2 ^ 32) * 2 ^ 5)) as [k' ->].
  replace ((hash + k * 2 ^ 32) * 2 ^ 5 + k' * 2 ^ 32 - hash + c)
    with (31 * hash + c + (k * 2 ^ 5 + k') * 2 ^ 32) by lia.
  apply toInt32_wrap.
Qed.

Lemma hashHref_snoc (href : list Z) (c : Z) :
  hashHref (href ++ [c]) = hashStep (hashHref href) c.
Proof. unfold hashHref. by rewrite foldl_snoc. Qed.

Lemma hashHref_range (href : list Z) : - 2 ^ 31 ≤ hashHref href < 2 ^ 31.
Proof.
  induction href as [|c href _] using rev_ind.
  - cbn. lia.
  - rewrite hashHref_snoc. apply toInt32_range.
Qed.

(** More fuel than the binary length of [n] does not change the numeral. *)
Lemma toString36_go_fuel (fuel : nat) :
  ∀ (fuel' : nat) (n : Z) (acc : string),
    0 ≤ n < 2 ^ Z.of_nat (S fuel) → (fuel ≤ fuel')%nat →
    toString36_go (S fuel') n acc = toString36_go (S fuel) n acc.
Proof.
  induction fuel as [|fuel IH]; intros fuel' n acc Hn Hle.
  - cbn [toString36_go].
    assert (n / 36 = 0) as -> by (apply Z.div_small; lia). done.
  - destruct fuel' as [|fuel']; [lia|].
    cbn [toString36_go]. destruct (n / 36 =? 0) eqn:E; [done|].
    apply IH; [|lia].
    split; [apply Z.div_pos; lia|].
    apply Z.div_lt_upper_bound; [lia|].
    rewrite (Nat2Z.inj_succ (S fuel)), Z.pow_succ_r in Hn by lia. lia.
Qed.

Lemma toString36_enough (n : Z) : 0 ≤ n → n < 2 ^ Z.of_nat (S (Z.to_nat (Z.log2 n))).
Proof.
  intros Hn. rewrite Nat2Z.inj_succ, Z2Nat.id by apply Z.log2_nonneg.
  destruct (decide (n = 0)) as [->|Hne]; [done|].
  apply Z.log2_spec. lia.
Qed.

Lemma string_app_assoc (s1 s2 s3 : string) :
  ((s1 +:+ s2) +:+ s3 = s1 +:+ (s2 +:+ s3))%string.
Proof.
  induction s1 as [|a s1 IH]; [done|].
  change (String a ((s1 +:+ s2) +:+ s3) = String a (s1 +:+ (s2 +:+ s3)))%string.
  by rewrite IH.
Qed.

Lemma toString36_go_acc (fuel : nat) :
  ∀ (n : Z) (acc : string),
    toString36_go fuel n acc = (toString36_go fuel n "" +:+ acc)%string.
Proof.
  induction fuel as [|fuel IH]; intros n acc; [done|].
  cbn [toString36_go]. destruct (n / 36 =? 0); [done|].
  rewrite IH, (IH _ (String _ "")).
  by rewrite string_app_assoc.
Qed.

(** The numeral of [n] is the numeral of [n / 36] followed by the digit of
    [n mod 36]. *)
Lemma toString36_unfold (n : Z) :
  0 ≤ n →
  toString36 n =
    if n / 36 =? 0 then String (digit36 (n mod 36)) ""
    else (toString36 (n / 36) +:+ String (digit36 (n mod 36)) "")%string.
Proof.
  intros Hn. unfold toString36 at 1. cbn [toString36_go].
  destruct (n / 36 =? 0) eqn:E; [done|].
  apply Z.eqb_neq in E.
  assert (Hq : 0 ≤ n / 36) by (apply Z.div_pos; lia).
  rewrite toString36_go_acc. f_equal.
  assert (Hlog : (Z.to_nat (Z.log2 (n / 36)) < Z.to_nat (Z.log2 n))%nat).
  { assert (Z.log2 (n / 36) < Z.log2 n); [|pose proof (Z.log2_nonneg (n / 36)); lia].
    assert (0 < n / 36) by lia.
    assert (2 * (n / 36) ≤ n).
    { pose proof (Z.mul_div_le n 36 ltac:(lia)). lia. }
    apply Z.lt_le_trans with (Z.log2 (2 * (n / 36))).
    - rewrite Z.log2_double by lia. lia.
    - apply Z.log2_le_mono. lia. }
  destruct (Z.to_nat (Z.log2 n)) as [|fuel'] eqn:Hf; [lia|].
  unfold toString36.
  apply toString36_go_fuel; [|lia].
  split; [done|]. by apply toString36_enough.
Qed.

Lemma getFrameId_native (frame : Frame) :
  f_id frame ≠ "" → getFrameId frame = f_id frame.
Proof. intros H. unfold getFrameId. by rewrite bool_decide_eq_false_2. Qed.

Lemma getFrameId_hashed (frame : Frame) :
  f_id frame = "" →
  getFrameId frame = "bu-" +:+ toString36 (Z.abs (hashHref (titleHref frame))).
Proof. intros H. unfold getFrameId. by rewrite bool_decide_eq_true_2. Qed.

Lemma getFrameId_nonempty (frame : Frame) : getFrameId frame ≠ "".
Proof.
  unfold getFrameId. case_bool_decide; [discriminate | done].
Qed.

(** Writing the id back does not change what [getFrameId] returns, so the
    later calls on the same element agree with the first one. *)
Lemma getFrameId_assignId (frame : Frame) :
  getFrameId (assignId frame) = getFrameId frame.
Proof.
  unfold assignId. case_bool_decide as H; [|done].
  rewrite getFrameId_native; [done | apply getFrameId_nonempty].
Qed.

(** The loop of [getFrameId] computes the rolling hash of the
    specification. *)
Lemma hashHref_rollingHash32 (href : list Z) : hashHref href = rollingHash32 href.
Proof.
  induction href as [|c href IH] using rev_ind; [done|].
  rewrite hashHref_snoc, hashStep_rolling, IH.
  unfold rollingHash32. rewrite foldl_snoc. reflexivity.
Qed.

Lemma digitValue36_digit36 (d : Z) : 0 ≤ d < 36 → digitValue36 (digit36 d) = Some d.
Proof.
  intros Hd. unfold digitValue36, digit36. destruct (d <? 10) eqn:E.
  - apply Z.ltb_lt in E. rewrite nat_ascii_embedding by lia.
    rewrite bool_decide_eq_true_2 by lia. f_equal. lia.
  - apply Z.ltb_ge in E. rewrite nat_ascii_embedding by lia.
    rewrite bool_decide_eq_false_2 by lia.
    rewrite bool_decide_eq_true_2 by lia. f_equal. lia.
Qed.

Lemma parse36_go_snoc (s : string) (c : ascii) (acc : Z) :
  parse36_go acc (s +:+ String c "") =
    match parse36_go acc s, digitValue36 c with
    | Some v, Some d => Some (36 * v + d)
    | _, _ => None
    end.
Proof.
  revert acc. induction s as [|a s IH]; intros acc.
  - change ("" +:+ String c "") with (String c ""). cbn [parse36_go].
    by destruct (digitValue36 c).
  - change (String a s +:+ String c "") with (String a (s +:+ String c "")).
    cbn [parse36_go]. destruct (digitValue36 a); [apply IH|done].
Qed.

(** The numeral that [toString(36)] gives reads back as the number. *)
Lemma parse36_go_toString36 (n : Z) : 0 ≤ n → parse36_go 0 (toString36 n) = Some n.
Proof.
  revert n. apply (Zlt_0_ind (λ n, parse36_go 0 (toString36 n) = Some n)).
  intros n IH Hn. rewrite toString36_unfold by done.
  pose proof (Z.mod_pos_bound n 36 ltac:(lia)) as Hm.
  pose proof (Z_div_mod_eq_full n 36) as Hdm.
  destruct (n / 36 =? 0) eqn:E.
  - apply Z.eqb_eq in E. cbn [parse36_go].
    rewrite digitValue36_digit36 by done. f_equal. lia.
  - apply Z.eqb_neq in E.
    assert (Hq : 0 ≤ n / 36) by (apply Z.div_pos; lia).
    rewrite parse36_go_snoc, IH, digitValue36_digit36 by (done || lia).
    f_equal. lia.
Qed.

Lemma toString36_nonempty (n : Z) : 0 ≤ n → toString36 n ≠ "".
Proof.
  intros Hn. rewrite toString36_unfold by done.
  destruct (n / 36 =? 0); [done|].
  destruct (toString36 (n / 36)); discriminate.
Qed.

Lemma parse36_toString36 (n : Z) : 0 ≤ n → parse36 (toString36 n) = Some n.
Proof.
  intros Hn. pose proof (toString36_nonempty n Hn) as Hne.
  pose proof (parse36_go_toString36 n Hn) as Hp.
  unfold parse36. by destruct (toString36 n).
Qed.

(** C5. Identity resolution: an element with a native (non-empty) id
    resolves to that id unchanged. An element without one resolves to the
    prefix [bu-] followed by the base-36 numeral of the absolute value of
    the 32-bit rolling hash of its link target, which is the [href] of its
    title link, or the empty string when there is no link or no [href]; the
    hash is in the signed 32-bit range and the numeral reads back as its
    absolute value. Hence two elements with the same native id, or without
    native id and with the same link target, resolve to the same id,
    whatever the display text of the link. *)
Theorem getFrameId_resolution (frame : Frame) :
  (f_id frame ≠ "" → getFrameId frame = f_id frame) ∧
  (f_id frame = "" →
     getFrameId frame =
       "bu-" +:+ toString36
                   (Z.abs (rollingHash32 (default [] (f_titleLink frame ≫= l_href)))) ∧
     - 2 ^ 31 ≤ rollingHash32 (default [] (f_titleLink frame ≫= l_href)) < 2 ^ 31 ∧
     parse36 (toString36
                (Z.abs (rollingHash32 (default [] (f_titleLink frame ≫= l_href))))) =
       Some (Z.abs (rollingHash32 (default [] (f_titleLink frame ≫= l_href))))) ∧
  (∀ frame', f_id frame' = f_id frame →
     f_id frame ≠ "" ∨
     default [] (f_titleLink frame' ≫= l_href) =
       default [] (f_titleLink frame ≫= l_href) →
     getFrameId frame' = getFrameId frame) ∧
  (∀ text, getFrameId (withTitleText text frame) = getFrameId frame).
Proof.
  assert (Htarget : ∀ f, titleHref f = default [] (f_titleLink f ≫= l_href)).
  { intros f. unfold titleHref. by destruct (f_titleLink f). }
  split; [|split; [|split]].
  - apply getFrameId_native.
  - intros Hid. rewrite <- Htarget, <- hashHref_rollingHash32.
    split; [by apply getFrameId_hashed|]. split; [apply hashHref_range|].
    apply parse36_toString36. lia.
  - intros frame' Hid Hsame. unfold getFrameId. rewrite Hid.
    case_bool_decide as He; [|done].
    destruct Hsame as [Hne | Heq]; [by destruct Hne|].
    by rewrite !Htarget, Heq.
  - intros text. unfold getFrameId, titleHref, withTitleText. cbn.
    by destruct (f_titleLink frame).
Qed.

Lemma getFrameId_resolution_witness :
  getFrameId statsPanel = "bu-stats-frame" ∧
  getFrameId (kontrolerFrame "Moje grupy") = "bu-gqezrm" ∧
  rollingHash32 (codeUnits "kontroler.php?_action=home/grupy") = -1011828370 ∧
  getFrameId (kontrolerFrame "My groups") = "bu-gqezrm".
Proof.
  pose proof (getFrameId_resolution (kontrolerFrame "Moje grupy"))
    as (_ & Hhashed & Hsame & _).
  destruct (Hhashed eq_refl) as (Hid & _ & _).
  assert (Hpl : getFrameId (kontrolerFrame "Moje grupy") = "bu-gqezrm").
  { etrans; [exact Hid|]. vm_compute. reflexivity. }
  split_and!.
  - apply (proj1 (getFrameId_resolution statsPanel)). discriminate.
  - exact Hpl.
  - vm_compute. reflexivity.
  - rewrite <- Hpl. apply Hsame; [reflexivity|]. right. reflexivity.
Defined.

Example getFrameId_empty_href :
  getFrameId {| f_id := ""; f_titleLink := None; f_hiddenCard := false;
                f_dragging := false; f_buSpan := None |} = "bu-0".
Proof. reflexivity. Qed.

Example getFrameId_href_a :
  getFrameId {| f_id := ""; f_titleLink := Some {| l_href := Some [97]; l_text := "A" |};
                f_hiddenCard := false; f_dragging := false; f_buSpan := None |} = "bu-2p".
Proof. reflexivity. Qed.

(** ** Width classes *)

Lemma getSpan_valid (state : option DashboardState) (id : string) :
  getSpan state id ∈ SPAN_OPTIONS.
Proof.
  unfold getSpan.
  assert (Hd : (if bool_decide (id = "bu-stats-frame") then 6 else 3) ∈ SPAN_OPTIONS).
  { case_bool_decide; by_decide. }
  destruct (savedSpans state !! id) as [s|]; [|done].
  destruct (bool_decide (s ≠ 0) && bool_decide (s ∈ SPAN_OPTIONS)) eqn:E; [|done].
  apply andb_true_iff in E as [_ E]. by apply bool_decide_eq_true in E.
Qed.

(** C6. Width-class resolution: a stored span that is one of 2, 3, 4, 6
    (1/3, 1/2, 2/3, full row) is the resolved width; with no stored span,
    or one outside the four values, the id [bu-stats-frame] of the
    statistics panel resolves to 6 (full row) and any other id to 3 (half
    row). *)
Theorem getSpan_resolution (state : option DashboardState) (id : string) :
  SPAN_OPTIONS = [2; 3; 4; 6] ∧
  (∀ s, savedSpans state !! id = Some s → s ∈ SPAN_OPTIONS → getSpan state id = s) ∧
  (savedSpans state !! id = None ∨
   (∃ s, savedSpans state !! id = Some s ∧ s ∉ SPAN_OPTIONS) →
     (id = "bu-stats-frame" → getSpan state id = 6) ∧
     (id ≠ "bu-stats-frame" → getSpan state id = 3)).
Proof.
  split_and!; [done | |].
  - intros s Hs Hin. unfold getSpan. rewrite Hs.
    rewrite (bool_decide_eq_true_2 (s ∈ SPAN_OPTIONS)) by done.
    rewrite bool_decide_eq_true_2; [done|].
    intros ->. revert Hin. by_decide.
  - intros Hno. unfold getSpan.
    destruct Hno as [-> | (s & -> & Hout)].
    + split; intros Hid; [by rewrite bool_decide_eq_true_2 | by rewrite bool_decide_eq_false_2].
    + rewrite (bool_decide_eq_false_2 (s ∈ SPAN_OPTIONS)) by done.
      rewrite andb_false_r.
      split; intros Hid; [by rewrite bool_decide_eq_true_2 | by rewrite bool_decide_eq_false_2].
Qed.

Lemma getSpan_resolution_witness :
  getSpan spansSample "a" = 4 ∧
  getSpan spansSample "b" = 3 ∧
  getSpan spansSample "bu-stats-frame" = 6.
Proof.
  split_and!.
  - apply (proj1 (proj2 (getSpan_resolution spansSample "a")) 4).
    + reflexivity.
    + by_decide.
  - apply (proj2 (proj2 (getSpan_resolution spansSample "b"))).
    + right. exists 5. split; [reflexivity | by_decide].
    + discriminate.
  - apply (proj2 (proj2 (getSpan_resolution spansSample "bu-stats-frame"))).
    + left. reflexivity.
    + reflexivity.
Defined.

(** ** Messages of the popup *)

Lemma snapshot_toggleEditMode (s : Session) : snapshot (toggleEditMode s) = snapshot s.
Proof. reflexivity. Qed.

(** C7. Edit-mode toggle contract: [GET_DASHBOARD_EDIT_STATE] answers
    [{hasDashboard, active}] (whether [dashboardEditState] is set, and the
    class [bu-edit-mode] when it is) and leaves the page as it was. Once
    the dashboard is set up, [TOGGLE_DASHBOARD_EDIT] flips the edit mode,
    touches nothing else of the grid and answers [{active}] with the new
    mode; leaving edit mode calls [saveDashboardState] exactly once, with
    the snapshot of the current grid, and entering it saves nothing. *)
Theorem onMessage_edit_contract (p : Page) :
  (onMessage GET_DASHBOARD_EDIT_STATE p =
     (p, match dashboardEditState p with
         | Some s => EditState true (editMode s)
         | None => EditState false false
         end)) ∧
  (∀ s, dashboardEditState p = Some s →
     let p' := (onMessage TOGGLE_DASHBOARD_EDIT p).1 in
     (onMessage TOGGLE_DASHBOARD_EDIT p).2 = Active (negb (editMode s)) ∧
     (∃ s', dashboardEditState p' = Some s' ∧
            editMode s' = negb (editMode s) ∧
            frames s' = frames s ∧ wrapper s' = wrapper s ∧ dragged s' = dragged s) ∧
     (editMode s = true →
        storageWrites (store p') = snapshot s :: storageWrites (store p) ∧
        _dashboardCache (store p') = Some (snapshot s)) ∧
     (editMode s = false → store p' = store p)).
Proof.
  split.
  - unfold onMessage. by destruct (dashboardEditState p).
  - intros s Hs. unfold onMessage. rewrite Hs. cbn.
    split; [done|]. split; [by eexists|].
    split; intros ->; done.
Qed.

Lemma onMessage_edit_contract_witness :
  (onMessage TOGGLE_DASHBOARD_EDIT editingPage).2 = Active false ∧
  length (storageWrites (store (onMessage TOGGLE_DASHBOARD_EDIT editingPage).1)) = 1%nat ∧
  store (onMessage TOGGLE_DASHBOARD_EDIT
           (pageLoad [plainFrame "a"; plainFrame "b"] emptyStore)).1 = emptyStore.
Proof.
  destruct (proj2 (onMessage_edit_contract editingPage)
              (toggleEditMode
                 (setupDashboard [statsPanel; slotPanel; plainFrame "a"; plainFrame "b"]
                    emptyStore))
              eq_refl) as (Hr & _ & Hsave & _).
  destruct (proj2 (onMessage_edit_contract
                     (pageLoad [plainFrame "a"; plainFrame "b"] emptyStore))
              (setupDashboard [statsPanel; slotPanel; plainFrame "a"; plainFrame "b"]
                 emptyStore)
              eq_refl) as (_ & _ & _ & Hkeep).
  split_and!.
  - exact Hr.
  - destruct (Hsave eq_refl) as [-> _]. reflexivity.
  - apply Hkeep. reflexivity.
Defined.

(** C10. Toggle before initialization: while [dashboardEditState] is not
    set, [TOGGLE_DASHBOARD_EDIT] answers [{active: false}] and changes
    nothing (no session appears, nothing is saved), and a following
    [GET_DASHBOARD_EDIT_STATE] answers [{hasDashboard: false, active:
    false}]. A page without [usos-frame] is in that situation. *)
Theorem toggle_before_initialization (p : Page) :
  dashboardEditState p = None →
  onMessage TOGGLE_DASHBOARD_EDIT p = (p, Active false) ∧
  onMessage GET_DASHBOARD_EDIT_STATE (onMessage TOGGLE_DASHBOARD_EDIT p).1 =
    (p, EditState false false).
Proof.
  intros Hp. unfold onMessage. rewrite Hp. cbn. by rewrite Hp.
Qed.

Lemma pageLoad_no_frames (σ : Store) : dashboardEditState (pageLoad [] σ) = None.
Proof. reflexivity. Qed.

Lemma toggle_before_initialization_witness :
  onMessage TOGGLE_DASHBOARD_EDIT (pageLoad [] emptyStore) =
    (pageLoad [] emptyStore, Active false) ∧
  onMessage GET_DASHBOARD_EDIT_STATE
      (onMessage TOGGLE_DASHBOARD_EDIT (pageLoad [] emptyStore)).1 =
    (pageLoad [] emptyStore, EditState false false).
Proof.
  apply (toggle_before_initialization (pageLoad [] emptyStore)).
  apply pageLoad_no_frames.
Defined.

(** ** Drag and drop *)

Lemma idle_markerOnDragged (s : Session) : idle s → markerOnDragged s.
Proof.
  intros [_ Hno] k f Hk Hf. rewrite (Hno k f Hk) in Hf. discriminate.
Qed.

Lemma onDragStart_markerOnDragged (k : nat) (s : Session) :
  idle s → markerOnDragged (onDragStart k s).
Proof.
  intros Hidle. unfold onDragStart. destruct (editMode s).
  - intros j f Hj Hf. cbn in *.
    destruct (decide (j = k)) as [->|Hne]; [done|].
    rewrite list_lookup_alter_ne in Hj by done.
    destruct Hidle as [_ Hno]. rewrite (Hno j f Hj) in Hf. discriminate.
  - by apply idle_markerOnDragged.
Qed.

Lemma onDragOver_frames (target : option nat) (above : bool) (s : Session) :
  frames (onDragOver target above s) = frames s ∧
  dragged (onDragOver target above s) = dragged s ∧
  editMode (onDragOver target above s) = editMode s.
Proof.
  unfold onDragOver.
  repeat (case_match; try done).
Qed.

Lemma dispatch_markerOnDragged (c : Session * Store) (e : DragEvent) :
  isDragStart e = false → markerOnDragged c.1 → markerOnDragged (dispatch c e).1.
Proof.
  intros Hns Hinv. destruct e as [k | target above | |]; cbn.
  - discriminate.
  - destruct (onDragOver_frames target above c.1) as (Hf & Hd & _).
    unfold markerOnDragged. rewrite Hf, Hd. exact Hinv.
  - exact Hinv.
  - intros j f Hj Hf. cbn in *. exfalso.
    destruct (dragged c.1) as [d|] eqn:Hd.
    + destruct (decide (j = d)) as [->|Hne].
      * rewrite list_lookup_alter_eq in Hj.
        destruct (frames c.1 !! d); simplify_eq/=.
      * rewrite list_lookup_alter_ne in Hj by done.
        specialize (Hinv j f Hj Hf). congruence.
    + specialize (Hinv j f Hj Hf). congruence.
Qed.

Lemma dispatchAll_markerOnDragged (es : list DragEvent) (c : Session * Store) :
  Forall (λ e, isDragStart e = false) es →
  markerOnDragged c.1 → markerOnDragged (dispatchAll c es).1.
Proof.
  unfold dispatchAll. revert c.
  induction es as [|e es IH]; intros c Hes Hinv; [done|].
  inversion Hes; subst. cbn. apply IH; [done|].
  by apply dispatch_markerOnDragged.
Qed.

Lemma onDragEnd_idle (s : Session) : markerOnDragged s → idle (onDragEnd s).
Proof.
  intros Hinv. split; [done|].
  intros j f Hj. cbn in Hj.
  destruct (f_dragging f) eqn:Hf; [exfalso | done].
  destruct (dragged s) as [d|] eqn:Hd.
  - destruct (decide (j = d)) as [->|Hne].
    + rewrite list_lookup_alter_eq in Hj.
      destruct (frames s !! d); simplify_eq/=.
    + rewrite list_lookup_alter_ne in Hj by done.
      specialize (Hinv j f Hj Hf). congruence.
  - specialize (Hinv j f Hj Hf). congruence.
Qed.

(** One gesture: a drag-start, events that are not drag-starts, a
    drag-end. *)
Lemma gesture_idle (s : Session) (σ : Store) (k : nat) (mids : list DragEvent) :
  idle s →
  Forall (λ e, isDragStart e = false) mids →
  idle (dispatchAll (s, σ) (DragStart k :: mids ++ [DragEnd])).1.
Proof.
  intros Hidle Hmids. unfold dispatchAll. cbn.
  rewrite foldl_snoc. cbn. apply onDragEnd_idle.
  apply (dispatchAll_markerOnDragged mids (onDragStart k s, σ)); [done|].
  by apply onDragStart_markerOnDragged.
Qed.

(** Any number of gestures, one after the other, leave the grid idle. *)
Lemma gestures_idle (gs : list (nat * list DragEvent)) :
  ∀ c : Session * Store,
    idle c.1 →
    Forall (λ g, Forall (λ e, isDragStart e = false) g.2) gs →
    idle (dispatchAll c (gs ≫= λ g, DragStart g.1 :: g.2 ++ [DragEnd])).1.
Proof.
  induction gs as [|[k mids] gs IH]; intros c Hidle Hgs; [done|].
  inversion Hgs as [|? ? Hmids Hrest]; subst.
  rewrite bind_cons. unfold dispatchAll. rewrite foldl_app.
  apply IH; [|done]. destruct c as [s σ].
  by apply gesture_idle.
Qed.

(** C9. Drag-session cleanup: from an idle grid, a drag-start, then any
    drag-over, drop and drag-end events, then a drag-end leave [dragged]
    null and no card with the class [bu-dragging]; [onDragEnd] sets
    [dragged] to null from any state whatever; and outside edit mode
    [onDragStart] changes nothing, so no drag session starts. *)
Theorem drag_session_cleanup (s : Session) (σ : Store) (k : nat)
    (mids : list DragEvent) :
  (idle s →
   Forall (λ e, isDragStart e = false) mids →
   idle (dispatchAll (s, σ) (DragStart k :: mids ++ [DragEnd])).1) ∧
  dragged (onDragEnd s) = None ∧
  (editMode s = false → onDragStart k s = s) ∧
  (editMode s = true → dragged (onDragStart k s) = Some k).
Proof.
  split_and!.
  - apply gesture_idle.
  - done.
  - intros He. unfold onDragStart. by rewrite He.
  - intros He. unfold onDragStart. by rewrite He.
Qed.

Lemma noMarker_Forall (s : Session) :
  noMarker s ↔ Forall (λ f, f_dragging f = false) (frames s).
Proof. unfold noMarker. by rewrite Forall_lookup. Qed.

Example editingSession_wrapper :
  wrapper editingSession = [Card 2; Card 1; Card 0; Divider; Card 3].
Proof. reflexivity. Qed.

Lemma editingSession_idle : idle editingSession.
Proof. split; [reflexivity|]. apply noMarker_Forall. by_decide. Qed.

Lemma drag_session_cleanup_witness :
  idle (dispatchAll (editingSession, storeHidingB)
          [DragStart 2; DragOver (Some 1%nat) false; Drop; DragEnd]).1 ∧
  onDragStart 2 (toggleEditMode editingSession) = toggleEditMode editingSession ∧
  dragged (onDragStart 2 editingSession) = Some 2%nat.
Proof.
  split_and!.
  - apply (proj1 (drag_session_cleanup editingSession storeHidingB 2%nat
                    [DragOver (Some 1%nat) false; Drop])).
    + split; [reflexivity|]. apply noMarker_Forall. by_decide.
    + by_decide.
  - apply (proj1 (proj2 (proj2 (drag_session_cleanup (toggleEditMode editingSession)
                                  storeHidingB 2%nat [])))).
    reflexivity.
  - apply (proj2 (proj2 (proj2 (drag_session_cleanup editingSession
                                  storeHidingB 2%nat [])))).
    reflexivity.
Defined.

Lemma dispatch_hiddenCard (c : Session * Store) (e : DragEvent) :
  f_hiddenCard <$> frames (dispatch c e).1 = f_hiddenCard <$> frames c.1.
Proof.
  destruct e as [k | target above | |]; cbn.
  - unfold onDragStart. destruct (editMode c.1); [|done]. cbn.
    apply list_eq. intros j. rewrite !list_lookup_fmap.
    destruct (decide (j = k)) as [->|Hne].
    + rewrite list_lookup_alter_eq. by destruct (frames c.1 !! k).
    + by rewrite list_lookup_alter_ne.
  - by destruct (onDragOver_frames target above c.1) as (-> & _).
  - done.
  - destruct (dragged c.1) as [d|]; [|done].
    apply list_eq. intros j. rewrite !list_lookup_fmap.
    destruct (decide (j = d)) as [->|Hne].
    + rewrite list_lookup_alter_eq. by destruct (frames c.1 !! d).
    + by rewrite list_lookup_alter_ne.
Qed.

Lemma dispatchAll_hiddenCard (es : list DragEvent) (c : Session * Store) :
  f_hiddenCard <$> frames (dispatchAll c es).1 = f_hiddenCard <$> frames c.1.
Proof.
  unfold dispatchAll. revert c.
  induction es as [|e es IH]; intros c; [done|].
  cbn. rewrite IH. apply dispatch_hiddenCard.
Qed.

Lemma onDragOver_cross_partition (s : Session) (d t : nat) (above : bool)
    (fd ft : Frame) :
  dragged s = Some d → frames s !! d = Some fd → frames s !! t = Some ft →
  f_hiddenCard fd ≠ f_hiddenCard ft →
  onDragOver (Some t) above s = s.
Proof.
  intros Hd Hfd Hft Hne. unfold onDragOver. rewrite Hd, Hfd, Hft.
  case_bool_decide; [done|]. by rewrite bool_decide_eq_true_2.
Qed.

(** C8, as the code has it. Cross-partition drag guard: a drag-over whose
    target card is in the other visibility partition than the dragged card
    changes neither the grid nor the stored state (no DOM change, nothing
    persisted); no drag event ever changes the class [bu-hidden-card] of a
    card. A drop that follows still calls [persistOrder] once: it saves
    the snapshot of the grid, which the drag-over left as it was. *)
Theorem cross_partition_guard (s : Session) (σ : Store) (d t : nat)
    (above : bool) (fd ft : Frame) :
  dragged s = Some d → frames s !! d = Some fd → frames s !! t = Some ft →
  f_hiddenCard fd ≠ f_hiddenCard ft →
  dispatch (s, σ) (DragOver (Some t) above) = (s, σ) ∧
  (∀ es, f_hiddenCard <$> frames (dispatchAll (s, σ) es).1 = f_hiddenCard <$> frames s) ∧
  (let c := dispatchAll (s, σ) [DragOver (Some t) above; Drop] in
   c.1 = s ∧
   storageWrites c.2 = snapshot s :: storageWrites σ ∧
   _dashboardCache c.2 = Some (snapshot s)).
Proof.
  intros Hd Hfd Hft Hne.
  pose proof (onDragOver_cross_partition s d t above fd ft Hd Hfd Hft Hne) as Hover.
  split; [|split].
  - unfold dispatch. cbn [fst snd]. by rewrite Hover.
  - intros es. apply (dispatchAll_hiddenCard es (s, σ)).
  - unfold dispatchAll, onDrop, persistOrder.
    cbn [foldl dispatch fst snd]. by rewrite Hover.
Qed.

Lemma cross_partition_guard_witness :
  dispatch (draggingSession, storeHidingB) (DragOver (Some 3%nat) true) =
    (draggingSession, storeHidingB).
Proof.
  refine (proj1 (cross_partition_guard draggingSession storeHidingB 2%nat 3%nat true
                   (setDragging true (applySpan 3 (plainFrame "a")))
                   (applySpan 3 (setHiddenCard true (plainFrame "b")))
                   _ _ _ _)).
  - reflexivity.
  - reflexivity.
  - reflexivity.
  - discriminate.
Defined.

(** The drop of a visible card on a hidden one does persist: dragging [a]
    (visible) over [b] (hidden) and dropping it there leaves one more call
    of [chrome.storage.local.set] than before. *)
Lemma cross_partition_drop_persists :
  let c := dispatchAll (editingSession, storeHidingB)
             [DragStart 2; DragOver (Some 3%nat) true; Drop; DragEnd] in
  f_hiddenCard <$> frames editingSession !! 2%nat = Some false ∧
  f_hiddenCard <$> frames editingSession !! 3%nat = Some true ∧
  wrapper c.1 = wrapper editingSession ∧
  storageWrites storeHidingB = [] ∧
  length (storageWrites c.2) = 1%nat ∧
  storageWrites c.2 ≠ storageWrites storeHidingB.
Proof.
  cbv zeta. split_and!; try reflexivity.
  intros H. apply (f_equal length) in H. vm_compute in H. discriminate.
Qed.

(** ** Registry *)

Lemma collect_snoc (fs : list Frame) (f : Frame) :
  collect (fs ++ [f]) = collectStep (collect fs) (length fs, f).
Proof.
  unfold collect. rewrite imap_app, foldl_app. cbn. by rewrite Nat.add_0_r.
Qed.

Lemma defaultOrder_snoc (fs : list Frame) (f : Frame) :
  defaultOrder (fs ++ [f]) = defaultOrder fs ++ [getFrameId f].
Proof. unfold defaultOrder. by rewrite collect_snoc. Qed.

Lemma idToFrame_snoc (fs : list Frame) (f : Frame) :
  idToFrame (fs ++ [f]) = <[getFrameId f := length fs]> (idToFrame fs).
Proof. unfold idToFrame. by rewrite collect_snoc. Qed.

(** [defaultOrder] lists the ids of the elements in discovery order, one
    entry per element. *)
Lemma defaultOrder_fmap (fs : list Frame) : defaultOrder fs = getFrameId <$> fs.
Proof.
  induction fs as [|f fs IH] using rev_ind; [done|].
  by rewrite defaultOrder_snoc, IH, fmap_app.
Qed.

Lemma idToFrame_is_Some (fs : list Frame) (id : string) :
  is_Some (idToFrame fs !! id) ↔ id ∈ defaultOrder fs.
Proof.
  induction fs as [|f fs IH] using rev_ind.
  - unfold idToFrame, defaultOrder. cbn. rewrite lookup_empty.
    split; [by intros [? ?] | by intros ?%elem_of_nil].
  - rewrite idToFrame_snoc, defaultOrder_snoc, lookup_insert_is_Some, elem_of_app, IH.
    rewrite list_elem_of_singleton.
    destruct (decide (getFrameId f = id)); naive_solver.
Qed.

(** The map keeps, for each id, the last element that resolves to it. *)
Lemma idToFrame_lookup (fs : list Frame) (id : string) (k : nat) :
  idToFrame fs !! id = Some k ↔
  getFrameId <$> fs !! k = Some id ∧
  ∀ j, getFrameId <$> fs !! j = Some id → (j ≤ k)%nat.
Proof.
  revert k. induction fs as [|f fs IH] using rev_ind; intros k.
  - unfold idToFrame. cbn. rewrite lookup_empty. naive_solver.
  - rewrite idToFrame_snoc.
    destruct (decide (getFrameId f = id)) as [<-|Hne].
    + rewrite lookup_insert_eq. split.
      * intros [= <-]. split.
        -- by rewrite list_lookup_middle.
        -- intros j Hj. apply fmap_Some in Hj as (g & Hg%lookup_lt_Some & _).
           rewrite length_app in Hg. cbn in Hg. lia.
      * intros [Hk Hlast]. f_equal.
        assert (length fs ≤ k)%nat.
        { apply Hlast. by rewrite list_lookup_middle. }
        apply fmap_Some in Hk as (g & Hg%lookup_lt_Some & _).
        rewrite length_app in Hg. cbn in Hg. lia.
    + rewrite lookup_insert_ne by done. rewrite IH.
      assert (Hiff : ∀ j, getFrameId <$> (fs ++ [f]) !! j = Some id ↔
                          getFrameId <$> fs !! j = Some id).
      { intros j. destruct (decide (j < length fs)%nat) as [Hlt|Hge].
        - by rewrite lookup_app_l.
        - rewrite lookup_app_r by lia. rewrite (lookup_ge_None_2 fs j) by lia.
          destruct (j - length fs)%nat; cbn; naive_solver. }
      rewrite Hiff. by setoid_rewrite Hiff.
Qed.

(** ** Reconciliation *)

Lemma foldl_unshiftNew (ds o : list string) :
  ∃ news, foldl unshiftNew o ds = news ++ o ∧ NoDup news ∧
          ∀ x, x ∈ news ↔ x ∈ ds ∧ x ∉ o.
Proof.
  revert o. induction ds as [|d ds IH]; intros o.
  - exists []. split; [done|]. split; [constructor|].
    intros x. rewrite elem_of_nil. set_solver.
  - cbn. unfold unshiftNew at 2. case_bool_decide as Hd.
    + destruct (IH o) as (news & -> & Hnd & Hin).
      exists news. split; [done|]. split; [done|].
      intros x. rewrite Hin, elem_of_cons. naive_solver.
    + destruct (IH (d :: o)) as (news & -> & Hnd & Hin).
      exists (news ++ [d]). split; [by rewrite <- app_assoc|]. split.
      * apply NoDup_app. split; [done|]. split; [|apply NoDup_singleton].
        intros x Hx ->%list_elem_of_singleton. apply Hin in Hx. set_solver.
      * intros x. rewrite elem_of_app, Hin, list_elem_of_singleton, !elem_of_cons.
        destruct (decide (x = d)); naive_solver.
Qed.

Lemma initialOrder_live (frames : list Frame) (state : option DashboardState)
    (x : string) :
  x ∈ initialOrder frames state → x ∈ defaultOrder frames.
Proof.
  destruct state as [s|]; cbn; [|done].
  rewrite list_elem_of_filter, idToFrame_is_Some. tauto.
Qed.

(** [order] is a front of new ids, each once, followed by the kept part of
    the saved order. *)
Lemma mergedOrder_split (frames : list Frame) (state : option DashboardState) :
  ∃ news, mergedOrder frames state = news ++ initialOrder frames state ∧
          NoDup news ∧
          ∀ x, x ∈ news ↔ x ∈ defaultOrder frames ∧ x ∉ initialOrder frames state.
Proof. apply foldl_unshiftNew. Qed.

Lemma elem_of_mergedOrder (frames : list Frame) (state : option DashboardState)
    (x : string) :
  x ∈ mergedOrder frames state ↔ x ∈ defaultOrder frames.
Proof.
  destruct (mergedOrder_split frames state) as (news & -> & _ & Hin).
  rewrite elem_of_app, Hin.
  pose proof (initialOrder_live frames state x).
  destruct (decide (x ∈ initialOrder frames state)); naive_solver.
Qed.

Lemma NoDup_mergedOrder (frames : list Frame) (state : option DashboardState) :
  NoDup (initialOrder frames state) → NoDup (mergedOrder frames state).
Proof.
  intros Hnd. destruct (mergedOrder_split frames state) as (news & -> & Hnews & Hin).
  apply NoDup_app. split; [done|]. split; [|done].
  intros x Hx. by apply Hin in Hx as [_ ?].
Qed.

(** With nothing saved the loop over [defaultOrder] adds nothing. *)
Lemma mergedOrder_None (frames : list Frame) :
  mergedOrder frames None = defaultOrder frames.
Proof.
  destruct (mergedOrder_split frames None) as (news & -> & _ & Hin).
  destruct news as [|x news]; [done|].
  destruct (proj1 (Hin x)) as [? Hx]; [left|]. by destruct Hx.
Qed.

Lemma NoDup_initialOrder (frames : list Frame) (state : option DashboardState) :
  NoDup (defaultOrder frames) →
  (∀ s, state = Some s → NoDup (order s)) →
  NoDup (initialOrder frames state).
Proof.
  intros Hd Hs. destruct state as [s|]; cbn; [|done].
  apply NoDup_filter. by apply Hs.
Qed.

Lemma visible_hidden_disjoint (frames : list Frame) (state : option DashboardState)
    (x : string) :
  x ∈ visibleOrder frames state → x ∈ hiddenOrder frames state → False.
Proof.
  unfold visibleOrder, hiddenOrder. rewrite !list_elem_of_filter. tauto.
Qed.

Lemma elem_of_visible_hidden (frames : list Frame) (state : option DashboardState)
    (x : string) :
  x ∈ visibleOrder frames state ++ hiddenOrder frames state ↔ x ∈ defaultOrder frames.
Proof.
  unfold visibleOrder, hiddenOrder.
  rewrite elem_of_app, !list_elem_of_filter, elem_of_mergedOrder.
  destruct (decide (x ∈ hiddenSet state)); tauto.
Qed.

Lemma visible_hidden_Permutation (frames : list Frame) (state : option DashboardState) :
  visibleOrder frames state ++ hiddenOrder frames state ≡ₚ mergedOrder frames state.
Proof.
  unfold visibleOrder, hiddenOrder.
  generalize (mergedOrder frames state). intros l.
  induction l as [|x l IH]; [done|].
  destruct (decide (x ∈ hiddenSet state)) as [Hx|Hx].
  - rewrite (filter_cons_False (λ id, id ∉ hiddenSet state)) by tauto.
    rewrite (filter_cons_True (λ id, id ∈ hiddenSet state)) by done.
    rewrite <- Permutation_middle. by constructor.
  - rewrite (filter_cons_True (λ id, id ∉ hiddenSet state)) by done.
    rewrite (filter_cons_False (λ id, id ∈ hiddenSet state)) by done.
    cbn. by constructor.
Qed.

(** C1, as the code has it. Reconciliation completeness: for all
    discovered cards and every stored state (none, one with stale ids, one
    whose [hidden] or [spans] name unknown ids), [visibleOrder] and
    [hiddenOrder] share no id and together hold exactly the ids of the
    discovered cards. Each id occurs exactly once across the two sequences
    when the order they are built from names no id twice: the stored order
    when a state is stored, the discovery order (one entry per element)
    when none is; with both, the two sequences are a permutation of the
    discovery order. *)
Theorem reconciliation_complete (frames : list Frame) (state : option DashboardState) :
  (∀ id, id ∈ visibleOrder frames state → id ∉ hiddenOrder frames state) ∧
  (∀ id, id ∈ visibleOrder frames state ++ hiddenOrder frames state ↔
         id ∈ (getFrameId <$> frames)) ∧
  (match state with
   | Some s => NoDup (order s)
   | None => NoDup (getFrameId <$> frames)
   end →
   NoDup (visibleOrder frames state ++ hiddenOrder frames state)) ∧
  (NoDup (getFrameId <$> frames) →
   (∀ s, state = Some s → NoDup (order s)) →
   visibleOrder frames state ++ hiddenOrder frames state ≡ₚ getFrameId <$> frames).
Proof.
  rewrite <- defaultOrder_fmap. split_and!.
  - intros id Hv Hh. by apply (visible_hidden_disjoint frames state id).
  - apply elem_of_visible_hidden.
  - intros Hnd. rewrite visible_hidden_Permutation. apply NoDup_mergedOrder.
    destruct state as [s|]; cbn; [by apply NoDup_filter | done].
  - intros Hd Hs.
    assert (Hm : NoDup (mergedOrder frames state)).
    { by apply NoDup_mergedOrder, NoDup_initialOrder. }
    rewrite visible_hidden_Permutation.
    apply NoDup_Permutation; [done | done |]. apply elem_of_mergedOrder.
Qed.

Example reconcile_five_cards :
  visibleOrder fiveCards (Some storedThreeAndStale) =
    ["c"; "bu-slot-frame"; "b"; "bu-stats-frame"] ∧
  hiddenOrder fiveCards (Some storedThreeAndStale) = ["a"].
Proof. split; reflexivity. Qed.

Lemma reconciliation_complete_witness :
  NoDup (visibleOrder fiveCards (Some storedThreeAndStale) ++
         hiddenOrder fiveCards (Some storedThreeAndStale)) ∧
  visibleOrder fiveCards (Some storedThreeAndStale) ++
    hiddenOrder fiveCards (Some storedThreeAndStale) ≡ₚ getFrameId <$> fiveCards.
Proof.
  destruct (proj2 (proj2 (reconciliation_complete fiveCards (Some storedThreeAndStale))))
    as [Hnd Hperm].
  split.
  - apply Hnd. by_decide.
  - apply Hperm.
    + by_decide.
    + intros s [= <-]. by_decide.
Defined.

(** Two cards without id and without title link on a first visit (nothing
    stored): both resolve to [bu-0], and [visibleOrder] names that id
    twice. *)
Lemma colliding_cards_listed_twice :
  getFrameId <$> collidingCards =
    ["bu-stats-frame"; "bu-slot-frame"; "bu-0"; "bu-0"] ∧
  visibleOrder collidingCards None =
    ["bu-stats-frame"; "bu-slot-frame"; "bu-0"; "bu-0"] ∧
  hiddenOrder collidingCards None = [] ∧
  ¬ NoDup (visibleOrder collidingCards None ++ hiddenOrder collidingCards None).
Proof. split_and!; try reflexivity. by_decide. Qed.

(** A stored order that names a live id twice is kept as it is. *)
Example stored_duplicate_listed_twice :
  visibleOrder fourCards
    (Some {| order := ["a"; "b"; "a"; "bu-slot-frame"; "bu-stats-frame"];
             hidden := []; spans := None |}) =
    ["a"; "b"; "a"; "bu-slot-frame"; "bu-stats-frame"].
Proof. reflexivity. Qed.

Lemma elem_of_hiddenSet (s : DashboardState) (id : string) :
  id ∈ hiddenSet (Some s) ↔ id ∈ hidden s.
Proof. cbn. apply elem_of_list_to_set. Qed.

(** C3, as the code has it. New-card surfacing: with a stored state, a
    discovered id that the stored order does not name and that the stored
    [hidden] list does not name either is in [visibleOrder], not in
    [hiddenOrder], and sits in the front part of [visibleOrder] made of
    such new ids, ahead of every id carried over from the stored order. A
    new id that the stored [hidden] list names goes to [hiddenOrder]. *)
Theorem new_card_surfacing (frames : list Frame) (s : DashboardState) (id : string) :
  id ∈ (getFrameId <$> frames) → id ∉ order s →
  (id ∉ hidden s →
     id ∈ visibleOrder frames (Some s) ∧
     (id ∉ hiddenOrder frames (Some s)) ∧
     ∃ front carried,
       visibleOrder frames (Some s) = front ++ carried ∧
       id ∈ front ∧
       (∀ y, y ∈ front → y ∉ order s) ∧
       (∀ y, y ∈ carried → y ∈ order s)) ∧
  (id ∈ hidden s →
     id ∈ hiddenOrder frames (Some s) ∧ id ∉ visibleOrder frames (Some s)).
Proof.
  rewrite <- defaultOrder_fmap. intros Hlive Hnew.
  assert (Hm : id ∈ mergedOrder frames (Some s)) by by apply elem_of_mergedOrder.
  split.
  - intros Hvis.
    assert (Hv : id ∈ visibleOrder frames (Some s)).
    { unfold visibleOrder. apply list_elem_of_filter. by rewrite elem_of_hiddenSet. }
    split; [done|]. split.
    { intros Hh. by apply (visible_hidden_disjoint frames (Some s) id). }
    unfold visibleOrder in *.
    destruct (mergedOrder_split frames (Some s)) as (news & Heq & _ & Hin).
    rewrite Heq, filter_app.
    eexists _, _. split; [done|]. split_and!.
    + apply list_elem_of_filter. rewrite elem_of_hiddenSet. split; [done|].
      apply Hin. split; [done|]. cbn. rewrite list_elem_of_filter. tauto.
    + intros y [_ Hy]%list_elem_of_filter Hys.
      apply Hin in Hy as [Hyl Hyi]. apply Hyi. cbn.
      apply list_elem_of_filter. by rewrite idToFrame_is_Some.
    + intros y [_ Hy]%list_elem_of_filter. cbn in Hy.
      by apply list_elem_of_filter in Hy as [_ ?].
  - intros Hhid.
    assert (Hh : id ∈ hiddenOrder frames (Some s)).
    { unfold hiddenOrder. apply list_elem_of_filter. by rewrite elem_of_hiddenSet. }
    split; [done|]. intros Hv. by apply (visible_hidden_disjoint frames (Some s) id).
Qed.

Lemma new_card_surfacing_witness :
  ("a" ∈ visibleOrder fourCards (Some storedPanelsOnly) ∧
   ("a" ∉ hiddenOrder fourCards (Some storedPanelsOnly)) ∧
   ∃ front carried,
     visibleOrder fourCards (Some storedPanelsOnly) = front ++ carried ∧
     "a" ∈ front ∧
     (∀ y, y ∈ front → y ∉ order storedPanelsOnly) ∧
     (∀ y, y ∈ carried → y ∈ order storedPanelsOnly)) ∧
  ("b" ∈ hiddenOrder fourCards (Some storedHidingUnknown) ∧
   "b" ∉ visibleOrder fourCards (Some storedHidingUnknown)).
Proof.
  split.
  - apply (proj1 (new_card_surfacing fourCards storedPanelsOnly "a"
                    ltac:(by_decide) ltac:(by_decide))).
    by_decide.
  - apply (proj2 (new_card_surfacing fourCards storedHidingUnknown "b"
                    ltac:(by_decide) ltac:(by_decide))).
    by_decide.
Defined.

Example new_cards_in_front :
  visibleOrder fourCards (Some storedPanelsOnly) =
    ["b"; "a"; "bu-slot-frame"; "bu-stats-frame"].
Proof. reflexivity. Qed.

(** The new card [b] is placed among the hidden cards, not among the
    visible ones. *)
Lemma new_card_listed_hidden :
  "b" ∈ (getFrameId <$> fourCards) ∧
  ("b" ∉ order storedHidingUnknown) ∧
  ("b" ∉ visibleOrder fourCards (Some storedHidingUnknown)) ∧
  "b" ∈ hiddenOrder fourCards (Some storedHidingUnknown) ∧
  visibleOrder fourCards (Some storedHidingUnknown) =
    ["bu-stats-frame"; "bu-slot-frame"; "a"] ∧
  hiddenOrder fourCards (Some storedHidingUnknown) = ["b"].
Proof. split_and!; try reflexivity; by_decide. Qed.

(** ** The grid built by [setupDashboard] *)

Lemma removeChild_fresh (w : list Node) (n : Node) : n ∉ w → removeChild w n = w.
Proof.
  unfold removeChild. induction w as [|c w IH]; intros Hn; [done|].
  apply not_elem_of_cons in Hn as [Hc Hw].
  rewrite filter_cons_True by done. by rewrite IH.
Qed.

Lemma appendChild_fresh (w : list Node) (n : Node) : n ∉ w → appendChild w n = w ++ [n].
Proof. intros Hn. unfold appendChild. by rewrite removeChild_fresh. Qed.

Lemma elem_of_appendChild (w : list Node) (n c : Node) :
  c ∈ appendChild w n ↔ c ∈ w ∨ c = n.
Proof.
  unfold appendChild, removeChild.
  rewrite elem_of_app, list_elem_of_filter, list_elem_of_singleton.
  destruct (decide (c = n)); naive_solver.
Qed.

Lemma NoDup_appendChild (w : list Node) (n : Node) : NoDup w → NoDup (appendChild w n).
Proof.
  intros Hw. unfold appendChild, removeChild. apply NoDup_app.
  split; [by apply NoDup_filter|]. split; [|apply NoDup_singleton].
  intros c [Hc _]%list_elem_of_filter ->%list_elem_of_singleton. done.
Qed.

Lemma placeVisible_place (m : gmap string nat) (state : option DashboardState) :
  placeVisible m state = place (λ id, applySpan (getSpan state id)) m.
Proof. reflexivity. Qed.

Lemma placeHidden_place (m : gmap string nat) (state : option DashboardState) :
  placeHidden m state =
    place (λ id f, applySpan (getSpan state id) (setHiddenCard true f)) m.
Proof. reflexivity. Qed.

Lemma foldl_place_NoDup g m (ids : list string) (dom : list Frame * list Node) :
  NoDup dom.2 → NoDup (foldl (place g m) dom ids).2.
Proof.
  revert dom. induction ids as [|id ids IH]; intros dom Hw; [done|].
  cbn. apply IH. unfold place. destruct (m !! id); [|done].
  cbn. by apply NoDup_appendChild.
Qed.

Lemma setupDashboard_NoDup (frames0 : list Frame) (σ : Store) :
  NoDup (wrapper (setupDashboard frames0 σ)).
Proof.
  unfold setupDashboard. cbn [wrapper].
  generalize (loadDashboardState σ). intros state.
  assert (H1 : NoDup (visibleGrid frames0 state).2).
  { unfold visibleGrid. rewrite placeVisible_place.
    apply foldl_place_NoDup. constructor. }
  unfold fullGrid.
  destruct (hiddenOrder frames0 state) as [|id ids]; [done|].
  rewrite placeHidden_place. apply foldl_place_NoDup.
  by apply NoDup_appendChild.
Qed.

(** C2, as the code has it. Duplicate identity: the id-to-element map
    holds exactly one element for each id that some discovered element
    resolves to, and none for any other id; when several elements resolve
    to the same id the map keeps the last of them in discovery order. With
    a stored state whose order names no id twice, no id occurs twice in the
    computed order, and the grid never holds an element twice. *)
Theorem registry_one_card_per_id (frames : list Frame) :
  (∀ id, is_Some (idToFrame frames !! id) ↔ id ∈ (getFrameId <$> frames)) ∧
  (∀ id k, idToFrame frames !! id = Some k ↔
           getFrameId <$> frames !! k = Some id ∧
           ∀ j, getFrameId <$> frames !! j = Some id → (j ≤ k)%nat) ∧
  (∀ s, NoDup (order s) → NoDup (mergedOrder frames (Some s))) ∧
  (∀ σ, NoDup (wrapper (setupDashboard frames σ))).
Proof.
  split_and!.
  - intros id. rewrite <- defaultOrder_fmap. apply idToFrame_is_Some.
  - apply idToFrame_lookup.
  - intros s Hs. apply NoDup_mergedOrder. cbn. by apply NoDup_filter.
  - apply setupDashboard_NoDup.
Qed.

Lemma registry_one_card_per_id_witness :
  NoDup (mergedOrder collidingCards (Some storedPanelsOnly)).
Proof.
  apply (proj1 (proj2 (proj2 (registry_one_card_per_id collidingCards)))
           storedPanelsOnly).
  by_decide.
Defined.

(** The map keeps the second of the two colliding elements (position 3),
    not the first-seen one (position 2), and with nothing stored the
    computed order names the id twice. *)
Lemma colliding_ids_keep_last :
  getFrameId <$> collidingCards !! 2%nat = Some "bu-0" ∧
  getFrameId <$> collidingCards !! 3%nat = Some "bu-0" ∧
  idToFrame collidingCards !! "bu-0" = Some 3%nat ∧
  idToFrame collidingCards !! "bu-0" ≠ Some 2%nat ∧
  mergedOrder collidingCards None =
    ["bu-stats-frame"; "bu-slot-frame"; "bu-0"; "bu-0"] ∧
  ¬ NoDup (mergedOrder collidingCards None).
Proof.
  split_and!; try reflexivity.
  - vm_compute. discriminate.
  - by_decide.
Qed.

(** ** Saving the layout and reconciling again *)

Lemma filter_all {A} (P : A → Prop) `{!∀ x, Decision (P x)} (l : list A) :
  Forall P l → filter P l = l.
Proof.
  induction 1 as [|x l Hx _ IH]; [done|].
  rewrite filter_cons_True by done. by rewrite IH.
Qed.

Lemma filter_none {A} (P : A → Prop) `{!∀ x, Decision (P x)} (l : list A) :
  Forall (λ x, ¬ P x) l → filter P l = [].
Proof.
  induction 1 as [|x l Hx _ IH]; [done|].
  by rewrite filter_cons_False.
Qed.

Lemma foldl_insert_span_lookup (state : option DashboardState) (ids : list string)
    (acc : gmap string Z) (id : string) :
  foldl (λ out id, <[id := getSpan state id]> out) acc ids !! id =
    if decide (id ∈ ids) then Some (getSpan state id) else acc !! id.
Proof.
  revert acc. induction ids as [|d ids IH]; intros acc; [done|].
  cbn. rewrite IH.
  destruct (decide (id ∈ ids)) as [Hin|Hin].
  - rewrite decide_True; [done | by right].
  - destruct (decide (d = id)) as [->|Hne].
    + rewrite decide_True by left. apply lookup_insert_eq.
    + rewrite decide_False; [by apply lookup_insert_ne|].
      intros [?|?]%elem_of_cons; congruence.
Qed.

Lemma spansOf_lookup (state : option DashboardState) (ids : list string) (id : string) :
  id ∈ ids → spansOf state ids !! id = Some (getSpan state id).
Proof.
  intros Hin. unfold spansOf. rewrite foldl_insert_span_lookup.
  by rewrite decide_True.
Qed.

Lemma mergedOrder_layoutState (frames : list Frame) (state : option DashboardState) :
  mergedOrder frames (Some (layoutState frames state)) =
    visibleOrder frames state ++ hiddenOrder frames state.
Proof.
  destruct (mergedOrder_split frames (Some (layoutState frames state)))
    as (news & -> & _ & Hin).
  assert (Hinit : initialOrder frames (Some (layoutState frames state)) =
                  visibleOrder frames state ++ hiddenOrder frames state).
  { cbn. apply filter_all. apply Forall_forall. intros x Hx.
    apply idToFrame_is_Some. by apply (elem_of_visible_hidden frames state x). }
  rewrite Hinit in *.
  destruct news as [|x news]; [done|]. exfalso.
  destruct (proj1 (Hin x)) as [Hx Hnx]; [left|].
  by apply Hnx, (elem_of_visible_hidden frames state x).
Qed.

(** Reconciling against the saved layout gives the layout back. *)
Lemma reconcile_layoutState (frames : list Frame) (state : option DashboardState) :
  visibleOrder frames (Some (layoutState frames state)) = visibleOrder frames state ∧
  hiddenOrder frames (Some (layoutState frames state)) = hiddenOrder frames state ∧
  ∀ id, id ∈ (getFrameId <$> frames) →
        getSpan (Some (layoutState frames state)) id = getSpan state id.
Proof.
  split_and!.
  - unfold visibleOrder at 1. rewrite mergedOrder_layoutState, filter_app.
    rewrite filter_all, filter_none; [by rewrite app_nil_r | |].
    + apply Forall_forall. intros x Hx. rewrite elem_of_hiddenSet. cbn. tauto.
    + apply Forall_forall. intros x Hx. rewrite elem_of_hiddenSet. cbn.
      intros Hh. by apply (visible_hidden_disjoint frames state x).
  - unfold hiddenOrder at 1. rewrite mergedOrder_layoutState, filter_app.
    rewrite filter_none, filter_all; [done | |].
    + apply Forall_forall. intros x Hx. by rewrite elem_of_hiddenSet.
    + apply Forall_forall. intros x Hx. rewrite elem_of_hiddenSet. cbn.
      intros Hh. by apply (visible_hidden_disjoint frames state x).
  - intros id Hid. rewrite <- defaultOrder_fmap in Hid.
    apply (elem_of_visible_hidden frames state id) in Hid.
    unfold getSpan at 1.
    change (savedSpans (Some (layoutState frames state)))
      with (spansOf state (visibleOrder frames state ++ hiddenOrder frames state)).
    rewrite (spansOf_lookup state _ id Hid).
    pose proof (getSpan_valid state id) as Hv.
    rewrite (bool_decide_eq_true_2 (getSpan state id ∈ SPAN_OPTIONS)) by done.
    rewrite bool_decide_eq_true_2; [done|].
    intros H0. rewrite H0 in Hv. revert Hv. by_decide.
Qed.

Lemma place_Some g (m : gmap string nat) (dom : list Frame * list Node)
    (id : string) (k : nat) :
  m !! id = Some k →
  place g m dom id = (alter (g id) k dom.1, appendChild dom.2 (Card k)).
Proof. intros Hk. unfold place. by rewrite Hk. Qed.

Lemma Forall2_index_of (m : gmap string nat) (ids : list string) (ks : list nat)
    (id : string) :
  Forall2 (λ id k, m !! id = Some k) ids ks → id ∈ ids →
  ∃ k, k ∈ ks ∧ m !! id = Some k.
Proof.
  intros HF [i Hi]%list_elem_of_lookup.
  destruct (Forall2_lookup_l _ _ _ _ _ HF Hi) as (k & Hk & Hm).
  exists k. split; [|done]. apply list_elem_of_lookup. eauto.
Qed.

Lemma Forall2_id_of (m : gmap string nat) (ids : list string) (ks : list nat)
    (k : nat) :
  Forall2 (λ id k, m !! id = Some k) ids ks → k ∈ ks →
  ∃ id, id ∈ ids ∧ m !! id = Some k.
Proof.
  intros HF [i Hi]%list_elem_of_lookup.
  destruct (Forall2_lookup_r _ _ _ _ _ HF Hi) as (id & Hid & Hm).
  exists id. split; [|done]. apply list_elem_of_lookup. eauto.
Qed.

Lemma foldl_place_wrapper g (m : gmap string nat) (ids : list string) (ks : list nat) :
  Forall2 (λ id k, m !! id = Some k) ids ks → NoDup ks →
  ∀ dom, (∀ k, k ∈ ks → Card k ∉ dom.2) →
         (foldl (place g m) dom ids).2 = dom.2 ++ (Card <$> ks).
Proof.
  induction 1 as [|id k ids ks Hk HF IH]; intros Hnd dom Hfresh.
  - cbn. by rewrite app_nil_r.
  - apply NoDup_cons in Hnd as [Hkks Hnd].
    cbn. rewrite (place_Some g m dom id k Hk), IH; [|done|].
    + cbn. rewrite appendChild_fresh by (apply Hfresh; left).
      by rewrite <- app_assoc.
    + intros k' Hk'. cbn. rewrite appendChild_fresh by (apply Hfresh; left).
      rewrite elem_of_app, list_elem_of_singleton.
      intros [Hw | [= ->]]; [|done]. apply (Hfresh k'); [by right | done].
Qed.

Lemma foldl_place_frames_other g (m : gmap string nat) (ids : list string) (k : nat) :
  (∀ id, id ∈ ids → m !! id ≠ Some k) →
  ∀ dom, (foldl (place g m) dom ids).1 !! k = dom.1 !! k.
Proof.
  induction ids as [|id ids IH]; intros Hother dom; [done|].
  cbn. rewrite IH by (intros id' Hid'; apply Hother; by right).
  unfold place. destruct (m !! id) as [k0|] eqn:Hk0; [|done].
  cbn. apply list_lookup_alter_ne. intros ->. by apply (Hother id); [left|].
Qed.

Lemma foldl_place_frames_at g (m : gmap string nat) (ids : list string) (ks : list nat) :
  Forall2 (λ id k, m !! id = Some k) ids ks → NoDup ks →
  ∀ dom i id k, ids !! i = Some id → ks !! i = Some k →
                (foldl (place g m) dom ids).1 !! k = g id <$> dom.1 !! k.
Proof.
  induction 1 as [|id0 k0 ids ks Hk0 HF IH]; intros Hnd dom i id k Hi Hk; [done|].
  apply NoDup_cons in Hnd as [Hkks Hnd].
  cbn. rewrite (place_Some g m dom id0 k0 Hk0).
  destruct i as [|i]; simplify_eq/=.
  - rewrite foldl_place_frames_other.
    + cbn. apply list_lookup_alter_eq.
    + intros id' Hid' Hm.
      destruct (Forall2_index_of m ids ks id' HF Hid') as (k' & Hk' & Hm').
      congruence.
  - rewrite (IH Hnd _ i id k Hi Hk). cbn.
    rewrite list_lookup_alter_ne; [done|].
    intros ->. apply Hkks. apply list_elem_of_lookup. eauto.
Qed.

Lemma idToFrame_frame (frames0 : list Frame) (id : string) (k : nat) :
  idToFrame frames0 !! id = Some k →
  ∃ f, frames0 !! k = Some f ∧ getFrameId f = id.
Proof.
  intros [Hk _]%idToFrame_lookup. apply fmap_Some in Hk as (f & Hf & ->). eauto.
Qed.

Lemma idToFrame_inj (frames0 : list Frame) (id id' : string) (k : nat) :
  idToFrame frames0 !! id = Some k → idToFrame frames0 !! id' = Some k → id = id'.
Proof.
  intros (f & Hf & <-)%idToFrame_frame (f' & Hf' & <-)%idToFrame_frame. congruence.
Qed.

Lemma live_indices (frames0 : list Frame) (ids : list string) :
  (∀ id, id ∈ ids → id ∈ defaultOrder frames0) →
  ∃ ks, Forall2 (λ id k, idToFrame frames0 !! id = Some k) ids ks.
Proof.
  induction ids as [|id ids IH]; intros Hlive.
  - exists []. constructor.
  - destruct IH as [ks HF]; [intros id' Hid'; apply Hlive; by right|].
    destruct (proj2 (idToFrame_is_Some frames0 id)) as [k Hk]; [apply Hlive; left|].
    exists (k :: ks). by constructor.
Qed.

Lemma indices_NoDup (frames0 : list Frame) (ids : list string) (ks : list nat) :
  Forall2 (λ id k, idToFrame frames0 !! id = Some k) ids ks → NoDup ids → NoDup ks.
Proof.
  induction 1 as [|id k ids ks Hk HF IH]; intros Hnd; [constructor|].
  apply NoDup_cons in Hnd as [Hid Hnd]. apply NoDup_cons. split; [|by apply IH].
  intros Hin. destruct (Forall2_id_of _ ids ks k HF Hin) as (id' & Hid' & Hm).
  by rewrite (idToFrame_inj frames0 id id' k Hk Hm) in Hid.
Qed.

Lemma cards_placed (s : Session) (state : option DashboardState) (h : bool)
    (ids : list string) (ks : list nat) :
  Forall2 (λ id k, ∃ f, frames s !! k = Some f ∧ placed state h id f) ids ks →
  Forall2 (placed state h) ids (omap (cardOf s) (Card <$> ks)).
Proof.
  induction 1 as [|id k ids ks (f & Hf & Hp) _ IH]; [constructor|].
  cbn. rewrite Hf. by constructor.
Qed.

Lemma getCurrentOrder_cards (s : Session) :
  getCurrentOrder s = getFrameId <$> omap (cardOf s) (wrapper s).
Proof.
  unfold getCurrentOrder. induction (wrapper s) as [|n w IH]; [done|].
  cbn. destruct (cardOf s n); cbn; by rewrite IH.
Qed.

Lemma getHiddenIds_cards (s : Session) :
  getHiddenIds s =
    omap (λ f, if f_hiddenCard f then Some (getFrameId f) else None)
         (omap (cardOf s) (wrapper s)).
Proof.
  unfold getHiddenIds. induction (wrapper s) as [|n w IH]; [done|].
  cbn. destruct (cardOf s n) as [f|]; cbn; [|done].
  destruct (f_hiddenCard f); by rewrite IH.
Qed.

Lemma getSpans_cards (s : Session) :
  getSpans s = foldl recordSpan ∅ (omap (cardOf s) (wrapper s)).
Proof.
  unfold getSpans. generalize (∅ : gmap string Z).
  induction (wrapper s) as [|n w IH]; intros acc; [done|].
  cbn. destruct (cardOf s n) as [f|]; cbn; by rewrite IH.
Qed.

Lemma placed_ids (state : option DashboardState) (h : bool) (ids : list string)
    (cs : list Frame) :
  Forall2 (placed state h) ids cs → getFrameId <$> cs = ids.
Proof.
  induction 1 as [|id f ids cs (Hid & _) _ IH]; [done|]. cbn. by rewrite Hid, IH.
Qed.

Lemma placed_hidden_ids (state : option DashboardState) (h : bool)
    (ids : list string) (cs : list Frame) :
  Forall2 (placed state h) ids cs →
  omap (λ f, if f_hiddenCard f then Some (getFrameId f) else None) cs =
    if h then ids else [].
Proof.
  induction 1 as [|id f ids cs (Hid & Hh & _) _ IH]; [by destruct h|].
  cbn. rewrite Hh, IH, Hid. by destruct h.
Qed.

Lemma placed_spans (state : option DashboardState) (h : bool) (ids : list string)
    (cs : list Frame) :
  Forall2 (placed state h) ids cs →
  ∀ acc, foldl recordSpan acc cs =
         foldl (λ out id, assignSpan id (getSpan state id) out) acc ids.
Proof.
  induction 1 as [|id f ids cs (Hid & _ & Hs) _ IH]; intros acc; [done|].
  cbn. rewrite <- IH. f_equal. unfold recordSpan. rewrite Hs, Hid. cbn.
  by rewrite bool_decide_eq_true_2 by apply getSpan_valid.
Qed.

(** Filling a plain object by assignment gives the mapping without the key
    [__proto__]. *)
Lemma foldl_assignSpan_delete (g : string → Z) (ids : list string) :
  ∀ acc acc' : gmap string Z,
    delete "__proto__" acc = delete "__proto__" acc' →
    delete "__proto__" (foldl (λ out id, assignSpan id (g id) out) acc ids) =
      delete "__proto__" (foldl (λ out id, <[id := g id]> out) acc' ids).
Proof.
  induction ids as [|id ids IH]; intros acc acc' Heq; [done|].
  cbn [foldl]. apply IH. unfold assignSpan. case_bool_decide as Hid.
  - subst id. by rewrite delete_insert_eq.
  - by rewrite !delete_insert_ne, Heq by done.
Qed.

Lemma foldl_assignSpan_proto (g : string → Z) (ids : list string) :
  ∀ acc : gmap string Z,
    foldl (λ out id, assignSpan id (g id) out) acc ids !! "__proto__" = acc !! "__proto__".
Proof.
  induction ids as [|id ids IH]; intros acc; [done|].
  cbn [foldl]. rewrite IH. unfold assignSpan. case_bool_decide as Hid; [done|].
  by apply lookup_insert_ne.
Qed.

Lemma foldl_assignSpan_spansOf (state : option DashboardState) (ids : list string) :
  foldl (λ out id, assignSpan id (getSpan state id) out) ∅ ids =
    delete "__proto__" (spansOf state ids).
Proof.
  rewrite <- (delete_id (foldl _ ∅ ids) "__proto__")
    by (by rewrite foldl_assignSpan_proto).
  by apply foldl_assignSpan_delete.
Qed.

(** The reconciler reads [order] and [hidden] only, apart from the
    widths. *)
Lemma orders_ext (frames : list Frame) (s s' : DashboardState) :
  order s = order s' → hidden s = hidden s' →
  visibleOrder frames (Some s) = visibleOrder frames (Some s') ∧
  hiddenOrder frames (Some s) = hiddenOrder frames (Some s').
Proof.
  intros Ho Hh.
  unfold visibleOrder, hiddenOrder, mergedOrder, initialOrder, hiddenSet.
  by rewrite Ho, Hh.
Qed.

(** Reconciling against the saved layout gives the layout back, but for
    the width of a card whose id is [__proto__]: the saved object has no
    such property, and the card gets the default width. *)
Lemma reconcile_savedLayout (frames : list Frame) (state : option DashboardState) :
  visibleOrder frames (Some (savedLayout frames state)) = visibleOrder frames state ∧
  hiddenOrder frames (Some (savedLayout frames state)) = hiddenOrder frames state ∧
  ∀ id, id ∈ (getFrameId <$> frames) →
        getSpan (Some (savedLayout frames state)) id =
          if bool_decide (id = "__proto__") then 3 else getSpan state id.
Proof.
  destruct (reconcile_layoutState frames state) as (HV & HH & HS).
  destruct (orders_ext frames (savedLayout frames state) (layoutState frames state)
              eq_refl eq_refl) as [-> ->].
  split; [done|]. split; [done|].
  intros id Hid. case_bool_decide as Hp.
  - subst id. unfold getSpan.
    change (savedSpans (Some (savedLayout frames state)))
      with (delete "__proto__"
              (spansOf state (visibleOrder frames state ++ hiddenOrder frames state))).
    by rewrite lookup_delete_eq.
  - rewrite <- (HS id Hid). unfold getSpan.
    change (savedSpans (Some (savedLayout frames state)))
      with (delete "__proto__"
              (spansOf state (visibleOrder frames state ++ hiddenOrder frames state))).
    change (savedSpans (Some (layoutState frames state)))
      with (spansOf state (visibleOrder frames state ++ hiddenOrder frames state)).
    by rewrite lookup_delete_ne.
Qed.

Lemma NoDup_visible_hidden (frames : list Frame) (state : option DashboardState) :
  NoDup (getFrameId <$> frames) →
  (∀ s, state = Some s → NoDup (order s)) →
  NoDup (visibleOrder frames state ++ hiddenOrder frames state).
Proof.
  intros Hd Hs. rewrite visible_hidden_Permutation.
  apply NoDup_mergedOrder, NoDup_initialOrder; [|done].
  by rewrite defaultOrder_fmap.
Qed.

Lemma f_hiddenCard_assignId (f : Frame) : f_hiddenCard (assignId f) = f_hiddenCard f.
Proof. unfold assignId. by case_bool_decide. Qed.

Lemma fullGrid_unfold (frames0 : list Frame) (state : option DashboardState) :
  fullGrid frames0 state =
    foldl (placeHidden (idToFrame frames0) state)
          ((visibleGrid frames0 state).1,
           (visibleGrid frames0 state).2 ++
             match hiddenOrder frames0 state with [] => [] | _ => [Divider] end)
          (hiddenOrder frames0 state).
Proof.
  unfold fullGrid. destruct (hiddenOrder frames0 state) as [|id ids] eqn:Hh.
  - cbn. rewrite app_nil_r. by destruct (visibleGrid frames0 state).
  - set (dom := visibleGrid frames0 state).
    assert (Hnew : Divider ∉ dom.2).
    { assert (Hc : ∀ n, n ∈ dom.2 → ∃ k, n = Card k).
      { subst dom. unfold visibleGrid. rewrite placeVisible_place.
        generalize (visibleOrder frames0 state). intros ids0.
        cut (∀ d : list Frame * list Node,
               (∀ n, n ∈ d.2 → ∃ k, n = Card k) →
               ∀ n, n ∈ (foldl (place (λ id0, applySpan (getSpan state id0))
                                  (idToFrame frames0)) d ids0).2 → ∃ k, n = Card k).
        { intros Hcut. apply Hcut. cbn. by intros n ?%elem_of_nil. }
        induction ids0 as [|id0 ids0 IH]; intros d Hd; [done|].
        cbn. apply IH. unfold place. destruct (idToFrame frames0 !! id0); [|done].
        cbn. intros c [Hc | ->]%elem_of_appendChild; eauto. }
      intros (k & Hk)%Hc. discriminate. }
    by rewrite appendChild_fresh.
Qed.

(** Right after [setupDashboard], on host elements that do not carry the
    class [bu-hidden-card] yet and with the uniqueness of the data model,
    [persistOrder] saves the layout just computed. *)
Lemma snapshot_setupDashboard (frames0 : list Frame) (σ : Store) :
  NoDup (getFrameId <$> frames0) →
  (∀ s, loadDashboardState σ = Some s → NoDup (order s)) →
  Forall (λ f, f_hiddenCard f = false) frames0 →
  snapshot (setupDashboard frames0 σ) = savedLayout frames0 (loadDashboardState σ).
Proof.
  unfold setupDashboard. cbv zeta.
  generalize (loadDashboardState σ). intros state Hids Hstate Hpristine.
  set (s := {| frames := (fullGrid frames0 state).1;
               wrapper := (fullGrid frames0 state).2;
               editMode := false; dragged := None |}).
  pose proof (NoDup_visible_hidden frames0 state Hids Hstate) as Hnd.
  apply NoDup_app in Hnd as (HndV & Hdisj & HndH).
  set (m := idToFrame frames0).
  set (V := visibleOrder frames0 state) in *.
  set (H := hiddenOrder frames0 state) in *.
  assert (HliveV : ∀ id, id ∈ V → id ∈ defaultOrder frames0).
  { intros id Hid. apply (elem_of_visible_hidden frames0 state id).
    apply elem_of_app. by left. }
  assert (HliveH : ∀ id, id ∈ H → id ∈ defaultOrder frames0).
  { intros id Hid. apply (elem_of_visible_hidden frames0 state id).
    apply elem_of_app. by right. }
  destruct (live_indices frames0 V HliveV) as [kV HFV].
  destruct (live_indices frames0 H HliveH) as [kH HFH].
  pose proof (indices_NoDup frames0 V kV HFV HndV) as HndkV.
  pose proof (indices_NoDup frames0 H kH HFH HndH) as HndkH.
  assert (Hsep : ∀ k, k ∈ kV → k ∉ kH).
  { intros k (id & Hid & Hm)%(Forall2_id_of m V kV k HFV)
             (id' & Hid' & Hm')%(Forall2_id_of m H kH k HFH).
    apply (Hdisj id Hid). by rewrite (idToFrame_inj frames0 id id' k Hm Hm'). }
  assert (HotherV : ∀ k, k ∉ kV → ∀ id, id ∈ V → m !! id ≠ Some k).
  { intros k Hk id Hid Hm.
    destruct (Forall2_index_of m V kV id HFV Hid) as (k' & Hk' & Hm'). congruence. }
  assert (HotherH : ∀ k, k ∉ kH → ∀ id, id ∈ H → m !! id ≠ Some k).
  { intros k Hk id Hid Hm.
    destruct (Forall2_index_of m H kH id HFH Hid) as (k' & Hk' & Hm'). congruence. }
  (* the wrapper *)
  set (div := match H with [] => [] | _ => [Divider] end).
  assert (Hw1 : (visibleGrid frames0 state).2 = Card <$> kV).
  { unfold visibleGrid. rewrite placeVisible_place. fold m V.
    rewrite (foldl_place_wrapper _ m V kV HFV HndkV); [done|].
    cbn. intros k _ ?%elem_of_nil. done. }
  assert (Hw : wrapper s =
               (Card <$> kV) ++ div ++ (Card <$> kH)).
  { unfold s. cbn [wrapper].
    rewrite fullGrid_unfold, placeHidden_place. fold m H.
    rewrite (foldl_place_wrapper _ m H kH HFH HndkH).
    - cbn [snd]. by rewrite Hw1, <- app_assoc.
    - cbn [snd]. rewrite Hw1. intros k Hk.
      rewrite elem_of_app. intros [(k' & [= <-] & Hk')%list_elem_of_fmap | Hd].
      + by apply (Hsep k).
      + subst div. destruct H; [by apply elem_of_nil in Hd|].
        apply list_elem_of_singleton in Hd. discriminate. }
  (* the cards *)
  assert (HcV : Forall2 (λ id k, ∃ f, frames s !! k = Some f ∧
                                      placed state false id f) V kV).
  { apply Forall2_same_length_lookup. split; [by eapply Forall2_length|].
    intros i id k Hi Hk.
    pose proof (Forall2_lookup_lr _ _ _ _ _ _ HFV Hi Hk) as Hm.
    destruct (idToFrame_frame frames0 id k Hm) as (f0 & Hf0 & Hid0).
    unfold s. cbn [frames].
    rewrite fullGrid_unfold, placeHidden_place. fold m H.
    rewrite foldl_place_frames_other.
    2:{ apply HotherH, Hsep. apply list_elem_of_lookup. eauto. }
    cbn [fst]. unfold visibleGrid. rewrite placeVisible_place. fold m V.
    rewrite (foldl_place_frames_at _ m V kV HFV HndkV _ i id k Hi Hk).
    cbn [fst]. rewrite list_lookup_fmap, Hf0. cbn.
    eexists. split; [done|]. split_and!.
    - by rewrite <- Hid0, <- (getFrameId_assignId f0).
    - cbn. rewrite f_hiddenCard_assignId.
      by apply (proj1 (Forall_lookup _ _) Hpristine k f0).
    - done. }
  assert (HcH : Forall2 (λ id k, ∃ f, frames s !! k = Some f ∧
                                      placed state true id f) H kH).
  { apply Forall2_same_length_lookup. split; [by eapply Forall2_length|].
    intros i id k Hi Hk.
    pose proof (Forall2_lookup_lr _ _ _ _ _ _ HFH Hi Hk) as Hm.
    destruct (idToFrame_frame frames0 id k Hm) as (f0 & Hf0 & Hid0).
    unfold s. cbn [frames].
    rewrite fullGrid_unfold, placeHidden_place. fold m H.
    rewrite (foldl_place_frames_at _ m H kH HFH HndkH _ i id k Hi Hk).
    cbn [fst]. unfold visibleGrid. rewrite placeVisible_place. fold m V.
    rewrite foldl_place_frames_other.
    2:{ apply HotherV. intros Hin. apply (Hsep k Hin).
        apply list_elem_of_lookup. eauto. }
    cbn [fst]. rewrite list_lookup_fmap, Hf0. cbn.
    eexists. split; [done|]. split_and!.
    - by rewrite <- Hid0, <- (getFrameId_assignId f0).
    - done.
    - done. }
  apply cards_placed in HcV, HcH.
  assert (Hcards : omap (cardOf s)
                        (wrapper s) =
                   omap (cardOf s) (Card <$> kV) ++
                   omap (cardOf s) (Card <$> kH)).
  { rewrite Hw, !omap_app. f_equal.
    subst div. by destruct H. }
  unfold snapshot, savedLayout, layoutState. cbn [order hidden spans fmap option_fmap option_map].
  f_equal.
  - rewrite getCurrentOrder_cards, Hcards, fmap_app.
    by rewrite (placed_ids state false V _ HcV), (placed_ids state true H _ HcH).
  - rewrite getHiddenIds_cards, Hcards, omap_app.
    by rewrite (placed_hidden_ids state false V _ HcV),
               (placed_hidden_ids state true H _ HcH).
  - f_equal. rewrite getSpans_cards, Hcards.
    rewrite <- foldl_assignSpan_spansOf.
    rewrite !foldl_app.
    rewrite (placed_spans state false V _ HcV).
    by rewrite (placed_spans state true H _ HcH).
Qed.

(** What [persistOrder] saves never has a property [__proto__] among its
    spans: the states that the extension wrote itself all resolve the width
    of a card with that id to the default. *)
Lemma snapshot_no_proto (s : Session) : getSpans s !! "__proto__" = None.
Proof.
  unfold getSpans. generalize (wrapper s). intros w.
  assert (H : ∀ acc : gmap string Z,
             acc !! "__proto__" = None →
             foldl (λ out n,
                      match cardOf s n with
                      | Some f =>
                          let n := default 3 (f_buSpan f) in
                          if bool_decide (n ∈ SPAN_OPTIONS)
                          then assignSpan (getFrameId f) n out else out
                      | None => out
                      end) acc w !! "__proto__" = None).
  { induction w as [|n w IH]; intros acc Hacc; [done|].
    cbn [foldl]. apply IH. destruct (cardOf s n) as [f|]; [|done]. cbv zeta.
    case_bool_decide; [|done]. unfold assignSpan.
    case_bool_decide; [done|]. by rewrite lookup_insert_ne. }
  by apply H.
Qed.

(** C4. Reconciliation idempotence and totality: reconciliation is a
    function of the discovered cards and the stored state, defined for
    every input; with nothing stored it yields the discovery order, nothing
    hidden and the default widths. Feeding back the state made of a
    layout's full order, hidden ids and resolved widths yields the same
    [visibleOrder], [hiddenOrder] and widths. After [setupDashboard] (on
    host elements not yet marked hidden, with one card per id and a stored
    order without duplicates) [persistOrder] saves that state, with a
    [spans] object that has every width but no property [__proto__]; the
    next page load computes from it the same [visibleOrder] and
    [hiddenOrder] and the same width of every card, the default width for a
    card whose id is [__proto__]. That is the width such a card had before,
    unless the stored [spans] came with a property of that name, which no
    state saved by [persistOrder] has. *)
Theorem reconciliation_idempotent (frames : list Frame) (σ : Store) :
  let state := loadDashboardState σ in
  (visibleOrder frames None = getFrameId <$> frames ∧
   hiddenOrder frames None = [] ∧
   ∀ id, getSpan None id = if bool_decide (id = "bu-stats-frame") then 6 else 3) ∧
  (visibleOrder frames (Some (layoutState frames state)) = visibleOrder frames state ∧
   hiddenOrder frames (Some (layoutState frames state)) = hiddenOrder frames state ∧
   ∀ id, id ∈ (getFrameId <$> frames) →
         getSpan (Some (layoutState frames state)) id = getSpan state id) ∧
  (NoDup (getFrameId <$> frames) →
   (∀ s, state = Some s → NoDup (order s)) →
   Forall (λ f, f_hiddenCard f = false) frames →
   let σ' := persistOrder (setupDashboard frames σ) σ in
   loadDashboardState σ' = Some (savedLayout frames state) ∧
   visibleOrder frames (loadDashboardState σ') = visibleOrder frames state ∧
   hiddenOrder frames (loadDashboardState σ') = hiddenOrder frames state ∧
   (∀ id, id ∈ (getFrameId <$> frames) →
          getSpan (loadDashboardState σ') id =
            if bool_decide (id = "__proto__") then 3 else getSpan state id) ∧
   (savedSpans state !! "__proto__" = None →
    ∀ id, id ∈ (getFrameId <$> frames) →
          getSpan (loadDashboardState σ') id = getSpan state id)) ∧
  (∀ (s : Session) (σ0 : Store),
     savedSpans (loadDashboardState (persistOrder s σ0)) !! "__proto__" = None).
Proof.
  cbv zeta. split; [|split; [|split]].
  - split_and!.
    + unfold visibleOrder. rewrite mergedOrder_None, defaultOrder_fmap.
      apply filter_all, Forall_forall. intros x _. cbn. set_solver.
    + unfold hiddenOrder. apply filter_none, Forall_forall. intros x _. cbn. set_solver.
    + done.
  - apply reconcile_layoutState.
  - intros Hids Hstate Hpristine.
    assert (Hload : loadDashboardState (persistOrder (setupDashboard frames σ) σ) =
                    Some (savedLayout frames (loadDashboardState σ))).
    { unfold persistOrder, saveDashboardState, loadDashboardState at 1. cbn.
      f_equal. by apply snapshot_setupDashboard. }
    rewrite Hload.
    destruct (reconcile_savedLayout frames (loadDashboardState σ)) as (HV & HH & HS).
    split; [done|]. split; [done|]. split; [done|]. split; [done|].
    intros Hno id Hid. rewrite (HS id Hid). case_bool_decide as Hp; [|done].
    subst id. unfold getSpan. by rewrite Hno.
  - intros s σ0. apply snapshot_no_proto.
Qed.

Lemma reconciliation_idempotent_witness :
  let σ' := persistOrder (setupDashboard fiveCards storeThreeAndStale) storeThreeAndStale in
  visibleOrder fiveCards (loadDashboardState σ') =
    visibleOrder fiveCards (Some storedThreeAndStale) ∧
  hiddenOrder fiveCards (loadDashboardState σ') =
    hiddenOrder fiveCards (Some storedThreeAndStale) ∧
  getSpan (loadDashboardState σ') "a" = 4.
Proof.
  destruct (proj1 (proj2 (proj2 (reconciliation_idempotent fiveCards storeThreeAndStale))))
    as (_ & Hv & Hh & Hs & _).
  - by_decide.
  - intros s [= <-]. by_decide.
  - by_decide.
  - split; [exact Hv|]. split; [exact Hh|].
    rewrite (Hs "a") by by_decide. reflexivity.
Defined.

Example persisted_five_cards :
  order (snapshot (setupDashboard fiveCards storeThreeAndStale)) =
    ["c"; "bu-slot-frame"; "b"; "bu-stats-frame"; "a"] ∧
  hidden (snapshot (setupDashboard fiveCards storeThreeAndStale)) = ["a"].
Proof. split; reflexivity. Qed.

(** ** What [setupDashboard] hands over to the listeners *)

Lemma foldl_place_Forall (P : Frame → Prop) g (m : gmap string nat)
    (ids : list string) :
  (∀ id f, P f → P (g id f)) →
  ∀ dom, Forall P dom.1 → Forall P (foldl (place g m) dom ids).1.
Proof.
  intros Hg. induction ids as [|id ids IH]; intros dom Hdom; [done|].
  cbn. apply IH. unfold place. destruct (m !! id) as [k|]; [|done].
  cbn. apply Forall_alter; [done|]. intros f _. apply Hg.
Qed.

Lemma fullGrid_Forall (P : Frame → Prop) (frames0 : list Frame)
    (state : option DashboardState) :
  (∀ f, P f → P (assignId f)) →
  (∀ z f, P f → P (applySpan z f)) →
  (∀ f, P f → P (setHiddenCard true f)) →
  Forall P frames0 → Forall P (fullGrid frames0 state).1.
Proof.
  intros Hassign Hspan Hhide HP.
  rewrite fullGrid_unfold, placeHidden_place.
  apply foldl_place_Forall; [intros id f Hf; by apply Hspan, Hhide|].
  cbn [fst]. unfold visibleGrid. rewrite placeVisible_place.
  apply foldl_place_Forall; [intros id f Hf; by apply Hspan|].
  cbn [fst]. apply Forall_fmap. eapply Forall_impl; [exact HP|]. apply Hassign.
Qed.

(** The grid starts idle: [dragged] is null, and no card carries the class
    [bu-dragging] unless the host page put it there. *)
Lemma setupDashboard_idle (frames0 : list Frame) (σ : Store) :
  Forall (λ f, f_dragging f = false) frames0 → idle (setupDashboard frames0 σ).
Proof.
  intros Hclean. split; [done|]. apply noMarker_Forall.
  unfold setupDashboard. cbn [frames].
  apply fullGrid_Forall; [|done|done|done].
  intros f Hf. unfold assignId. by case_bool_decide.
Qed.

Lemma foldl_place_registered g (m : gmap string nat) (ids : list string) :
  ∀ dom, (∀ k, Card k ∈ dom.2 → ∃ id, m !! id = Some k) →
         ∀ k, Card k ∈ (foldl (place g m) dom ids).2 → ∃ id, m !! id = Some k.
Proof.
  induction ids as [|id ids IH]; intros dom Hdom; [done|].
  cbn. apply IH. unfold place. destruct (m !! id) as [k0|] eqn:Hk0; [|done].
  cbn. intros k [Hk | [= ->]]%elem_of_appendChild; eauto.
Qed.

Lemma fullGrid_registered (frames0 : list Frame) (state : option DashboardState)
    (k : nat) :
  Card k ∈ (fullGrid frames0 state).2 → ∃ id, idToFrame frames0 !! id = Some k.
Proof.
  rewrite fullGrid_unfold, placeHidden_place. revert k.
  apply foldl_place_registered. cbn [snd]. intros k [Hk | Hk]%elem_of_app.
  - revert k Hk. unfold visibleGrid. rewrite placeVisible_place.
    apply foldl_place_registered. cbn. by intros k ?%elem_of_nil.
  - destruct (hiddenOrder frames0 state); [by apply elem_of_nil in Hk|].
    apply list_elem_of_singleton in Hk. discriminate.
Qed.

Lemma fullGrid_ids (frames0 : list Frame) (state : option DashboardState) :
  getFrameId <$> (fullGrid frames0 state).1 = getFrameId <$> frames0.
Proof.
  assert (Hplace : ∀ g (m : gmap string nat) ids,
             (∀ id f, getFrameId (g id f) = getFrameId f) →
             ∀ dom, getFrameId <$> (foldl (place g m) dom ids).1 = getFrameId <$> dom.1).
  { intros g m ids Hg. induction ids as [|id ids IH]; intros dom; [done|].
    cbn. rewrite IH. unfold place. destruct (m !! id) as [k|]; [|done].
    cbn. rewrite (list_fmap_alter getFrameId (g id) (λ x, x)).
    - apply list_eq. intros j. destruct (decide (j = k)) as [->|Hne].
      + rewrite list_lookup_alter_eq. by destruct (_ !! k).
      + by rewrite list_lookup_alter_ne.
    - apply Forall_forall. intros f _. apply Hg. }
  rewrite fullGrid_unfold, placeHidden_place, Hplace by done.
  cbn [fst]. unfold visibleGrid. rewrite placeVisible_place, Hplace by done.
  cbn [fst]. rewrite <- list_fmap_compose. apply list_fmap_ext.
  intros i f _. apply getFrameId_assignId.
Qed.

Lemma NoDup_omap_inj {A B} (f : A → option B) (l : list A) :
  NoDup l →
  (∀ x y b, x ∈ l → y ∈ l → f x = Some b → f y = Some b → x = y) →
  NoDup (omap f l).
Proof.
  induction 1 as [|x l Hx Hnd IH]; intros Hinj; [constructor|].
  cbn. destruct (f x) as [b|] eqn:Hb.
  - apply NoDup_cons. split.
    + intros (y & Hy & Hfy)%list_elem_of_omap.
      apply Hx. by rewrite (Hinj x y b); [|left|right|..].
    + apply IH. intros y z c Hy Hz. apply Hinj; by right.
  - apply IH. intros y z c Hy Hz. apply Hinj; by right.
Qed.

(** Whatever is stored and however the ids collide, the order that
    [persistOrder] saves from the grid just built names no id twice: the
    extension itself never writes a stored order with a duplicate. *)
Lemma setupDashboard_order_NoDup (frames0 : list Frame) (σ : Store) :
  NoDup (order (snapshot (setupDashboard frames0 σ))).
Proof.
  cbn [snapshot order]. unfold getCurrentOrder.
  apply NoDup_omap_inj; [apply setupDashboard_NoDup|].
  unfold setupDashboard. cbn [wrapper frames cardOf].
  generalize (loadDashboardState σ). intros state.
  assert (Hreg : ∀ n id, n ∈ (fullGrid frames0 state).2 →
            getFrameId <$> cardOf {| frames := (fullGrid frames0 state).1;
                                     wrapper := (fullGrid frames0 state).2;
                                     editMode := false; dragged := None |} n = Some id →
            n = Card (default 0%nat (idToFrame frames0 !! id))).
  { intros [k|] id Hn Hid; [|done]. cbn in Hid. f_equal.
    destruct (fullGrid_registered frames0 state k Hn) as (id' & Hk).
    rewrite <- list_lookup_fmap, fullGrid_ids in Hid.
    destruct (idToFrame_frame frames0 id' k Hk) as (f & Hf & Hid').
    rewrite list_lookup_fmap, Hf in Hid. cbn in Hid.
    assert (id' = id) as -> by congruence. by rewrite Hk. }
  intros x y b Hx Hy Hfx Hfy.
  by rewrite (Hreg x b Hx Hfx), (Hreg y b Hy Hfy).
Qed.

(** * Further properties *)

(** ** The grid under the listeners *)

Lemma onMessage_toggleEdit (c : Session * Store) :
  onMessage TOGGLE_DASHBOARD_EDIT {| dashboardEditState := Some c.1; store := c.2 |} =
    ({| dashboardEditState := Some (toggleEdit c).1; store := (toggleEdit c).2 |},
     Active (editMode (toggleEdit c).1)).
Proof. reflexivity. Qed.

Lemma removeChild_app (w1 w2 : list Node) (n : Node) :
  removeChild (w1 ++ w2) n = removeChild w1 n ++ removeChild w2 n.
Proof. unfold removeChild. apply filter_app. Qed.

Lemma removeChild_cards (ks : list nat) (k : nat) :
  removeChild (Card <$> ks) (Card k) = Card <$> filter (λ j, j ≠ k) ks.
Proof.
  unfold removeChild. induction ks as [|j ks IH]; [done|].
  cbn [fmap list_fmap]. destruct (decide (j = k)) as [->|Hne].
  - rewrite filter_cons_False by (intros H; by apply H).
    rewrite (filter_cons_False (λ j, j ≠ k)) by (intros H; by apply H). done.
  - rewrite filter_cons_True by congruence.
    rewrite (filter_cons_True (λ j, j ≠ k)) by done.
    cbn [fmap list_fmap]. by f_equal.
Qed.

Lemma Divider_not_card (ks : list nat) : Divider ∉ (Card <$> ks).
Proof. intros (k & Hk & _)%list_elem_of_fmap. discriminate. Qed.

Lemma elem_of_cards (ks : list nat) (k : nat) : Card k ∈ (Card <$> ks) ↔ k ∈ ks.
Proof.
  rewrite list_elem_of_fmap. split.
  - by intros (j & [= ->] & Hj).
  - intros Hk. by exists k.
Qed.

Lemma removeChild_Divider_cards (ks : list nat) :
  removeChild (Card <$> ks) Divider = Card <$> ks.
Proof. apply removeChild_fresh, Divider_not_card. Qed.

Lemma filter_ne_fresh (ks : list nat) (k : nat) : k ∉ ks → filter (λ j, j ≠ k) ks = ks.
Proof.
  intros Hk. apply filter_all, Forall_forall. intros j Hj ->. done.
Qed.

Lemma NoDup_filter_snoc (ks : list nat) (k : nat) :
  NoDup ks → NoDup (filter (λ j, j ≠ k) ks ++ [k]).
Proof.
  intros Hnd. apply NoDup_app. split; [by apply NoDup_filter|].
  split; [|apply NoDup_singleton].
  intros j [Hj _]%list_elem_of_filter ->%list_elem_of_singleton. done.
Qed.

Lemma elem_of_filter_snoc (ks : list nat) (k j : nat) :
  j ∈ filter (λ i, i ≠ k) ks ++ [k] ↔ j ∈ ks ∨ j = k.
Proof.
  rewrite elem_of_app, list_elem_of_filter, list_elem_of_singleton.
  destruct (decide (j = k)); naive_solver.
Qed.

(** The wrapper after one of the two loops of [setupDashboard], started
    behind a prefix [pre] that holds none of the cards to place. *)
Lemma foldl_place_wrapper_gen g (m : gmap string nat) (pre : list Node)
    (ids : list string) :
  (∀ id k, id ∈ ids → m !! id = Some k → Card k ∉ pre) →
  ∀ (dom : list Frame * list Node) (ks : list nat),
    dom.2 = pre ++ (Card <$> ks) → NoDup ks →
    ∃ ks', (foldl (place g m) dom ids).2 = pre ++ (Card <$> ks') ∧
           NoDup ks' ∧
           ∀ k, k ∈ ks' ↔ k ∈ ks ∨ ∃ id, id ∈ ids ∧ m !! id = Some k.
Proof.
  induction ids as [|id ids IH]; intros Hpre dom ks Hdom Hnd.
  - exists ks. split; [done|]. split; [done|]. intros k. split; [by left|].
    intros [?|(id & ?%elem_of_nil & _)]; done.
  - cbn [foldl]. destruct (m !! id) as [k|] eqn:Hk.
    + destruct (IH (λ id' k' Hid', Hpre id' k' (list_elem_of_further _ _ _ Hid'))
                  (place g m dom id) (filter (λ j, j ≠ k) ks ++ [k]))
        as (ks' & Hw & Hnd' & Hin).
      * rewrite (place_Some g m dom id k Hk). cbn [snd]. rewrite Hdom.
        unfold appendChild. rewrite removeChild_app, removeChild_cards.
        rewrite removeChild_fresh by (apply (Hpre id k); [left | done]).
        by rewrite fmap_app, <- !app_assoc.
      * by apply NoDup_filter_snoc.
      * exists ks'. split; [done|]. split; [done|]. intros j. rewrite Hin.
        rewrite elem_of_filter_snoc. split.
        -- intros [[?| ->]|(id' & Hid' & Hm)]; [by left | | ].
           ++ right. exists id. split; [left | done].
           ++ right. exists id'. split; [by right | done].
        -- intros [?|(id' & [-> | Hid']%elem_of_cons & Hm)].
           ++ by left; left.
           ++ left; right. congruence.
           ++ right. by exists id'.
    + destruct (IH (λ id' k' Hid', Hpre id' k' (list_elem_of_further _ _ _ Hid'))
                  (place g m dom id) ks) as (ks' & Hw & Hnd' & Hin).
      * unfold place. by rewrite Hk.
      * done.
      * exists ks'. split; [done|]. split; [done|]. intros j. rewrite Hin.
        split.
        -- intros [?|(id' & Hid' & Hm)]; [by left|]. right. exists id'.
           split; [by right | done].
        -- intros [?|(id' & [-> | Hid']%elem_of_cons & Hm)]; [by left | congruence |].
           right. by exists id'.
Qed.

Lemma foldl_place_length g (m : gmap string nat) (ids : list string) :
  ∀ dom, length (foldl (place g m) dom ids).1 = length dom.1.
Proof.
  induction ids as [|id ids IH]; intros dom; [done|].
  cbn [foldl]. rewrite IH. unfold place. destruct (m !! id); [|done].
  cbn. apply length_alter.
Qed.

(** What the last visit of a card leaves on it. *)
Lemma foldl_place_frames_placed g (m : gmap string nat) (Q : Frame → Prop)
    (id : string) (k : nat) (ids : list string) :
  (∀ f, Q (g id f)) →
  (∀ id', id' ∈ ids → m !! id' = Some k → id' = id) →
  id ∈ ids → m !! id = Some k →
  ∀ dom, is_Some (dom.1 !! k) →
         ∃ f, (foldl (place g m) dom ids).1 !! k = Some f ∧ Q f.
Proof.
  intros HQ. induction ids as [|x ids IH] using rev_ind; intros Hinj Hid Hk dom Hdom.
  - by apply elem_of_nil in Hid.
  - rewrite foldl_snoc.
    assert (Hprev : is_Some ((foldl (place g m) dom ids).1 !! k)).
    { apply lookup_lt_is_Some. rewrite foldl_place_length.
      by apply lookup_lt_is_Some. }
    destruct (decide (m !! x = Some k)) as [Hx|Hx].
    + assert (x = id) as -> by (apply Hinj; [apply elem_of_app; right; left | done]).
      rewrite (place_Some g m _ id k Hk). cbn [fst].
      rewrite list_lookup_alter_eq. destruct Hprev as [f ->]. cbn. eauto.
    + assert (Hid' : id ∈ ids).
      { apply elem_of_app in Hid as [?| ->%list_elem_of_singleton]; [done | congruence]. }
      destruct (IH (λ id' H', Hinj id' (proj2 (elem_of_app _ _ _) (or_introl H')))
                  Hid' Hk dom Hdom) as (f & Hf & HQf).
      exists f. split; [|done]. rewrite <- Hf.
      unfold place. destruct (m !! x) as [k0|] eqn:Hk0; [|done].
      cbn. apply list_lookup_alter_ne. congruence.
Qed.

Lemma visible_not_hidden_id (frames0 : list Frame) (state : option DashboardState)
    (id id' : string) (k : nat) :
  id ∈ visibleOrder frames0 state → id' ∈ hiddenOrder frames0 state →
  idToFrame frames0 !! id = Some k → idToFrame frames0 !! id' = Some k → False.
Proof.
  intros Hv Hh Hk Hk'. rewrite (idToFrame_inj frames0 id id' k Hk Hk') in Hv.
  by apply (visible_hidden_disjoint frames0 state id').
Qed.

Lemma visible_live (frames0 : list Frame) (state : option DashboardState) (id : string) :
  id ∈ visibleOrder frames0 state → is_Some (idToFrame frames0 !! id).
Proof.
  intros Hid. apply idToFrame_is_Some, (elem_of_visible_hidden frames0 state id).
  apply elem_of_app. by left.
Qed.

Lemma hidden_live (frames0 : list Frame) (state : option DashboardState) (id : string) :
  id ∈ hiddenOrder frames0 state → is_Some (idToFrame frames0 !! id).
Proof.
  intros Hid. apply idToFrame_is_Some, (elem_of_visible_hidden frames0 state id).
  apply elem_of_app. by right.
Qed.

(** The wrapper that [setupDashboard] builds: the cards of [visibleOrder],
    then, when [hiddenOrder] is not empty, the divider and the cards of
    [hiddenOrder]. *)
Lemma fullGrid_shape (frames0 : list Frame) (state : option DashboardState) :
  ∃ vs hs,
    (fullGrid frames0 state).2 = (Card <$> vs) ++ dividerOf hs ++ (Card <$> hs) ∧
    NoDup vs ∧ NoDup hs ∧
    (∀ k, k ∈ vs ↔ ∃ id, id ∈ visibleOrder frames0 state ∧
                         idToFrame frames0 !! id = Some k) ∧
    (∀ k, k ∈ hs ↔ ∃ id, id ∈ hiddenOrder frames0 state ∧
                         idToFrame frames0 !! id = Some k).
Proof.
  destruct (foldl_place_wrapper_gen (λ id, applySpan (getSpan state id))
              (idToFrame frames0) [] (visibleOrder frames0 state)
              (λ _ _ _ _, not_elem_of_nil _)
              (assignId <$> frames0, []) [] eq_refl (NoDup_nil_2))
    as (vs & Hvs & Hndv & Hinv).
  fold (place (λ id, applySpan (getSpan state id)) (idToFrame frames0)) in Hvs.
  rewrite <- placeVisible_place in Hvs. fold (visibleGrid frames0 state) in Hvs.
  cbn [app] in Hvs.
  assert (Hinv' : ∀ k, k ∈ vs ↔ ∃ id, id ∈ visibleOrder frames0 state ∧
                                      idToFrame frames0 !! id = Some k).
  { intros k. rewrite Hinv. split; [|by right].
    intros [?%elem_of_nil|?]; done. }
  rewrite fullGrid_unfold, placeHidden_place.
  destruct (hiddenOrder frames0 state) as [|id0 ids0] eqn:HH.
  - exists vs, []. cbn. rewrite !app_nil_r. split; [done|]. split; [done|].
    split; [constructor|]. split; [done|].
    intros k. split; [by intros ?%elem_of_nil|].
    by intros (id & ?%elem_of_nil & _).
  - rewrite <- HH.
    destruct (foldl_place_wrapper_gen
                (λ id f, applySpan (getSpan state id) (setHiddenCard true f))
                (idToFrame frames0) ((Card <$> vs) ++ [Divider])
                (hiddenOrder frames0 state)) with
      (dom := ((visibleGrid frames0 state).1, (visibleGrid frames0 state).2 ++ [Divider]))
      (ks := @nil nat)
      as (hs & Hhs & Hndh & Hinh).
    + intros id k Hid Hk [Hin|Hin]%elem_of_app.
      * apply elem_of_cards, Hinv' in Hin as (id' & Hid' & Hk').
        by apply (visible_not_hidden_id frames0 state id' id k).
      * apply list_elem_of_singleton in Hin. discriminate.
    + cbn [snd]. by rewrite Hvs, app_nil_r.
    + constructor.
    + assert (Hne : hs ≠ []).
      { destruct (hidden_live frames0 state id0) as [k Hk]; [rewrite HH; left|].
        intros ->. apply (not_elem_of_nil k), Hinh. right. exists id0.
        split; [rewrite HH; left | done]. }
      exists vs, hs. split.
      { rewrite Hhs. destruct hs; [done|]. cbn [dividerOf]. by rewrite <- app_assoc. }
      split; [done|]. split; [done|]. split; [done|].
      intros k. rewrite Hinh. split; [|by right].
      intros [?%elem_of_nil|?]; done.
Qed.

(** The cards that [setupDashboard] places: a card of [visibleOrder] keeps
    the class it had, a card of [hiddenOrder] gets [bu-hidden-card], and
    both carry the resolved span. *)
Lemma fullGrid_frame (frames0 : list Frame) (state : option DashboardState)
    (id : string) (k : nat) :
  Forall (λ f, f_hiddenCard f = false) frames0 →
  idToFrame frames0 !! id = Some k →
  (id ∈ visibleOrder frames0 state →
   ∃ f, (fullGrid frames0 state).1 !! k = Some f ∧
        f_hiddenCard f = false ∧ f_buSpan f = Some (getSpan state id)) ∧
  (id ∈ hiddenOrder frames0 state →
   ∃ f, (fullGrid frames0 state).1 !! k = Some f ∧
        f_hiddenCard f = true ∧ f_buSpan f = Some (getSpan state id)).
Proof.
  intros Hpristine Hk.
  destruct (idToFrame_frame frames0 id k Hk) as (f0 & Hf0 & Hid0).
  assert (Hvis : Forall (λ f, f_hiddenCard f = false) (visibleGrid frames0 state).1).
  { unfold visibleGrid. rewrite placeVisible_place.
    apply foldl_place_Forall; [done|]. cbn [fst]. apply Forall_fmap.
    eapply Forall_impl; [exact Hpristine|]. intros f Hf. cbn.
    by rewrite f_hiddenCard_assignId. }
  rewrite fullGrid_unfold, placeHidden_place. split.
  - intros Hv. rewrite foldl_place_frames_other.
    2:{ intros id' Hid' Hk'. by apply (visible_not_hidden_id frames0 state id id' k). }
    cbn [fst]. unfold visibleGrid in *. rewrite placeVisible_place in *.
    destruct (foldl_place_frames_placed (λ id, applySpan (getSpan state id))
                (idToFrame frames0) (λ f, f_buSpan f = Some (getSpan state id))
                id k (visibleOrder frames0 state))
      with (dom := (assignId <$> frames0, @nil Node)) as (f & Hf & Hspan).
    + done.
    + intros id' _ Hk'. by apply (idToFrame_inj frames0 id' id k).
    + done.
    + done.
    + cbn [fst]. rewrite list_lookup_fmap, Hf0. by eexists.
    + exists f. split; [done|]. split; [|done].
      by apply (proj1 (Forall_lookup _ _) Hvis k f).
  - intros Hh.
    destruct (foldl_place_frames_placed
                (λ id f, applySpan (getSpan state id) (setHiddenCard true f))
                (idToFrame frames0)
                (λ f, f_hiddenCard f = true ∧ f_buSpan f = Some (getSpan state id))
                id k (hiddenOrder frames0 state))
      with (dom := ((visibleGrid frames0 state).1,
                    (visibleGrid frames0 state).2 ++
                      match hiddenOrder frames0 state with [] => [] | _ => [Divider] end))
      as (f & Hf & Hhid & Hspan).
    + done.
    + intros id' _ Hk'. by apply (idToFrame_inj frames0 id' id k).
    + done.
    + done.
    + cbn [fst]. apply lookup_lt_is_Some. unfold visibleGrid.
      rewrite placeVisible_place, foldl_place_length. cbn [fst].
      rewrite length_fmap. by apply lookup_lt_is_Some; eexists.
    + by exists f.
Qed.

(** A page load leaves a well-formed grid: the visible cards in
    [visibleOrder], then the divider and the hidden cards when there are
    any, every registered element in it exactly once and every card with a
    span of [SPAN_OPTIONS], provided the host elements do not carry the
    class [bu-hidden-card] yet. *)
Lemma setupDashboard_wellFormed (frames0 : list Frame) (σ : Store) :
  Forall (λ f, f_hiddenCard f = false) frames0 →
  wellFormed (idToFrame frames0) (setupDashboard frames0 σ).
Proof.
  intros Hpristine. unfold setupDashboard. cbv zeta.
  generalize (loadDashboardState σ). intros state.
  destruct (fullGrid_shape frames0 state) as (vs & hs & Hw & Hndv & Hndh & Hvs & Hhs).
  assert (Hcard : ∀ k, Card k ∈ (fullGrid frames0 state).2 ↔ k ∈ vs ∨ k ∈ hs).
  { intros k. rewrite Hw, !elem_of_app, !elem_of_cards. split; [|tauto].
    intros [?|[Hd|?]]; [tauto | | tauto]. destruct hs; [by apply elem_of_nil in Hd|].
    apply list_elem_of_singleton in Hd. discriminate. }
  split; cbn [frames wrapper dragged].
  - exists vs, hs. split; [done|]. split; apply Forall_forall; intros k Hk.
    + apply Hvs in Hk as (id & Hid & Hk).
      destruct (proj1 (fullGrid_frame frames0 state id k Hpristine Hk) Hid)
        as (f & Hf & Hh & _).
      unfold hiddenAt. cbn [frames]. by rewrite Hf.
    + apply Hhs in Hk as (id & Hid & Hk).
      destruct (proj2 (fullGrid_frame frames0 state id k Hpristine Hk) Hid)
        as (f & Hf & Hh & _).
      unfold hiddenAt. cbn [frames]. by rewrite Hf.
  - rewrite Hw. apply NoDup_app. split; [by apply NoDup_fmap_2; [intros ?? [=]|]|].
    split.
    + intros n (k & -> & Hk)%list_elem_of_fmap [Hd|Hh]%elem_of_app.
      * destruct hs; [by apply elem_of_nil in Hd|].
        apply list_elem_of_singleton in Hd. discriminate.
      * apply elem_of_cards in Hh.
        apply Hvs in Hk as (id & Hid & Hk). apply Hhs in Hh as (id' & Hid' & Hk').
        by apply (visible_not_hidden_id frames0 state id id' k).
    + apply NoDup_app. split.
      { destruct hs; [constructor | apply NoDup_singleton]. }
      split; [|by apply NoDup_fmap_2; [intros ?? [=]|]].
      intros n Hd Hn. destruct hs; [by apply elem_of_nil in Hd|].
      apply list_elem_of_singleton in Hd as ->. by apply Divider_not_card in Hn.
  - intros k Hk.
    assert (∃ id, idToFrame frames0 !! id = Some k) as [id Hid].
    { apply Hcard in Hk as [Hk|Hk]; [apply Hvs in Hk | apply Hhs in Hk];
        destruct Hk as (id & _ & Hk); eauto. }
    destruct (idToFrame_frame frames0 id k Hid) as (f0 & Hf0 & Hid0).
    pose proof (fullGrid_ids frames0 state) as Hids.
    apply (f_equal (λ l, l !! k)) in Hids.
    rewrite !list_lookup_fmap, Hf0 in Hids. cbn in Hids.
    apply fmap_Some in Hids as (f & Hf & Hfid).
    exists f. split; [done|]. by rewrite <- Hfid, Hid0.
  - intros id k Hk. apply Hcard.
    assert (Hlive : id ∈ visibleOrder frames0 state ++ hiddenOrder frames0 state).
    { apply elem_of_visible_hidden, idToFrame_is_Some. by eexists. }
    apply elem_of_app in Hlive as [Hv|Hh].
    + left. apply Hvs. eauto.
    + right. apply Hhs. eauto.
  - intros k f Hk Hf. exists (getSpan state (getFrameId f)).
    assert (∃ id, idToFrame frames0 !! id = Some k ∧
                  f_buSpan f = Some (getSpan state id) ∧ getFrameId f = id)
      as (id & Hid & Hspan & Hfid).
    { pose proof (fullGrid_ids frames0 state) as Hids.
      apply (f_equal (λ l, l !! k)) in Hids.
      rewrite !list_lookup_fmap, Hf in Hids. cbn in Hids.
      apply Hcard in Hk as [Hk|Hk]; [apply Hvs in Hk | apply Hhs in Hk];
        destruct Hk as (id & Hin & Hk); exists id; (split; [done|]).
      - destruct (proj1 (fullGrid_frame frames0 state id k Hpristine Hk) Hin)
          as (f' & Hf' & _ & Hs).
        destruct (idToFrame_frame frames0 id k Hk) as (f0 & Hf0 & Hid0).
        rewrite Hf0 in Hids. cbn in Hids. split; congruence.
      - destruct (proj2 (fullGrid_frame frames0 state id k Hpristine Hk) Hin)
          as (f' & Hf' & _ & Hs).
        destruct (idToFrame_frame frames0 id k Hk) as (f0 & Hf0 & Hid0).
        rewrite Hf0 in Hids. cbn in Hids. split; congruence. }
    rewrite Hfid. split; [done | apply getSpan_valid].
  - done.
Qed.

Lemma insertAt_split (l1 l2 : list Node) (c n : Node) :
  c ∉ l1 → insertAt (l1 ++ c :: l2) c n = l1 ++ n :: c :: l2.
Proof.
  induction l1 as [|x l1 IH]; intros Hc; cbn.
  - by rewrite bool_decide_eq_true_2.
  - apply not_elem_of_cons in Hc as [Hx Hc].
    rewrite bool_decide_eq_false_2 by congruence. by rewrite IH.
Qed.

Lemma nextSibling_split (a b : list Node) (t : Node) :
  t ∉ a → nextSibling (a ++ t :: b) t = head b.
Proof.
  induction a as [|x a IH]; intros Ht; cbn.
  - by rewrite bool_decide_eq_true_2.
  - apply not_elem_of_cons in Ht as [Hx Ht].
    rewrite bool_decide_eq_false_2 by congruence. by apply IH.
Qed.

Lemma split_unique {A} (l1 l2 l1' l2' : list A) (x : A) :
  x ∉ l1 → x ∉ l1' → l1 ++ x :: l2 = l1' ++ x :: l2' → l1 = l1' ∧ l2 = l2'.
Proof.
  revert l1'. induction l1 as [|y l1 IH]; intros [|y' l1'] H1 H1' Heq; cbn in Heq.
  - by simplify_eq.
  - simplify_eq. by apply not_elem_of_cons in H1' as [? _].
  - simplify_eq. by apply not_elem_of_cons in H1 as [? _].
  - apply not_elem_of_cons in H1 as [_ H1]. apply not_elem_of_cons in H1' as [_ H1'].
    injection Heq as -> Heq. by destruct (IH l1' H1 H1' Heq) as [-> ->].
Qed.

Lemma NoDup_removeChild (w : list Node) (n : Node) : NoDup w → NoDup (removeChild w n).
Proof. apply NoDup_filter. Qed.

Lemma elem_of_removeChild (w : list Node) (n c : Node) :
  c ∈ removeChild w n ↔ c ∈ w ∧ c ≠ n.
Proof. unfold removeChild. rewrite list_elem_of_filter. tauto. Qed.

Lemma removeChild_cons_ne (w : list Node) (n c : Node) :
  c ≠ n → removeChild (c :: w) n = c :: removeChild w n.
Proof. intros Hc. unfold removeChild. by rewrite filter_cons_True. Qed.

Lemma removeChild_cons_eq (w : list Node) (n : Node) :
  removeChild (n :: w) n = removeChild w n.
Proof. unfold removeChild. rewrite filter_cons_False; [done|]. intros H. by apply H. Qed.

(** [insertBefore(node, t)] puts [node] right before [t] and keeps the
    order of the other children. *)
Lemma insertBefore_before (w l1 l2 : list Node) (node t : Node) :
  NoDup w → t ≠ node → removeChild w node = l1 ++ t :: l2 →
  insertBefore w node (Some t) = Some (l1 ++ node :: t :: l2).
Proof.
  intros Hnd Hne Hrem. unfold insertBefore.
  assert (Ht : t ∈ w).
  { apply (elem_of_removeChild w node t). rewrite Hrem. set_solver. }
  rewrite bool_decide_eq_true_2 by done.
  rewrite bool_decide_eq_false_2 by done. rewrite Hrem.
  f_equal. apply insertAt_split.
  pose proof (NoDup_removeChild w node Hnd) as Hnd'. rewrite Hrem in Hnd'.
  apply NoDup_app in Hnd' as (_ & Hdisj & _). intros Hin.
  apply (Hdisj t Hin). left.
Qed.

(** [insertBefore(node, t.nextSibling)] puts [node] right after [t], also
    when [t] is the last child and when the sibling is [node] itself. *)
Lemma insertBefore_after (w l1 l2 : list Node) (node t : Node) :
  NoDup w → t ≠ node → removeChild w node = l1 ++ t :: l2 →
  insertBefore w node (nextSibling w t) = Some (l1 ++ t :: node :: l2).
Proof.
  intros Hnd Hne Hrem.
  assert (Ht : t ∈ w).
  { apply (elem_of_removeChild w node t). rewrite Hrem. set_solver. }
  apply list_elem_of_split in Ht as (a & b & ->).
  pose proof Hnd as Hnd0.
  apply NoDup_app in Hnd as (Hnda & Hdisj & Hndtb).
  apply NoDup_cons in Hndtb as [Htb Hndb].
  assert (Hta : t ∉ a) by (intros Hin; apply (Hdisj t Hin); left).
  rewrite nextSibling_split by done.
  rewrite removeChild_app, removeChild_cons_ne in Hrem by done.
  pose proof (NoDup_removeChild (a ++ t :: b) node Hnd0) as Hnd'.
  rewrite removeChild_app, removeChild_cons_ne in Hnd' by done.
  assert (Hl1 : t ∉ l1).
  { rewrite Hrem in Hnd'. apply NoDup_app in Hnd' as (_ & Hd & _).
    intros Hin. apply (Hd t Hin). left. }
  assert (Hra : t ∉ removeChild a node).
  { intros [? _]%elem_of_removeChild. done. }
  destruct (split_unique _ _ _ _ _ Hra Hl1 Hrem) as [<- <-].
  destruct b as [|c b]; cbn [head].
  - unfold insertBefore. rewrite removeChild_app, removeChild_cons_ne by done.
    cbn. by rewrite <- app_assoc.
  - unfold insertBefore. rewrite bool_decide_eq_true_2 by set_solver.
    apply NoDup_cons in Hndb as [Hcb Hndb].
    assert (Hca : c ∉ a).
    { intros Hin. apply (Hdisj c Hin). right; left. }
    assert (Hct : c ≠ t) by (intros ->; apply Htb; left).
    destruct (decide (c = node)) as [->|Hcn].
    + rewrite bool_decide_eq_true_2 by done.
      replace (a ++ t :: node :: b) with ((a ++ [t]) ++ node :: b)
        by (by rewrite <- app_assoc).
      rewrite nextSibling_split.
      2:{ rewrite elem_of_app, list_elem_of_singleton.
          intros [?|?]; [done | congruence]. }
      rewrite removeChild_app, removeChild_cons_eq.
      assert (Hat : removeChild (a ++ [t]) node = a ++ [t]).
      { apply removeChild_fresh. rewrite elem_of_app, list_elem_of_singleton.
        intros [?|?]; [done | congruence]. }
      rewrite Hat, (removeChild_fresh a node Hca), (removeChild_fresh b node Hcb).
      f_equal. destruct b as [|r b]; cbn [head].
      * by rewrite <- !app_assoc.
      * rewrite <- app_assoc. cbn [app].
        replace (a ++ t :: r :: b) with ((a ++ [t]) ++ r :: b)
          by (by rewrite <- app_assoc).
        rewrite insertAt_split; [by rewrite <- app_assoc|].
        apply NoDup_cons in Hndb as [Hrb _].
        rewrite elem_of_app, list_elem_of_singleton.
        intros [Hin| ->].
        -- apply (Hdisj r Hin). right; right; left.
        -- apply Htb. right; left.
    + rewrite bool_decide_eq_false_2 by done.
      rewrite removeChild_app, removeChild_cons_ne by done.
      rewrite removeChild_cons_ne by done. f_equal.
      replace (removeChild a node ++ t :: c :: removeChild b node)
        with ((removeChild a node ++ [t]) ++ c :: removeChild b node)
        by (by rewrite <- app_assoc).
      rewrite insertAt_split; [by rewrite <- app_assoc|].
      rewrite elem_of_app, list_elem_of_singleton, elem_of_removeChild.
      intros [[? _]|?]; [done | congruence].
Qed.

(** Live preview of a drag: when the dragged card and the target card
    are different cards of the same visibility partition, [onDragOver]
    leaves the dragged card right before the target if the pointer is above
    the middle of the target and right after it otherwise; the other nodes
    keep their order, and nothing but the wrapper changes. *)
Lemma onDragOver_between (s : Session) (d t : nat) (above : bool)
    (fd ft : Frame) (l1 l2 : list Node) :
  NoDup (wrapper s) → dragged s = Some d → t ≠ d →
  frames s !! d = Some fd → frames s !! t = Some ft →
  f_hiddenCard fd = f_hiddenCard ft →
  removeChild (wrapper s) (Card d) = l1 ++ Card t :: l2 →
  onDragOver (Some t) above s =
    withGrid s (frames s)
      (if above then l1 ++ Card d :: Card t :: l2 else l1 ++ Card t :: Card d :: l2).
Proof.
  intros Hnd Hd Hne Hfd Hft Hsame Hrem. unfold onDragOver.
  rewrite Hd, Hfd, Hft. rewrite bool_decide_eq_false_2 by done.
  rewrite bool_decide_eq_false_2 by (intros H; by apply H).
  assert (Hne' : Card t ≠ Card d) by congruence.
  unfold withGrid. rewrite Hd. destruct above.
  - by rewrite (insertBefore_before _ l1 l2 _ _ Hnd Hne' Hrem).
  - by rewrite (insertBefore_after _ l1 l2 _ _ Hnd Hne' Hrem).
Qed.

(** *** The invariant under the listeners *)

Lemma wellFormed_intro (m : gmap string nat) (s s' : Session) :
  wellFormed m s →
  shaped s' → NoDup (wrapper s') →
  (∀ k, Card k ∈ wrapper s' ↔ Card k ∈ wrapper s) →
  (∀ k, getFrameId <$> frames s' !! k = getFrameId <$> frames s !! k) →
  (∀ k f, Card k ∈ wrapper s' → frames s' !! k = Some f →
          ∃ v, f_buSpan f = Some v ∧ v ∈ SPAN_OPTIONS) →
  (∀ d, dragged s' = Some d → Card d ∈ wrapper s') →
  wellFormed m s'.
Proof.
  intros Hwf Hshape Hnd Hcards Hids Hspans Hdrag. split; try done.
  - intros k Hk. apply Hcards in Hk.
    destruct (wf_registered m s Hwf k Hk) as (f & Hf & Hm).
    specialize (Hids k). rewrite Hf in Hids. cbn in Hids.
    apply fmap_Some in Hids as (f' & Hf' & Hid). exists f'. split; [done|].
    by rewrite <- Hid.
  - intros id k Hk. apply Hcards. by apply (wf_complete m s Hwf id).
Qed.

Lemma shape_disjoint (vs hs : list nat) :
  NoDup ((Card <$> vs) ++ dividerOf hs ++ (Card <$> hs)) →
  NoDup vs ∧ NoDup hs ∧ ∀ k, k ∈ vs → k ∉ hs.
Proof.
  intros (Hvs & Hd & (_ & _ & Hhs)%NoDup_app)%NoDup_app.
  split; [by apply (NoDup_fmap_1 Card)|]. split; [by apply (NoDup_fmap_1 Card)|].
  intros k Hk Hh. apply (Hd (Card k)); [by apply elem_of_cards|].
  apply elem_of_app. right. by apply elem_of_cards.
Qed.

Lemma shape_cards (vs hs : list nat) (k : nat) :
  Card k ∈ (Card <$> vs) ++ dividerOf hs ++ (Card <$> hs) ↔ k ∈ vs ∨ k ∈ hs.
Proof.
  rewrite !elem_of_app, !elem_of_cards. split; [|tauto].
  intros [?|[Hd|?]]; [tauto | | tauto].
  destruct hs; [by apply elem_of_nil in Hd|].
  apply list_elem_of_singleton in Hd. discriminate.
Qed.

Lemma shape_divider (vs hs : list nat) :
  Divider ∈ (Card <$> vs) ++ dividerOf hs ++ (Card <$> hs) ↔ hs ≠ [].
Proof.
  rewrite !elem_of_app. split.
  - intros [Hd|[Hd|Hd]]; [by apply Divider_not_card in Hd | | by apply Divider_not_card in Hd].
    destruct hs; [by apply elem_of_nil in Hd | done].
  - intros Hne. right; left. destruct hs; [done | left].
Qed.

Lemma removeChild_dividerOf (hs : list nat) (k : nat) :
  removeChild (dividerOf hs) (Card k) = dividerOf hs.
Proof. by destruct hs. Qed.

Lemma removeChild_Permutation (w : list Node) (n : Node) :
  NoDup w → n ∈ w → w ≡ₚ n :: removeChild w n.
Proof.
  intros Hnd Hn. apply NoDup_Permutation; [done| |].
  - apply NoDup_cons. split; [|by apply NoDup_removeChild].
    intros [_ ?]%elem_of_removeChild. done.
  - intros c. rewrite elem_of_cons, elem_of_removeChild.
    destruct (decide (c = n)) as [->|]; naive_solver.
Qed.

Lemma hiddenAt_withGrid (s : Session) (fs : list Frame) (w : list Node) (k : nat) :
  hiddenAt (withGrid s fs w) k = from_option f_hiddenCard false (fs !! k).
Proof. reflexivity. Qed.

(** A drag-over between two cards of one partition keeps the grid well
    formed. *)
Lemma onDragOver_wellFormed (m : gmap string nat) (s : Session) (t : nat)
    (above : bool) :
  wellFormed m s → Card t ∈ wrapper s →
  wellFormed m (onDragOver (Some t) above s).
Proof.
  intros Hwf Ht.
  destruct (dragged s) as [d|] eqn:Hd; [|by unfold onDragOver; rewrite Hd].
  destruct (decide (t = d)) as [->|Hne].
  { unfold onDragOver. rewrite Hd. by rewrite bool_decide_eq_true_2. }
  pose proof (wf_dragged m s Hwf d Hd) as Hdw.
  destruct (wf_registered m s Hwf d Hdw) as (fd & Hfd & _).
  destruct (wf_registered m s Hwf t Ht) as (ft & Hft & _).
  destruct (decide (f_hiddenCard fd = f_hiddenCard ft)) as [Hsame|Hdiff].
  2:{ unfold onDragOver. rewrite Hd, Hfd, Hft.
      rewrite bool_decide_eq_false_2 by done. by rewrite bool_decide_eq_true_2. }
  pose proof (wf_NoDup m s Hwf) as Hnd.
  destruct (wf_shape m s Hwf) as (vs & hs & Hw & Hvis & Hhid).
  pose proof Hnd as Hnd0. rewrite Hw in Hnd0.
  destruct (shape_disjoint vs hs Hnd0) as (Hndv & Hndh & Hsep).
  assert (Hhd : hiddenAt s d = f_hiddenCard fd) by (unfold hiddenAt; by rewrite Hfd).
  assert (Hht : hiddenAt s t = f_hiddenCard ft) by (unfold hiddenAt; by rewrite Hft).
  rewrite Hw in Hdw, Ht. apply shape_cards in Hdw, Ht.
  (* the new wrapper, whatever the side *)
  assert (Hgoal : ∀ l1 l2 vs' hs',
            removeChild (wrapper s) (Card d) = l1 ++ Card t :: l2 →
            (if above then l1 ++ Card d :: Card t :: l2 else l1 ++ Card t :: Card d :: l2)
              = (Card <$> vs') ++ dividerOf hs' ++ (Card <$> hs') →
            (∀ k, k ∈ vs' → k ∈ vs) → (∀ k, k ∈ hs' → k ∈ hs) →
            wellFormed m (onDragOver (Some t) above s)).
  { intros l1 l2 vs' hs' Hrem Hnew Hvs' Hhs'.
    rewrite (onDragOver_between s d t above fd ft l1 l2 Hnd Hd Hne Hfd Hft Hsame Hrem).
    rewrite Hnew.
    assert (Hperm : (Card <$> vs') ++ dividerOf hs' ++ (Card <$> hs') ≡ₚ wrapper s).
    { rewrite <- Hnew.
      rewrite (removeChild_Permutation (wrapper s) (Card d) Hnd)
        by (rewrite Hw; by apply shape_cards).
      rewrite Hrem. destruct above.
      - symmetry. apply Permutation_middle.
      - transitivity (l1 ++ Card d :: Card t :: l2).
        + apply Permutation_app_head, perm_swap.
        + symmetry. apply Permutation_middle. }
    apply (wellFormed_intro m s); [done| | | | | |]; cbn [wrapper frames dragged withGrid].
    - exists vs', hs'. split; [done|]. split; apply Forall_forall; intros k Hk.
      + rewrite hiddenAt_withGrid. by apply (proj1 (Forall_forall _ _) Hvis), Hvs'.
      + rewrite hiddenAt_withGrid. by apply (proj1 (Forall_forall _ _) Hhid), Hhs'.
    - by rewrite Hperm.
    - intros k. by rewrite Hperm.
    - done.
    - intros k f Hk Hf. rewrite Hperm in Hk. by apply (wf_spans m s Hwf k f).
    - intros d' Hd'. rewrite Hperm. by apply (wf_dragged m s Hwf). }
  destruct Hdw as [Hdv|Hdh].
  - (* both visible *)
    assert (Htv : t ∈ vs).
    { destruct Ht as [?|Hth]; [done|].
      pose proof (proj1 (Forall_forall _ _) Hvis d Hdv).
      pose proof (proj1 (Forall_forall _ _) Hhid t Hth). congruence. }
    assert (Htf : t ∈ filter (λ j, j ≠ d) vs) by (by apply list_elem_of_filter).
    apply list_elem_of_split in Htf as (a & b & Hab).
    assert (Hrem : removeChild (wrapper s) (Card d) =
                   (Card <$> a) ++ Card t :: ((Card <$> b) ++ dividerOf hs ++ (Card <$> hs))).
    { rewrite Hw, !removeChild_app, removeChild_cards, removeChild_dividerOf.
      rewrite (removeChild_cards hs), (filter_ne_fresh hs d) by (by apply Hsep).
      rewrite Hab, fmap_app. cbn [fmap list_fmap]. by rewrite <- app_assoc. }
    assert (Hsub : ∀ k, k ∈ a ++ t :: b → k ∈ vs).
    { intros k Hk. rewrite <- Hab in Hk. by apply list_elem_of_filter in Hk as [_ ?]. }
    apply (Hgoal _ _ (if above then a ++ d :: t :: b else a ++ t :: d :: b) hs Hrem).
    + destruct above; rewrite fmap_app; cbn [fmap list_fmap]; by rewrite <- !app_assoc.
    + intros k Hk. destruct above.
      * apply elem_of_app in Hk as [Hk|[->|Hk]%elem_of_cons]; [|done|].
        -- apply Hsub. apply elem_of_app. by left.
        -- apply Hsub. apply elem_of_app. by right.
      * apply elem_of_app in Hk as [Hk|[->|[->|Hk]%elem_of_cons]%elem_of_cons]; [| |done|].
        -- apply Hsub. apply elem_of_app. by left.
        -- apply Hsub. apply elem_of_app. right. left.
        -- apply Hsub. apply elem_of_app. right. by right.
    + done.
  - (* both hidden *)
    assert (Hth : t ∈ hs).
    { destruct Ht as [Htv|?]; [|done].
      pose proof (proj1 (Forall_forall _ _) Hhid d Hdh).
      pose proof (proj1 (Forall_forall _ _) Hvis t Htv). congruence. }
    assert (Hdv : d ∉ vs) by (intros Hin; by apply (Hsep d)).
    assert (Htf : t ∈ filter (λ j, j ≠ d) hs) by (by apply list_elem_of_filter).
    apply list_elem_of_split in Htf as (a & b & Hab).
    assert (Hdiv : dividerOf hs = [Divider]) by (destruct hs; [by apply elem_of_nil in Hth | done]).
    assert (Hrem : removeChild (wrapper s) (Card d) =
                   ((Card <$> vs) ++ [Divider] ++ (Card <$> a)) ++ Card t :: (Card <$> b)).
    { rewrite Hw, !removeChild_app, removeChild_cards, removeChild_dividerOf.
      rewrite (filter_ne_fresh vs d) by done.
      rewrite (removeChild_cards hs), Hab, fmap_app, Hdiv. cbn [fmap list_fmap].
      by rewrite <- !app_assoc. }
    assert (Hsub : ∀ k, k ∈ a ++ t :: b → k ∈ hs).
    { intros k Hk. rewrite <- Hab in Hk. by apply list_elem_of_filter in Hk as [_ ?]. }
    apply (Hgoal _ _ vs (if above then a ++ d :: t :: b else a ++ t :: d :: b) Hrem).
    + destruct above; rewrite fmap_app; cbn [fmap list_fmap dividerOf];
        (destruct a; cbn [app dividerOf]; by rewrite <- !app_assoc).
    + done.
    + intros k Hk. destruct above.
      * apply elem_of_app in Hk as [Hk|[->|Hk]%elem_of_cons]; [|done|].
        -- apply Hsub. apply elem_of_app. by left.
        -- apply Hsub. apply elem_of_app. by right.
      * apply elem_of_app in Hk as [Hk|[->|[->|Hk]%elem_of_cons]%elem_of_cons]; [| |done|].
        -- apply Hsub. apply elem_of_app. by left.
        -- apply Hsub. apply elem_of_app. right. left.
        -- apply Hsub. apply elem_of_app. right. by right.
Qed.

Lemma shaped_frames (s s' : Session) :
  wrapper s' = wrapper s →
  (∀ k, f_hiddenCard <$> frames s' !! k = f_hiddenCard <$> frames s !! k) →
  shaped s → shaped s'.
Proof.
  intros Hw Hh (vs & hs & Hs & Hv & Hhid). exists vs, hs.
  assert (Hat : ∀ k, hiddenAt s' k = hiddenAt s k).
  { intros k. unfold hiddenAt. specialize (Hh k).
    destruct (frames s' !! k), (frames s !! k); by simplify_eq/=. }
  rewrite Hw. split; [done|].
  split; eapply Forall_impl; eauto; intros k Hk; cbn in *; by rewrite Hat.
Qed.

Lemma alter_lookup_fmap {B} (h : Frame → B) (g : Frame → Frame) (fs : list Frame)
    (k j : nat) :
  (∀ f, h (g f) = h f) → h <$> alter g k fs !! j = h <$> fs !! j.
Proof.
  intros Hg. destruct (decide (j = k)) as [->|Hne].
  - rewrite list_lookup_alter_eq. destruct (fs !! k); cbn; [by rewrite Hg | done].
  - by rewrite list_lookup_alter_ne.
Qed.

(** A change of the class [bu-dragging] or of the span of one card, with
    the wrapper as it was. *)
Lemma wellFormed_alter (m : gmap string nat) (s : Session) (g : Frame → Frame)
    (k : nat) (e : bool) (dr : option nat) :
  wellFormed m s →
  (∀ f, getFrameId (g f) = getFrameId f) →
  (∀ f, f_hiddenCard (g f) = f_hiddenCard f) →
  (∀ f, f_buSpan (g f) = f_buSpan f ∨ ∃ v, f_buSpan (g f) = Some v ∧ v ∈ SPAN_OPTIONS) →
  (∀ d, dr = Some d → Card d ∈ wrapper s) →
  wellFormed m {| frames := alter g k (frames s); wrapper := wrapper s;
                  editMode := e; dragged := dr |}.
Proof.
  intros Hwf Hid Hhid Hspan Hdr.
  apply (wellFormed_intro m s); [done| | | | | |]; cbn [wrapper frames dragged].
  - apply (shaped_frames s); [done| |apply (wf_shape m s Hwf)].
    intros j. cbn [frames]. by apply alter_lookup_fmap.
  - apply (wf_NoDup m s Hwf).
  - done.
  - intros j. by apply alter_lookup_fmap.
  - intros j f Hj Hf. destruct (decide (j = k)) as [->|Hne].
    + rewrite list_lookup_alter_eq in Hf.
      destruct (frames s !! k) as [f0|] eqn:Hf0; [|done]. cbn in Hf.
      injection Hf as <-. destruct (Hspan f0) as [->|?]; [|done].
      by apply (wf_spans m s Hwf k f0).
    + rewrite list_lookup_alter_ne in Hf by done.
      by apply (wf_spans m s Hwf j f).
  - done.
Qed.

Lemma dispatch_wellFormed (m : gmap string nat) (c : Session * Store) (e : DragEvent) :
  wellFormed m c.1 → admissible c.1 (Drag e) → wellFormed m (dispatch c e).1.
Proof.
  intros Hwf Hadm. destruct e as [k|[t|] above| |]; cbn [dispatch fst].
  - unfold onDragStart. destruct (editMode c.1); [|done].
    apply wellFormed_alter; [done|done|done|by left|].
    intros d [= <-]. exact Hadm.
  - by apply onDragOver_wellFormed.
  - unfold onDragOver. by destruct (dragged c.1).
  - done.
  - unfold onDragEnd. destruct (dragged c.1) as [d|] eqn:Hd.
    + apply wellFormed_alter; [done|done|done|by left|done].
    + destruct Hwf. split; try done.
Qed.

Lemma onWidthClick_wellFormed (m : gmap string nat) (c : Session * Store)
    (k : nat) (span : Z) :
  wellFormed m c.1 → span ∈ SPAN_OPTIONS → wellFormed m (onWidthClick k span c).1.
Proof.
  intros Hwf Hspan. unfold onWidthClick, withGrid. cbn [fst].
  apply wellFormed_alter; [done|done|done| |apply (wf_dragged m c.1 Hwf)].
  intros f. right. by exists span.
Qed.

Lemma toggleEdit_wellFormed (m : gmap string nat) (c : Session * Store) :
  wellFormed m c.1 → wellFormed m (toggleEdit c).1.
Proof. intros []. by split. Qed.

Lemma anyHiddenCard_app (fs : list Frame) (w1 w2 : list Node) :
  anyHiddenCard fs (w1 ++ w2) = anyHiddenCard fs w1 || anyHiddenCard fs w2.
Proof. unfold anyHiddenCard. apply existsb_app. Qed.

Lemma anyHiddenCard_none (fs : list Frame) (ks : list nat) :
  Forall (λ k, from_option f_hiddenCard false (fs !! k) = false) ks →
  anyHiddenCard fs (Card <$> ks) = false.
Proof.
  induction 1 as [|k ks Hk _ IH]; [done|].
  cbn. rewrite Hk. exact IH.
Qed.

Lemma anyHiddenCard_some (fs : list Frame) (ks : list nat) :
  ks ≠ [] →
  Forall (λ k, from_option f_hiddenCard false (fs !! k) = true) ks →
  anyHiddenCard fs (Card <$> ks) = true.
Proof.
  intros Hne HF. destruct HF as [|k ks Hk _]; [done|]. cbn. by rewrite Hk.
Qed.

Lemma hidden_after_alter (fs : list Frame) (b : bool) (k j : nat) :
  is_Some (fs !! k) →
  from_option f_hiddenCard false (alter (setHiddenCard b) k fs !! j) =
    if decide (j = k) then b else from_option f_hiddenCard false (fs !! j).
Proof.
  intros [f Hf]. destruct (decide (j = k)) as [->|Hne].
  - by rewrite list_lookup_alter_eq, Hf.
  - by rewrite list_lookup_alter_ne.
Qed.

(** Hiding a visible card. *)
Lemma onHideClick_hide (s : Session) (σ : Store) (vs hs : list nat) (k : nat)
    (f : Frame) :
  wrapper s = (Card <$> vs) ++ dividerOf hs ++ (Card <$> hs) →
  NoDup (wrapper s) → k ∈ vs →
  frames s !! k = Some f → f_hiddenCard f = false →
  onHideClick k (s, σ) =
    let s' := withGrid s (alter (setHiddenCard true) k (frames s))
                ((Card <$> filter (λ j, j ≠ k) vs) ++ [Divider] ++ (Card <$> hs ++ [k])) in
    (s', persistOrder s' σ).
Proof.
  intros Hw Hnd Hk Hf Hvis. unfold onHideClick. cbn [fst snd]. rewrite Hf, Hvis.
  rewrite Hw in Hnd. destruct (shape_disjoint vs hs Hnd) as (_ & _ & Hsep).
  assert (Hwrap : appendChild
            (if bool_decide (Divider ∈ wrapper s) then wrapper s
             else appendChild (wrapper s) Divider) (Card k) =
          (Card <$> filter (λ j, j ≠ k) vs) ++ [Divider] ++ (Card <$> hs ++ [k])).
  { assert (Hw1 : (if bool_decide (Divider ∈ wrapper s) then wrapper s
                   else appendChild (wrapper s) Divider) =
                  (Card <$> vs) ++ [Divider] ++ (Card <$> hs)).
    { rewrite Hw. destruct hs as [|h hs].
      - rewrite bool_decide_eq_false_2 by (rewrite shape_divider; by intros []).
        cbn. rewrite app_nil_r. apply appendChild_fresh, Divider_not_card.
      - by rewrite bool_decide_eq_true_2 by (by rewrite shape_divider). }
    rewrite Hw1. unfold appendChild.
    rewrite !removeChild_app, !removeChild_cards.
    rewrite (filter_ne_fresh hs k) by (by apply Hsep).
    cbn. by rewrite fmap_app, <- !app_assoc. }
  cbv zeta. by rewrite Hwrap.
Qed.

(** Showing a hidden card. *)
Lemma onHideClick_show (s : Session) (σ : Store) (vs hs : list nat) (k : nat)
    (f : Frame) :
  wrapper s = (Card <$> vs) ++ dividerOf hs ++ (Card <$> hs) →
  Forall (λ k, hiddenAt s k = false) vs →
  Forall (λ k, hiddenAt s k = true) hs →
  NoDup (wrapper s) → k ∈ hs →
  frames s !! k = Some f → f_hiddenCard f = true →
  onHideClick k (s, σ) =
    let hs' := filter (λ j, j ≠ k) hs in
    let s' := withGrid s (alter (setHiddenCard false) k (frames s))
                ((Card <$> vs ++ [k]) ++ dividerOf hs' ++ (Card <$> hs')) in
    (s', persistOrder s' σ).
Proof.
  intros Hw Hvs Hhs Hnd Hk Hf Hhid. unfold onHideClick. cbn [fst snd]. rewrite Hf, Hhid.
  pose proof Hnd as Hnd0. rewrite Hw in Hnd0.
  destruct (shape_disjoint vs hs Hnd0) as (_ & Hndh & Hsep).
  assert (Hkv : k ∉ vs) by (intros Hin; by apply (Hsep k)).
  assert (Hdiv : dividerOf hs = [Divider]) by (destruct hs; [by apply elem_of_nil in Hk | done]).
  assert (Hrem : removeChild (wrapper s) (Card k) =
                 (Card <$> vs) ++ Divider :: (Card <$> filter (λ j, j ≠ k) hs)).
  { rewrite Hw, !removeChild_app, !removeChild_cards, removeChild_dividerOf.
    by rewrite (filter_ne_fresh vs k), Hdiv by done. }
  rewrite (insertBefore_before _ (Card <$> vs) (Card <$> filter (λ j, j ≠ k) hs)
             (Card k) Divider Hnd); [|done|exact Hrem].
  set (fs := alter (setHiddenCard false) k (frames s)).
  set (hs' := filter (λ j, j ≠ k) hs).
  assert (Hflag : ∀ j, from_option f_hiddenCard false (fs !! j) =
                       if decide (j = k) then false else hiddenAt s j).
  { intros j. apply hidden_after_alter. by eexists. }
  assert (Hany : anyHiddenCard fs ((Card <$> vs) ++ Card k :: Divider :: (Card <$> hs')) =
                 bool_decide (hs' ≠ [])).
  { replace ((Card <$> vs) ++ Card k :: Divider :: (Card <$> hs'))
      with ((Card <$> vs ++ [k]) ++ [Divider] ++ (Card <$> hs'))
      by (rewrite fmap_app; cbn; by rewrite <- app_assoc).
    rewrite !anyHiddenCard_app, anyHiddenCard_none.
    2:{ apply Forall_app. split.
        - eapply Forall_impl; [exact Hvs|]. intros j Hj. cbn in *.
          rewrite Hflag. by destruct (decide (j = k)).
        - constructor; [|constructor]. rewrite Hflag. by rewrite decide_True. }
    cbn [orb anyHiddenCard existsb]. destruct hs' as [|h hs''] eqn:Hhs'.
    - by rewrite bool_decide_eq_false_2 by (by intros []).
    - rewrite bool_decide_eq_true_2 by done. apply anyHiddenCard_some; [done|].
      rewrite <- Hhs'. apply Forall_forall. intros j [Hj Hne]%list_elem_of_filter.
      rewrite Hflag, decide_False by done.
      by apply (proj1 (Forall_forall _ _) Hhs). }
  rewrite Hany. cbv zeta. f_equal.
  - f_equal. destruct hs' as [|h hs'']; cbn [bool_decide negb andb dividerOf].
    + rewrite bool_decide_eq_false_2 by (by intros []). cbn [negb andb].
      rewrite bool_decide_eq_true_2 by set_solver.
      rewrite removeChild_app, removeChild_Divider_cards, removeChild_cons_ne by done.
      rewrite removeChild_cons_eq. cbn. rewrite fmap_app. cbn. by rewrite !app_nil_r.
    + rewrite bool_decide_eq_true_2 by done. cbn [negb andb].
      rewrite fmap_app. cbn. by rewrite <- !app_assoc.
  - f_equal. f_equal. destruct hs' as [|h hs'']; cbn [bool_decide negb andb dividerOf].
    + rewrite bool_decide_eq_false_2 by (by intros []). cbn [negb andb].
      rewrite bool_decide_eq_true_2 by set_solver.
      rewrite removeChild_app, removeChild_Divider_cards, removeChild_cons_ne by done.
      rewrite removeChild_cons_eq. cbn. rewrite fmap_app. cbn. by rewrite !app_nil_r.
    + rewrite bool_decide_eq_true_2 by done. cbn [negb andb].
      rewrite fmap_app. cbn. by rewrite <- !app_assoc.
Qed.

Lemma shape_NoDup (vs hs : list nat) :
  NoDup vs → NoDup hs → (∀ k, k ∈ vs → k ∉ hs) →
  NoDup ((Card <$> vs) ++ dividerOf hs ++ (Card <$> hs)).
Proof.
  intros Hvs Hhs Hsep. apply NoDup_app. split; [|split].
  - apply NoDup_fmap_2; [|done]. by intros ?? [=].
  - intros n Hn [Hd|Hh]%elem_of_app.
    + destruct hs; [by apply elem_of_nil in Hd|].
      apply list_elem_of_singleton in Hd as ->. by apply Divider_not_card in Hn.
    + apply list_elem_of_fmap in Hn as (k & -> & Hk).
      apply elem_of_cards in Hh. by apply (Hsep k).
  - apply NoDup_app. split; [|split].
    + destruct hs; [constructor|apply NoDup_singleton].
    + intros n Hd Hh. destruct hs; [by apply elem_of_nil in Hd|].
      apply list_elem_of_singleton in Hd as ->. by apply Divider_not_card in Hh.
    + apply NoDup_fmap_2; [|done]. by intros ?? [=].
Qed.

(** The cards regrouped after the class of card [k] is set to [b]. *)
Lemma wellFormed_regroup (m : gmap string nat) (s : Session) (b : bool) (k : nat)
    (vs' hs' : list nat) :
  wellFormed m s → is_Some (frames s !! k) →
  NoDup vs' → NoDup hs' → (∀ j, j ∈ vs' → j ∉ hs') →
  (∀ j, j ∈ vs' ∨ j ∈ hs' ↔ Card j ∈ wrapper s) →
  (∀ j, j ∈ vs' → if decide (j = k) then b = false else hiddenAt s j = false) →
  (∀ j, j ∈ hs' → if decide (j = k) then b = true else hiddenAt s j = true) →
  wellFormed m (withGrid s (alter (setHiddenCard b) k (frames s))
                  ((Card <$> vs') ++ dividerOf hs' ++ (Card <$> hs'))).
Proof.
  intros Hwf Hk Hvs Hhs Hsep Hcards Hv Hh.
  apply (wellFormed_intro m s); [done| | | | | |]; cbn [withGrid wrapper frames dragged].
  - exists vs', hs'. split; [done|].
    split; apply Forall_forall; intros j Hj; rewrite hiddenAt_withGrid,
      hidden_after_alter by done.
    + specialize (Hv j Hj). by destruct (decide (j = k)).
    + specialize (Hh j Hj). by destruct (decide (j = k)).
  - by apply shape_NoDup.
  - intros j. by rewrite shape_cards.
  - intros j. by apply alter_lookup_fmap.
  - intros j f Hj Hf. apply shape_cards, Hcards in Hj.
    destruct (decide (j = k)) as [->|Hne].
    + rewrite list_lookup_alter_eq in Hf.
      destruct (frames s !! k) as [f0|] eqn:Hf0; [|done]. cbn in Hf.
      injection Hf as <-. by apply (wf_spans m s Hwf k f0).
    + rewrite list_lookup_alter_ne in Hf by done. by apply (wf_spans m s Hwf j f).
  - intros d Hd. apply shape_cards, Hcards. by apply (wf_dragged m s Hwf).
Qed.

Lemma onHideClick_wellFormed (m : gmap string nat) (c : Session * Store) (k : nat) :
  wellFormed m c.1 → Card k ∈ wrapper c.1 → wellFormed m (onHideClick k c).1.
Proof.
  destruct c as [s σ]. cbn [fst]. intros Hwf Hk.
  destruct (wf_shape m s Hwf) as (vs & hs & Hw & Hvs & Hhs).
  pose proof (wf_NoDup m s Hwf) as Hnd.
  destruct (wf_registered m s Hwf k Hk) as (f & Hf & _).
  pose proof Hnd as Hnd0. rewrite Hw in Hnd0.
  destruct (shape_disjoint vs hs Hnd0) as (Hndv & Hndh & Hsep).
  assert (Hin : ∀ j, Card j ∈ wrapper s ↔ j ∈ vs ∨ j ∈ hs)
    by (intros j; rewrite Hw; apply shape_cards).
  destruct (proj1 (Hin k) Hk) as [Hkv|Hkh].
  - assert (Hvis : f_hiddenCard f = false).
    { pose proof (proj1 (Forall_forall _ _) Hvs k Hkv) as H. unfold hiddenAt in H.
      by rewrite Hf in H. }
    rewrite (onHideClick_hide s σ vs hs k f) by done. cbn [fst].
    assert (Hdiv : [Divider] = dividerOf (hs ++ [k])) by (by destruct hs).
    rewrite Hdiv. apply wellFormed_regroup; [done|by eexists| | | | | |].
    + by apply NoDup_filter.
    + apply NoDup_app. split; [done|]. split; [|apply NoDup_singleton].
      intros j Hj ->%list_elem_of_singleton. by apply (Hsep k).
    + intros j [Hj Hne]%list_elem_of_filter [Hh| ->%list_elem_of_singleton]%elem_of_app;
        [by apply (Hsep j)|done].
    + intros j. rewrite Hin, list_elem_of_filter, elem_of_app, list_elem_of_singleton.
      destruct (decide (j = k)) as [->|]; naive_solver.
    + intros j [Hj Hne]%list_elem_of_filter. rewrite decide_False by done.
      by apply (proj1 (Forall_forall _ _) Hvs).
    + intros j [Hh| ->%list_elem_of_singleton]%elem_of_app.
      * rewrite decide_False by (intros ->; by apply (Hsep k)).
        by apply (proj1 (Forall_forall _ _) Hhs).
      * by rewrite decide_True.
  - assert (Hhid : f_hiddenCard f = true).
    { pose proof (proj1 (Forall_forall _ _) Hhs k Hkh) as H. unfold hiddenAt in H.
      by rewrite Hf in H. }
    rewrite (onHideClick_show s σ vs hs k f) by done. cbn [fst].
    apply wellFormed_regroup; [done|by eexists| | | | | |].
    + apply NoDup_app. split; [done|]. split; [|apply NoDup_singleton].
      intros j Hj ->%list_elem_of_singleton. by apply (Hsep k).
    + by apply NoDup_filter.
    + intros j [Hj| ->%list_elem_of_singleton]%elem_of_app [Hh Hne]%list_elem_of_filter;
        [by apply (Hsep j)|done].
    + intros j. rewrite Hin, list_elem_of_filter, elem_of_app, list_elem_of_singleton.
      destruct (decide (j = k)) as [->|]; naive_solver.
    + intros j [Hj| ->%list_elem_of_singleton]%elem_of_app.
      * rewrite decide_False by (intros ->; by apply (Hsep k)).
        by apply (proj1 (Forall_forall _ _) Hvs).
      * by rewrite decide_True.
    + intros j [Hj Hne]%list_elem_of_filter. rewrite decide_False by done.
      by apply (proj1 (Forall_forall _ _) Hhs).
Qed.

Lemma handle_wellFormed (m : gmap string nat) (c : Session * Store) (e : GridEvent) :
  wellFormed m c.1 → admissible c.1 e → wellFormed m (handle c e).1.
Proof.
  intros Hwf Hadm. destruct e as [e|k|k span]; cbn [handle].
  - by apply dispatch_wellFormed.
  - by apply onHideClick_wellFormed.
  - destruct Hadm as [_ Hspan]. by apply onWidthClick_wellFormed.
Qed.

(** *** What is saved, and what a reload makes of it *)

(** The id under which card [k] is registered. *)
Lemma wellFormed_ids (m : gmap string nat) (s : Session) (ks : list nat) :
  wellFormed m s → (∀ k, k ∈ ks → Card k ∈ wrapper s) →
  ∃ ids, Forall2 (λ id k, m !! id = Some k ∧
                          ∃ f, frames s !! k = Some f ∧ getFrameId f = id) ids ks.
Proof.
  intros Hwf. induction ks as [|k ks IH]; intros Hin.
  - exists []. constructor.
  - destruct IH as [ids HF]; [intros j Hj; apply Hin; by right|].
    destruct (wf_registered m s Hwf k) as (f & Hf & Hm); [apply Hin; left|].
    exists (getFrameId f :: ids). constructor; [|done]. eauto.
Qed.

Lemma cards_order (m : gmap string nat) (s : Session) (ids : list string)
    (ks : list nat) :
  Forall2 (λ id k, m !! id = Some k ∧
                   ∃ f, frames s !! k = Some f ∧ getFrameId f = id) ids ks →
  omap (λ n, getFrameId <$> cardOf s n) (Card <$> ks) = ids.
Proof.
  induction 1 as [|id k ids ks (_ & f & Hf & Hid) _ IH]; [done|].
  cbn. rewrite Hf. cbn. by rewrite Hid, IH.
Qed.

Lemma cards_hidden (m : gmap string nat) (s : Session) (b : bool)
    (ids : list string) (ks : list nat) :
  Forall2 (λ id k, m !! id = Some k ∧
                   ∃ f, frames s !! k = Some f ∧ getFrameId f = id) ids ks →
  Forall (λ k, hiddenAt s k = b) ks →
  omap (λ n, f ← cardOf s n; if f_hiddenCard f then Some (getFrameId f) else None)
       (Card <$> ks) = if b then ids else [].
Proof.
  induction 1 as [|id k ids ks (_ & f & Hf & Hid) _ IH]; intros Hb; [by destruct b|].
  apply Forall_cons in Hb as [Hk Hb]. unfold hiddenAt in Hk. rewrite Hf in Hk.
  cbn in Hk. cbn. rewrite Hf. cbn. rewrite Hk, IH by done. destruct b; by rewrite ?Hid.
Qed.

Lemma omap_dividerOf {B} (g : Node → option B) (hs : list nat) :
  g Divider = None → omap g (dividerOf hs) = [].
Proof. intros Hg. destruct hs; [done|]. cbn. by rewrite Hg. Qed.

Lemma getCurrentOrder_shape (m : gmap string nat) (s : Session)
    (vs hs : list nat) (iv ih : list string) :
  wrapper s = (Card <$> vs) ++ dividerOf hs ++ (Card <$> hs) →
  Forall2 (λ id k, m !! id = Some k ∧
                   ∃ f, frames s !! k = Some f ∧ getFrameId f = id) iv vs →
  Forall2 (λ id k, m !! id = Some k ∧
                   ∃ f, frames s !! k = Some f ∧ getFrameId f = id) ih hs →
  getCurrentOrder s = iv ++ ih.
Proof.
  intros Hw Hv Hh. unfold getCurrentOrder. rewrite Hw, !omap_app.
  rewrite (cards_order m s iv vs Hv), (cards_order m s ih hs Hh).
  by rewrite omap_dividerOf.
Qed.

Lemma getHiddenIds_shape (m : gmap string nat) (s : Session)
    (vs hs : list nat) (iv ih : list string) :
  wrapper s = (Card <$> vs) ++ dividerOf hs ++ (Card <$> hs) →
  Forall (λ k, hiddenAt s k = false) vs →
  Forall (λ k, hiddenAt s k = true) hs →
  Forall2 (λ id k, m !! id = Some k ∧
                   ∃ f, frames s !! k = Some f ∧ getFrameId f = id) iv vs →
  Forall2 (λ id k, m !! id = Some k ∧
                   ∃ f, frames s !! k = Some f ∧ getFrameId f = id) ih hs →
  getHiddenIds s = ih.
Proof.
  intros Hw Hfv Hfh Hv Hh. unfold getHiddenIds. rewrite Hw, !omap_app.
  rewrite (cards_hidden m s false iv vs Hv Hfv), (cards_hidden m s true ih hs Hh Hfh).
  by rewrite omap_dividerOf.
Qed.

Lemma registered_weaken (m : gmap string nat) (s : Session) (ids : list string)
    (ks : list nat) :
  Forall2 (λ id k, m !! id = Some k ∧
                   ∃ f, frames s !! k = Some f ∧ getFrameId f = id) ids ks →
  Forall2 (λ id k, m !! id = Some k) ids ks.
Proof. intros HF. eapply Forall2_impl; [exact HF|]. by intros id k [? _]. Qed.

Lemma foldl_recordSpan_other (cs : list Frame) (id : string) :
  id ∉ (getFrameId <$> cs) →
  ∀ acc, foldl recordSpan acc cs !! id = acc !! id.
Proof.
  induction cs as [|c cs IH]; intros Hid acc; [done|].
  cbn in Hid. apply not_elem_of_cons in Hid as [Hne Hid].
  cbn. rewrite IH by done. unfold recordSpan, assignSpan. cbv zeta.
  case_bool_decide; [|done]. case_bool_decide; [done|]. by rewrite lookup_insert_ne.
Qed.

Lemma foldl_recordSpan_proto (cs : list Frame) :
  ∀ acc, foldl recordSpan acc cs !! "__proto__" = acc !! "__proto__".
Proof.
  induction cs as [|c cs IH]; intros acc; [done|].
  cbn. rewrite IH. unfold recordSpan, assignSpan. cbv zeta.
  case_bool_decide; [|done]. case_bool_decide; [done|]. by rewrite lookup_insert_ne.
Qed.

Lemma foldl_recordSpan_lookup (cs : list Frame) (f : Frame) (v : Z) :
  NoDup (getFrameId <$> cs) → f ∈ cs → f_buSpan f = Some v → v ∈ SPAN_OPTIONS →
  getFrameId f ≠ "__proto__" →
  ∀ acc, foldl recordSpan acc cs !! getFrameId f = Some v.
Proof.
  induction cs as [|c cs IH]; intros Hnd Hf Hv Hopt Hp acc;
    [by apply elem_of_nil in Hf|].
  cbn in Hnd. apply NoDup_cons in Hnd as [Hc Hnd].
  apply elem_of_cons in Hf as [<-|Hf]; cbn.
  - rewrite foldl_recordSpan_other by done. unfold recordSpan, assignSpan.
    rewrite Hv. cbn.
    rewrite bool_decide_eq_true_2 by done.
    rewrite bool_decide_eq_false_2 by done. by rewrite lookup_insert_eq.
  - by apply IH.
Qed.

Lemma ids_NoDup (m : gmap string nat) (ids : list string) (ks : list nat) :
  Forall2 (λ id k, m !! id = Some k) ids ks → NoDup ks → NoDup ids.
Proof.
  induction 1 as [|id k ids ks Hk HF IH]; intros Hnd; [constructor|].
  apply NoDup_cons in Hnd as [Hkks Hnd]. apply NoDup_cons. split; [|by apply IH].
  intros Hin. destruct (Forall2_index_of m ids ks id HF Hin) as (k' & Hk' & Hm).
  congruence.
Qed.

(** The layout that [persistOrder] reads off a well-formed grid. *)
Lemma wellFormed_snapshot (frames0 : list Frame) (s : Session) :
  wellFormed (idToFrame frames0) s →
  ∃ vs hs iv ih,
    wrapper s = (Card <$> vs) ++ dividerOf hs ++ (Card <$> hs) ∧
    Forall (λ k, hiddenAt s k = false) vs ∧
    Forall (λ k, hiddenAt s k = true) hs ∧
    Forall2 (λ id k, idToFrame frames0 !! id = Some k ∧
                     ∃ f, frames s !! k = Some f ∧ getFrameId f = id) iv vs ∧
    Forall2 (λ id k, idToFrame frames0 !! id = Some k ∧
                     ∃ f, frames s !! k = Some f ∧ getFrameId f = id) ih hs ∧
    NoDup (vs ++ hs) ∧ NoDup (iv ++ ih) ∧
    getCurrentOrder s = iv ++ ih ∧ getHiddenIds s = ih ∧
    ∀ id, id ∈ iv ++ ih ↔ id ∈ defaultOrder frames0.
Proof.
  intros Hwf. set (m := idToFrame frames0).
  destruct (wf_shape m s Hwf) as (vs & hs & Hw & Hfv & Hfh).
  pose proof (wf_NoDup m s Hwf) as Hnd. rewrite Hw in Hnd.
  destruct (shape_disjoint vs hs Hnd) as (Hndv & Hndh & Hsep).
  assert (Hin : ∀ j, Card j ∈ wrapper s ↔ j ∈ vs ∨ j ∈ hs)
    by (intros j; rewrite Hw; apply shape_cards).
  destruct (wellFormed_ids m s vs Hwf) as [iv Hiv]; [intros k Hk; apply Hin; by left|].
  destruct (wellFormed_ids m s hs Hwf) as [ih Hih]; [intros k Hk; apply Hin; by right|].
  assert (Hndk : NoDup (vs ++ hs)) by (apply NoDup_app; eauto).
  pose proof (Forall2_app (registered_weaken m s iv vs Hiv)
                (registered_weaken m s ih hs Hih)) as Hall.
  exists vs, hs, iv, ih. split_and!; try done.
  - by apply (ids_NoDup m _ (vs ++ hs)).
  - by apply (getCurrentOrder_shape m s vs hs).
  - by apply (getHiddenIds_shape m s vs hs iv).
  - intros id. rewrite <- idToFrame_is_Some. split.
    + intros Hid. destruct (Forall2_index_of m _ _ id Hall Hid) as (k & _ & Hk).
      by eexists.
    + intros [k Hk]. pose proof (wf_complete m s Hwf id k Hk) as Hc.
      destruct (wf_registered m s Hwf k Hc) as (f & Hf & Hm).
      assert (Hkk : k ∈ vs ++ hs) by (apply elem_of_app; by apply Hin).
      destruct (Forall2_id_of m _ _ k Hall Hkk) as (id' & Hid' & Hm').
      by rewrite (idToFrame_inj frames0 id id' k Hk Hm').
Qed.

Lemma mergedOrder_saved (frames0 : list Frame) (st : DashboardState) :
  (∀ id, id ∈ order st ↔ id ∈ defaultOrder frames0) →
  mergedOrder frames0 (Some st) = order st.
Proof.
  intros Hlive. destruct (mergedOrder_split frames0 (Some st)) as (news & -> & _ & Hin).
  assert (Hinit : initialOrder frames0 (Some st) = order st).
  { cbn. apply filter_all, Forall_forall. intros id Hid.
    by apply idToFrame_is_Some, Hlive. }
  rewrite Hinit in *. destruct news as [|x news]; [done|].
  destruct (proj1 (Hin x)) as [Hx Hnx]; [left|]. by apply Hlive in Hx.
Qed.

Lemma visibleOrder_saved (frames0 : list Frame) (st : DashboardState)
    (iv ih : list string) :
  order st = iv ++ ih → hidden st = ih → NoDup (iv ++ ih) →
  (∀ id, id ∈ iv ++ ih ↔ id ∈ defaultOrder frames0) →
  visibleOrder frames0 (Some st) = iv ∧ hiddenOrder frames0 (Some st) = ih.
Proof.
  intros Ho Hh Hnd Hlive. unfold visibleOrder, hiddenOrder.
  rewrite mergedOrder_saved by (by rewrite Ho).
  apply NoDup_app in Hnd as (_ & Hsep & _).
  rewrite Ho, !filter_app. cbn [hiddenSet]. rewrite Hh. split.
  - rewrite (filter_all _ iv), (filter_none _ ih), ?app_nil_r; [done| |].
    + apply Forall_forall. intros id Hid Hn. apply Hn. by apply elem_of_list_to_set.
    + apply Forall_forall. intros id Hid Hn%elem_of_list_to_set. by apply (Hsep id).
  - rewrite (filter_none _ iv), (filter_all _ ih); [done| |].
    + apply Forall_forall. intros id Hid. by apply elem_of_list_to_set.
    + apply Forall_forall. intros id Hid Hn%elem_of_list_to_set. by apply (Hsep id).
Qed.

Lemma fullGrid_wrapper (frames0 : list Frame) (state : option DashboardState)
    (vs hs : list nat) :
  Forall2 (λ id k, idToFrame frames0 !! id = Some k) (visibleOrder frames0 state) vs →
  Forall2 (λ id k, idToFrame frames0 !! id = Some k) (hiddenOrder frames0 state) hs →
  NoDup (vs ++ hs) →
  (fullGrid frames0 state).2 = (Card <$> vs) ++ dividerOf hs ++ (Card <$> hs).
Proof.
  intros Hv Hh Hnd. apply NoDup_app in Hnd as (Hndv & Hsep & Hndh).
  rewrite fullGrid_unfold, placeHidden_place.
  rewrite (foldl_place_wrapper _ _ _ hs Hh Hndh).
  - cbn [snd]. unfold visibleGrid. rewrite placeVisible_place.
    rewrite (foldl_place_wrapper _ _ _ vs Hv Hndv) by (intros k _; apply not_elem_of_nil).
    cbn [snd app]. rewrite <- app_assoc. do 2 f_equal.
    destruct Hh; done.
  - cbn [snd]. unfold visibleGrid. rewrite placeVisible_place.
    rewrite (foldl_place_wrapper _ _ _ vs Hv Hndv) by (intros k _; apply not_elem_of_nil).
    cbn [snd app]. intros k Hk [Hc|Hc]%elem_of_app.
    + apply elem_of_cards in Hc. by apply (Hsep k).
    + destruct (hiddenOrder frames0 state); [by apply elem_of_nil in Hc|].
      apply list_elem_of_singleton in Hc. discriminate.
Qed.

Lemma getSpans_lookup (frames0 : list Frame) (s : Session) (k : nat) (f : Frame) :
  wellFormed (idToFrame frames0) s →
  Card k ∈ wrapper s → frames s !! k = Some f →
  ∃ v, f_buSpan f = Some v ∧ v ∈ SPAN_OPTIONS ∧
       getSpans s !! getFrameId f =
         if bool_decide (getFrameId f = "__proto__") then None else Some v.
Proof.
  intros Hwf Hk Hf.
  destruct (wf_spans _ s Hwf k f Hk Hf) as (v & Hv & Hopt).
  exists v. split; [done|]. split; [done|].
  destruct (wellFormed_snapshot frames0 s Hwf)
    as (vs & hs & iv & ih & _ & _ & _ & _ & _ & _ & Hnd & Ho & _).
  rewrite getSpans_cards. case_bool_decide as Hp.
  - rewrite Hp. by rewrite foldl_recordSpan_proto.
  - apply foldl_recordSpan_lookup; [| |done|done|done].
    + by rewrite <- getCurrentOrder_cards, Ho.
    + apply list_elem_of_omap. exists (Card k). by split.
Qed.

Lemma getSpan_saved (frames0 : list Frame) (s : Session) (k : nat) (f : Frame) :
  wellFormed (idToFrame frames0) s →
  Card k ∈ wrapper s → frames s !! k = Some f →
  Some (getSpan (Some (snapshot s)) (getFrameId f)) =
    if bool_decide (getFrameId f = "__proto__") then Some 3 else f_buSpan f.
Proof.
  intros Hwf Hk Hf.
  destruct (getSpans_lookup frames0 s k f Hwf Hk Hf) as (v & Hv & Hopt & Hl).
  unfold getSpan. change (savedSpans (Some (snapshot s))) with (getSpans s).
  rewrite Hl, Hv. case_bool_decide as Hp.
  - rewrite Hp. done.
  - rewrite (bool_decide_eq_true_2 (v ∈ SPAN_OPTIONS)) by done.
    rewrite bool_decide_eq_true_2; [done|].
    intros ->. revert Hopt. by_decide.
Qed.

(** X3. Saving a well-formed grid and loading the page again restores it:
    [setupDashboard] run on the same host elements against the state that
    [persistOrder] wrote builds the same wrapper, node for node, and gives
    every card the id, the class [bu-hidden-card] and the span it had. The
    one exception is the span of a card whose id is [__proto__]: the saved
    [spans] object cannot hold that key, and the card comes back with the
    default span 3. *)
Theorem reload_restores_layout (frames0 : list Frame) (s : Session) (σ : Store) :
  Forall (λ f, f_hiddenCard f = false) frames0 →
  wellFormed (idToFrame frames0) s →
  wrapper (setupDashboard frames0 (persistOrder s σ)) = wrapper s ∧
  ∀ k f, Card k ∈ wrapper s → frames s !! k = Some f →
         ∃ f', frames (setupDashboard frames0 (persistOrder s σ)) !! k = Some f' ∧
               getFrameId f' = getFrameId f ∧
               f_hiddenCard f' = f_hiddenCard f ∧
               f_buSpan f' =
                 if bool_decide (getFrameId f = "__proto__") then Some 3
                 else f_buSpan f.
Proof.
  intros Hpristine Hwf.
  destruct (wellFormed_snapshot frames0 s Hwf)
    as (vs & hs & iv & ih & Hw & Hfv & Hfh & Hiv & Hih & Hndk & Hnd & Ho & Hh & Hlive).
  unfold setupDashboard, persistOrder, loadDashboardState, saveDashboardState.
  cbn [_dashboardCache frames wrapper]. set (state := Some (snapshot s)).
  destruct (visibleOrder_saved frames0 (snapshot s) iv ih Ho Hh Hnd Hlive) as [HV HH].
  fold state in HV, HH. split.
  - rewrite Hw. apply fullGrid_wrapper; [| |done].
    + rewrite HV. by apply (registered_weaken _ s).
    + rewrite HH. by apply (registered_weaken _ s).
  - intros k f Hk Hf.
    destruct (wf_registered _ s Hwf k Hk) as (f1 & Hf1 & Hm).
    assert (f1 = f) as -> by congruence.
    pose proof (getSpan_saved frames0 s k f Hwf Hk Hf) as Hspan. fold state in Hspan.
    assert (Hid : ∀ f', (fullGrid frames0 state).1 !! k = Some f' →
                        getFrameId f' = getFrameId f).
    { intros f' Hf'. pose proof (fullGrid_ids frames0 state) as Hids.
      apply (f_equal (λ l, l !! k)) in Hids. rewrite !list_lookup_fmap, Hf' in Hids.
      destruct (idToFrame_frame frames0 _ k Hm) as (f0 & Hf0 & Hid0).
      rewrite Hf0 in Hids. cbn in Hids. congruence. }
    rewrite Hw in Hk. apply shape_cards in Hk as [Hkv|Hkh].
    + assert (Hin : getFrameId f ∈ visibleOrder frames0 state).
      { rewrite HV. destruct (Forall2_id_of _ iv vs k (registered_weaken _ s _ _ Hiv) Hkv)
          as (id & Hid' & Hm').
        by rewrite (idToFrame_inj frames0 _ id k Hm Hm'). }
      destruct (proj1 (fullGrid_frame frames0 state _ k Hpristine Hm) Hin)
        as (f' & Hf' & Hhid & Hsp).
      exists f'. split_and!; [done|by apply Hid| |congruence].
      pose proof (proj1 (Forall_forall _ _) Hfv k Hkv) as Hflag.
      unfold hiddenAt in Hflag. rewrite Hf in Hflag. cbn in Hflag. congruence.
    + assert (Hin : getFrameId f ∈ hiddenOrder frames0 state).
      { rewrite HH. destruct (Forall2_id_of _ ih hs k (registered_weaken _ s _ _ Hih) Hkh)
          as (id & Hid' & Hm').
        by rewrite (idToFrame_inj frames0 _ id k Hm Hm'). }
      destruct (proj2 (fullGrid_frame frames0 state _ k Hpristine Hm) Hin)
        as (f' & Hf' & Hhid & Hsp).
      exists f'. split_and!; [done|by apply Hid| |congruence].
      pose proof (proj1 (Forall_forall _ _) Hfh k Hkh) as Hflag.
      unfold hiddenAt in Hflag. rewrite Hf in Hflag. cbn in Hflag. congruence.
Qed.

(** *** The grid as its user sees it *)

Lemma editedGrid_reachable : reachable fourCards emptyStore editedGrid.
Proof.
  unfold editedGrid. cbn [foldl].
  repeat (apply reachable_event; [|unfold admissible; by_decide]).
  apply reachable_edit, reachable_load.
Qed.

Lemma fourCards_pristine : Forall (λ f, f_hiddenCard f = false) fourCards.
Proof. by repeat constructor. Qed.

Lemma reachable_wf (frames0 : list Frame) (σ0 : Store) (c : Session * Store) :
  Forall (λ f, f_hiddenCard f = false) frames0 →
  reachable frames0 σ0 c → wellFormed (idToFrame frames0) c.1.
Proof.
  intros Hpristine. induction 1 as [|c _ IH|c e _ IH Hadm].
  - by apply setupDashboard_wellFormed.
  - by apply toggleEdit_wellFormed.
  - by apply handle_wellFormed.
Qed.

Lemma editedGrid_wellFormed : wellFormed (idToFrame fourCards) editedGrid.1.
Proof.
  apply (reachable_wf fourCards emptyStore); [apply fourCards_pristine|].
  apply editedGrid_reachable.
Qed.

(** X1. The grid stays well formed whatever the user does: after a page load
    on host elements without the class [bu-hidden-card], any sequence of
    edit-mode toggles, drag events, hide clicks and width clicks on cards of
    the grid leaves the visible cards first, then the divider exactly when a
    card is hidden, then the hidden cards; no node twice; every registered
    element in the grid; every card with a span of [SPAN_OPTIONS]. *)
Theorem grid_invariant (frames0 : list Frame) (σ0 : Store) (c : Session * Store) :
  Forall (λ f, f_hiddenCard f = false) frames0 →
  reachable frames0 σ0 c →
  shaped c.1 ∧ NoDup (wrapper c.1) ∧
  (Divider ∈ wrapper c.1 ↔ ∃ k, Card k ∈ wrapper c.1 ∧ hiddenAt c.1 k = true) ∧
  (∀ id k, idToFrame frames0 !! id = Some k → Card k ∈ wrapper c.1) ∧
  (∀ k, Card k ∈ wrapper c.1 →
        ∃ f v, frames c.1 !! k = Some f ∧
               idToFrame frames0 !! getFrameId f = Some k ∧
               f_buSpan f = Some v ∧ v ∈ SPAN_OPTIONS).
Proof.
  intros Hpristine Hreach.
  pose proof (reachable_wf frames0 σ0 c Hpristine Hreach) as Hwf.
  split_and!.
  - apply (wf_shape _ _ Hwf).
  - apply (wf_NoDup _ _ Hwf).
  - destruct (wf_shape _ _ Hwf) as (vs & hs & Hw & Hfv & Hfh).
    pose proof (wf_NoDup _ _ Hwf) as Hnd. rewrite Hw in Hnd.
    destruct (shape_disjoint vs hs Hnd) as (_ & _ & Hsep).
    rewrite Hw, shape_divider. split.
    + intros Hne. destruct hs as [|h hs]; [done|]. exists h. split.
      * apply shape_cards. right. left.
      * by apply Forall_cons in Hfh as [? _].
    + intros (k & [Hk|Hk]%shape_cards & Hhid) ->.
      * pose proof (proj1 (Forall_forall _ _) Hfv k Hk) as Hv. cbn in Hv. congruence.
      * by apply elem_of_nil in Hk.
  - apply (wf_complete _ _ Hwf).
  - intros k Hk. destruct (wf_registered _ _ Hwf k Hk) as (f & Hf & Hm).
    destruct (wf_spans _ _ Hwf k f Hk Hf) as (v & Hv & Hopt). by exists f, v.
Qed.

Lemma grid_invariant_witness :
  shaped editedGrid.1 ∧ NoDup (wrapper editedGrid.1) ∧
  (Divider ∈ wrapper editedGrid.1 ↔
     ∃ k, Card k ∈ wrapper editedGrid.1 ∧ hiddenAt editedGrid.1 k = true) ∧
  (∀ id k, idToFrame fourCards !! id = Some k → Card k ∈ wrapper editedGrid.1) ∧
  (∀ k, Card k ∈ wrapper editedGrid.1 →
        ∃ f v, frames editedGrid.1 !! k = Some f ∧
               idToFrame fourCards !! getFrameId f = Some k ∧
               f_buSpan f = Some v ∧ v ∈ SPAN_OPTIONS).
Proof.
  apply (grid_invariant fourCards emptyStore editedGrid).
  - by repeat constructor.
  - unfold editedGrid. cbn [foldl].
    repeat (apply reachable_event; [|unfold admissible; by_decide]).
    apply reachable_edit, reachable_load.
Defined.

(** X2. Live preview of a drag on a well-formed grid: when the pointer is
    over a card other than the dragged one and both are on the same side of
    the divider, [onDragOver] puts the dragged card right before the target
    if the pointer is above the middle of the target and right after it
    otherwise; the other nodes keep their order and no class or span
    changes. *)
Theorem onDragOver_position (m : gmap string nat) (s : Session) (d t : nat)
    (above : bool) :
  wellFormed m s → dragged s = Some d → t ≠ d → Card t ∈ wrapper s →
  hiddenAt s d = hiddenAt s t →
  frames (onDragOver (Some t) above s) = frames s ∧
  removeChild (wrapper (onDragOver (Some t) above s)) (Card d) =
    removeChild (wrapper s) (Card d) ∧
  if above
  then nextSibling (wrapper (onDragOver (Some t) above s)) (Card d) = Some (Card t)
  else nextSibling (wrapper (onDragOver (Some t) above s)) (Card t) = Some (Card d).
Proof.
  intros Hwf Hd Hne Ht Hsame.
  pose proof (wf_NoDup m s Hwf) as Hnd.
  pose proof (wf_dragged m s Hwf d Hd) as Hdw.
  destruct (wf_registered m s Hwf d Hdw) as (fd & Hfd & _).
  destruct (wf_registered m s Hwf t Ht) as (ft & Hft & _).
  unfold hiddenAt in Hsame. rewrite Hfd, Hft in Hsame. cbn in Hsame.
  assert (Htr : Card t ∈ removeChild (wrapper s) (Card d)).
  { apply elem_of_removeChild. split; [done|]. by intros [=]. }
  apply list_elem_of_split in Htr as (l1 & l2 & Hrem).
  assert (Hndr : NoDup (l1 ++ Card t :: l2)).
  { rewrite <- Hrem. by apply NoDup_removeChild. }
  assert (Hdr : Card d ∉ l1 ++ Card t :: l2).
  { rewrite <- Hrem. intros [_ ?]%elem_of_removeChild. done. }
  apply NoDup_app in Hndr as (_ & Ht1 & [Ht2 _]%NoDup_cons).
  assert (Hd1 : Card d ∉ l1) by (intros ?; apply Hdr; set_solver).
  assert (Hd2 : Card d ∉ l2) by (intros ?; apply Hdr; set_solver).
  assert (Htl1 : Card t ∉ l1) by (intros ?; apply (Ht1 (Card t)); [done|left]).
  rewrite (onDragOver_between s d t above fd ft l1 l2 Hnd Hd Hne Hfd Hft Hsame Hrem).
  cbn [withGrid frames wrapper]. split; [done|]. rewrite Hrem. destruct above.
  - split.
    + rewrite removeChild_app, removeChild_cons_eq, removeChild_cons_ne by (by intros [=]).
      by rewrite !removeChild_fresh.
    + by rewrite nextSibling_split.
  - split.
    + rewrite removeChild_app, removeChild_cons_ne by (by intros [=]).
      rewrite removeChild_cons_eq. by rewrite !removeChild_fresh.
    + by rewrite nextSibling_split.
Qed.

Lemma onDragOver_position_witness :
  let s := onDragStart 3 (toggleEditMode (setupDashboard fourCards emptyStore)) in
  frames (onDragOver (Some 1%nat) true s) = frames s ∧
  removeChild (wrapper (onDragOver (Some 1%nat) true s)) (Card 3) =
    removeChild (wrapper s) (Card 3) ∧
  nextSibling (wrapper (onDragOver (Some 1%nat) true s)) (Card 3) = Some (Card 1).
Proof.
  apply (onDragOver_position (idToFrame fourCards)
           (onDragStart 3 (toggleEditMode (setupDashboard fourCards emptyStore)))
           3%nat 1%nat true).
  - apply (dispatch_wellFormed _
             (toggleEditMode (setupDashboard fourCards emptyStore), emptyStore)
             (DragStart 3)).
    + apply (toggleEdit_wellFormed _ (setupDashboard fourCards emptyStore, emptyStore)).
      apply setupDashboard_wellFormed, fourCards_pristine.
    + unfold admissible. by_decide.
  - reflexivity.
  - discriminate.
  - by_decide.
  - reflexivity.
Defined.

Lemma reload_restores_layout_witness :
  wrapper (setupDashboard fourCards (persistOrder editedGrid.1 emptyStore)) =
    wrapper editedGrid.1 ∧
  ∀ k f, Card k ∈ wrapper editedGrid.1 → frames editedGrid.1 !! k = Some f →
         ∃ f', frames (setupDashboard fourCards
                         (persistOrder editedGrid.1 emptyStore)) !! k = Some f' ∧
               getFrameId f' = getFrameId f ∧
               f_hiddenCard f' = f_hiddenCard f ∧
               f_buSpan f' =
                 if bool_decide (getFrameId f = "__proto__") then Some 3
                 else f_buSpan f.
Proof.
  apply (reload_restores_layout fourCards editedGrid.1 emptyStore).
  - by repeat constructor.
  - apply editedGrid_wellFormed.
Defined.

(** X4. What [persistOrder] writes for a well-formed grid is a complete
    layout of the page: the saved order lists the id of every discovered
    card exactly once, the saved hidden ids are the ids of the cards after
    the divider, in their order and at the end of the saved order, and the
    saved spans give every listed id a width of [SPAN_OPTIONS], except the
    id [__proto__], for which the saved object has no property. *)
Theorem persistOrder_complete (frames0 : list Frame) (s : Session) (σ : Store) :
  wellFormed (idToFrame frames0) s →
  ∃ st sp visible,
    loadDashboardState (persistOrder s σ) = Some st ∧
    storageWrites (persistOrder s σ) = st :: storageWrites σ ∧
    NoDup (order st) ∧
    (∀ id, id ∈ order st ↔ id ∈ defaultOrder frames0) ∧
    order st = visible ++ hidden st ∧
    spans st = Some sp ∧
    sp !! "__proto__" = None ∧
    ∀ id, id ∈ order st → id ≠ "__proto__" →
          ∃ v, sp !! id = Some v ∧ v ∈ SPAN_OPTIONS.
Proof.
  intros Hwf.
  destruct (wellFormed_snapshot frames0 s Hwf)
    as (vs & hs & iv & ih & Hw & Hfv & Hfh & Hiv & Hih & Hndk & Hnd & Ho & Hh & Hlive).
  exists (snapshot s), (getSpans s), iv. cbn [snapshot order hidden spans].
  split_and!; try done.
  - by rewrite Ho.
  - intros id. by rewrite Ho.
  - by rewrite Ho, Hh.
  - apply snapshot_no_proto.
  - intros id Hid Hp. rewrite Ho in Hid.
    pose proof (Forall2_app (registered_weaken _ s iv vs Hiv)
                  (registered_weaken _ s ih hs Hih)) as Hall.
    destruct (Forall2_index_of _ _ _ id Hall Hid) as (k & Hk & Hm).
    assert (Hc : Card k ∈ wrapper s).
    { rewrite Hw. apply shape_cards. by apply elem_of_app. }
    destruct (wf_registered _ s Hwf k Hc) as (f & Hf & Hm').
    rewrite (idToFrame_inj frames0 id (getFrameId f) k Hm Hm').
    destruct (getSpans_lookup frames0 s k f Hwf Hc Hf) as (v & _ & Hopt & Hl).
    rewrite (idToFrame_inj frames0 id (getFrameId f) k Hm Hm') in Hp.
    rewrite bool_decide_eq_false_2 in Hl by done.
    by exists v.
Qed.

Lemma persistOrder_complete_witness :
  ∃ st sp visible,
    loadDashboardState (persistOrder editedGrid.1 emptyStore) = Some st ∧
    storageWrites (persistOrder editedGrid.1 emptyStore) = st :: storageWrites emptyStore ∧
    NoDup (order st) ∧
    (∀ id, id ∈ order st ↔ id ∈ defaultOrder fourCards) ∧
    order st = visible ++ hidden st ∧
    spans st = Some sp ∧
    sp !! "__proto__" = None ∧
    ∀ id, id ∈ order st → id ≠ "__proto__" →
          ∃ v, sp !! id = Some v ∧ v ∈ SPAN_OPTIONS.
Proof.
  apply (persistOrder_complete fourCards editedGrid.1 emptyStore).
  apply editedGrid_wellFormed.
Defined.

(** X5. A click on the hide button of a card of a well-formed grid: a
    visible card gets the class [bu-hidden-card] and moves to the very end
    of the wrapper, behind the divider, which is added when no card was
    hidden; a hidden card loses the class and moves right before the
    divider, which is removed when no hidden card is left. No other card
    moves or changes, and the new layout is saved once. *)
Theorem onHideClick_moves (m : gmap string nat) (s : Session) (σ : Store)
    (vs hs : list nat) (k : nat) :
  wellFormed m s →
  wrapper s = (Card <$> vs) ++ dividerOf hs ++ (Card <$> hs) →
  k ∈ vs ++ hs →
  (onHideClick k (s, σ)).2 = persistOrder (onHideClick k (s, σ)).1 σ ∧
  frames (onHideClick k (s, σ)).1 =
    alter (setHiddenCard (negb (hiddenAt s k))) k (frames s) ∧
  wrapper (onHideClick k (s, σ)).1 =
    if hiddenAt s k
    then (Card <$> vs ++ [k]) ++ dividerOf (filter (λ j, j ≠ k) hs) ++
         (Card <$> filter (λ j, j ≠ k) hs)
    else (Card <$> filter (λ j, j ≠ k) vs) ++ [Divider] ++ (Card <$> hs ++ [k]).
Proof.
  intros Hwf Hw Hk.
  pose proof (wf_NoDup m s Hwf) as Hnd.
  assert (Hflags : Forall (λ k, hiddenAt s k = false) vs ∧
                   Forall (λ k, hiddenAt s k = true) hs).
  { destruct (wf_shape m s Hwf) as (vs' & hs' & Hw' & Hfv & Hfh).
    rewrite Hw' in Hnd. destruct (shape_disjoint vs' hs' Hnd) as (_ & _ & Hsep).
    assert (Hsame : ∀ j, j ∈ vs ∨ j ∈ hs ↔ j ∈ vs' ∨ j ∈ hs').
    { intros j. by rewrite <- !shape_cards, <- Hw, <- Hw'. }
    assert (Hcut : ∀ (a a' b b' : list nat),
              (Card <$> a) ++ dividerOf b ++ (Card <$> b) =
              (Card <$> a') ++ dividerOf b' ++ (Card <$> b') → a = a' ∧ b = b').
    { clear. intros a a' b b' Heq.
      assert (Hinj : Inj (=) (=) Card) by (by intros ?? [=]).
      destruct b as [|x b], b' as [|x' b']; cbn [dividerOf] in Heq;
        rewrite ?fmap_nil, ?app_nil_l, ?app_nil_r in Heq; cbn [app] in Heq.
      - by apply (inj (fmap Card)) in Heq as ->.
      - exfalso. apply (Divider_not_card a). rewrite Heq. set_solver.
      - exfalso. apply (Divider_not_card a'). rewrite <- Heq. set_solver.
      - apply split_unique in Heq as [Ha Hb]; [|apply Divider_not_card..].
        apply (inj (fmap Card)) in Ha as ->.
        by apply (inj (fmap Card) (x :: b) (x' :: b')) in Hb as ->. }
    rewrite Hw in Hw'. by destruct (Hcut _ _ _ _ Hw') as [-> ->]. }
  destruct Hflags as [Hfv Hfh].
  assert (Hc : Card k ∈ wrapper s).
  { rewrite Hw. apply shape_cards. by apply elem_of_app. }
  destruct (wf_registered m s Hwf k Hc) as (f & Hf & _).
  apply elem_of_app in Hk as [Hk|Hk].
  - pose proof (proj1 (Forall_forall _ _) Hfv k Hk) as Hflag. cbn in Hflag.
    rewrite Hflag. unfold hiddenAt in Hflag. rewrite Hf in Hflag. cbn in Hflag.
    by rewrite (onHideClick_hide s σ vs hs k f).
  - pose proof (proj1 (Forall_forall _ _) Hfh k Hk) as Hflag. cbn in Hflag.
    rewrite Hflag. unfold hiddenAt in Hflag. rewrite Hf in Hflag. cbn in Hflag.
    by rewrite (onHideClick_show s σ vs hs k f).
Qed.

Lemma onHideClick_moves_witness :
  let s := setupDashboard fourCards storeHidingB in
  (onHideClick 3 (s, storeHidingB)).2 =
    persistOrder (onHideClick 3 (s, storeHidingB)).1 storeHidingB ∧
  frames (onHideClick 3 (s, storeHidingB)).1 =
    alter (setHiddenCard (negb (hiddenAt s 3))) 3%nat (frames s) ∧
  wrapper (onHideClick 3 (s, storeHidingB)).1 = Card <$> [2; 1; 0; 3]%nat.
Proof.
  apply (onHideClick_moves (idToFrame fourCards)
           (setupDashboard fourCards storeHidingB) storeHidingB
           [2; 1; 0]%nat [3%nat] 3%nat).
  - apply setupDashboard_wellFormed, fourCards_pristine.
  - reflexivity.
  - by_decide.
Defined.

Lemma order_frames_ext (s s' : Session) (w : list Node) :
  (∀ j, getFrameId <$> frames s' !! j = getFrameId <$> frames s !! j) →
  omap (λ n, getFrameId <$> cardOf s' n) w = omap (λ n, getFrameId <$> cardOf s n) w.
Proof.
  intros Hj. induction w as [|n w IH]; [done|].
  cbn [omap list_omap]. rewrite IH. destruct n as [j|]; [|done].
  cbn [cardOf]. by rewrite Hj.
Qed.

Lemma hidden_frames_ext (s s' : Session) (w : list Node) :
  (∀ j, getFrameId <$> frames s' !! j = getFrameId <$> frames s !! j) →
  (∀ j, f_hiddenCard <$> frames s' !! j = f_hiddenCard <$> frames s !! j) →
  omap (λ n, f ← cardOf s' n; if f_hiddenCard f then Some (getFrameId f) else None) w =
  omap (λ n, f ← cardOf s n; if f_hiddenCard f then Some (getFrameId f) else None) w.
Proof.
  intros Hid Hh. induction w as [|n w IH]; [done|].
  cbn [omap list_omap]. rewrite IH. destruct n as [j|]; [|done].
  cbn [cardOf]. specialize (Hid j). specialize (Hh j).
  destruct (frames s' !! j) as [f'|], (frames s !! j) as [f|]; simplify_eq/=; [|done].
  by rewrite Hid, Hh.
Qed.

Lemma getCurrentOrder_alter (s : Session) (g : Frame → Frame) (k : nat) :
  (∀ f, getFrameId (g f) = getFrameId f) →
  getCurrentOrder (withGrid s (alter g k (frames s)) (wrapper s)) = getCurrentOrder s.
Proof.
  intros Hg. unfold getCurrentOrder. cbn [withGrid wrapper].
  apply order_frames_ext. intros j. cbn [frames]. by apply alter_lookup_fmap.
Qed.

Lemma getHiddenIds_alter (s : Session) (g : Frame → Frame) (k : nat) :
  (∀ f, getFrameId (g f) = getFrameId f) →
  (∀ f, f_hiddenCard (g f) = f_hiddenCard f) →
  getHiddenIds (withGrid s (alter g k (frames s)) (wrapper s)) = getHiddenIds s.
Proof.
  intros Hg Hh. unfold getHiddenIds. cbn [withGrid wrapper].
  apply hidden_frames_ext; intros j; cbn [frames]; by apply alter_lookup_fmap.
Qed.

(** X6. A click on a width button of a card of a well-formed grid saves the
    layout once with that width for the card: the saved order and hidden
    ids are those of the grid before the click, the saved span of the card
    is the one clicked, and the saved span of every other id is what it was
    in the grid. Only for a card whose id is [__proto__] is the width not
    saved: the saved object has no property of that name. *)
Theorem onWidthClick_saves (frames0 : list Frame) (s : Session) (σ : Store)
    (k : nat) (f : Frame) (span : Z) :
  wellFormed (idToFrame frames0) s →
  Card k ∈ wrapper s → frames s !! k = Some f → span ∈ SPAN_OPTIONS →
  ∃ st sp,
    loadDashboardState (onWidthClick k span (s, σ)).2 = Some st ∧
    storageWrites (onWidthClick k span (s, σ)).2 = st :: storageWrites σ ∧
    wrapper (onWidthClick k span (s, σ)).1 = wrapper s ∧
    frames (onWidthClick k span (s, σ)).1 = alter (applySpan span) k (frames s) ∧
    order st = getCurrentOrder s ∧ hidden st = getHiddenIds s ∧
    spans st = Some sp ∧
    sp !! getFrameId f =
      (if bool_decide (getFrameId f = "__proto__") then None else Some span) ∧
    ∀ id, id ≠ getFrameId f → sp !! id = getSpans s !! id.
Proof.
  intros Hwf Hk Hf Hspan.
  pose proof (onWidthClick_wellFormed _ (s, σ) k span Hwf Hspan) as Hwf'.
  unfold onWidthClick in *. cbn [fst snd] in *.
  set (s' := withGrid s (alter (applySpan span) k (frames s)) (wrapper s)) in *.
  assert (Hf' : frames s' !! k = Some (applySpan span f)).
  { cbn [s' withGrid frames]. by rewrite list_lookup_alter_eq, Hf. }
  assert (Ho : getCurrentOrder s' = getCurrentOrder s) by (by apply getCurrentOrder_alter).
  exists (snapshot s'), (getSpans s'). cbn [snapshot order hidden spans].
  split_and!; try done.
  - by apply getHiddenIds_alter.
  - destruct (getSpans_lookup frames0 s' k _ Hwf' Hk Hf') as (v & Hv & _ & Hl).
    cbn in Hv. injection Hv as <-. exact Hl.
  - intros id Hid. destruct (decide (id ∈ getCurrentOrder s)) as [Hin|Hout].
    + unfold getCurrentOrder in Hin.
      apply list_elem_of_omap in Hin as (n & Hn & Hc).
      destruct n as [j|]; [|done]. cbn [cardOf] in Hc.
      apply fmap_Some in Hc as (fj & Hfj & ->).
      assert (Hjk : j ≠ k) by (intros ->; congruence).
      assert (Hfj' : frames s' !! j = Some fj).
      { cbn [s' withGrid frames]. by rewrite list_lookup_alter_ne. }
      destruct (getSpans_lookup frames0 s j fj Hwf Hn Hfj) as (v & Hv & _ & Hl).
      destruct (getSpans_lookup frames0 s' j fj Hwf' Hn Hfj') as (v' & Hv' & _ & Hl').
      rewrite Hl, Hl'. assert (v' = v) as -> by congruence. done.
    + rewrite !getSpans_cards, !foldl_recordSpan_other; [done| |].
      * by rewrite <- getCurrentOrder_cards.
      * by rewrite <- getCurrentOrder_cards, Ho.
Qed.

Lemma onWidthClick_saves_witness :
  ∃ st sp,
    loadDashboardState (onWidthClick 2 4 (editedGrid.1, emptyStore)).2 = Some st ∧
    storageWrites (onWidthClick 2 4 (editedGrid.1, emptyStore)).2 =
      st :: storageWrites emptyStore ∧
    wrapper (onWidthClick 2 4 (editedGrid.1, emptyStore)).1 = wrapper editedGrid.1 ∧
    frames (onWidthClick 2 4 (editedGrid.1, emptyStore)).1 =
      alter (applySpan 4) 2%nat (frames editedGrid.1) ∧
    order st = getCurrentOrder editedGrid.1 ∧ hidden st = getHiddenIds editedGrid.1 ∧
    spans st = Some sp ∧
    sp !! "a" = Some 4 ∧
    ∀ id, id ≠ "a" → sp !! id = getSpans editedGrid.1 !! id.
Proof.
  apply (onWidthClick_saves fourCards editedGrid.1 emptyStore 2%nat
           (setHiddenCard true (applySpan 3 (plainFrame "a"))) 4).
  - apply editedGrid_wellFormed.
  - by_decide.
  - reflexivity.
  - by_decide.
Defined.

(** The card whose id is [__proto__] is set to the full width; the layout
    that the click saves has no span for it, and the next page load gives
    the card the default span. *)
Example proto_card_width_not_saved :
  (f_buSpan <$> frames (onWidthClick 2 6 (setupDashboard protoCards emptyStore,
                                          emptyStore)).1 !! 2%nat) = Some (Some 6) ∧
  savedSpans (loadDashboardState
                (onWidthClick 2 6 (setupDashboard protoCards emptyStore,
                                   emptyStore)).2) =
    {[ "bu-stats-frame" := 6; "bu-slot-frame" := 3 ]} ∧
  (f_buSpan <$> frames (setupDashboard protoCards
                          (onWidthClick 2 6 (setupDashboard protoCards emptyStore,
                                             emptyStore)).2) !! 2%nat) =
    Some (Some 3).
Proof. split; [reflexivity|]. split; [by_decide|reflexivity]. Qed.

(** ** Whole numbers as doubles *)

(** The statistics are doubles. What follows shows, from the definition of
    the addition of doubles, that whole numbers below 2^53 are added
    without error. *)

Ltac abstract_pow :=
  repeat match goal with
         | |- context [2 ^ ?x] => let A := fresh "A" in set (A := 2 ^ x) in *; clearbody A
         | H : context [2 ^ ?x] |- _ =>
             let A := fresh "A" in set (A := 2 ^ x) in *; clearbody A
         end.

Lemma digits2_pos_spec (p : positive) :
  2 ^ (Z.pos (digits2_pos p) - 1) ≤ Z.pos p < 2 ^ Z.pos (digits2_pos p).
Proof.
  induction p as [p IH|p IH|]; cbn [digits2_pos]; [| |cbn; lia].
  - rewrite Pos2Z.inj_succ. change (Z.pos p~1) with (2 * Z.pos p + 1).
    replace (Z.succ (Z.pos (digits2_pos p)) - 1) with (Z.succ (Z.pos (digits2_pos p) - 1)) by lia.
    rewrite !Z.pow_succ_r by lia. abstract_pow. lia.
  - rewrite Pos2Z.inj_succ. change (Z.pos p~0) with (2 * Z.pos p).
    replace (Z.succ (Z.pos (digits2_pos p)) - 1) with (Z.succ (Z.pos (digits2_pos p) - 1)) by lia.
    rewrite !Z.pow_succ_r by lia. abstract_pow. lia.
Qed.

Lemma digits2_pos_unique (p : positive) (d : Z) :
  2 ^ (d - 1) ≤ Z.pos p < 2 ^ d → Z.pos (digits2_pos p) = d.
Proof.
  intros Hd. pose proof (digits2_pos_spec p) as Hp.
  assert (0 < d).
  { destruct (Z.le_gt_cases d 0) as [Hle|]; [|done].
    assert (2 ^ d ≤ 2 ^ 0) by (apply Z.pow_le_mono_r; lia). lia. }
  destruct (Z.lt_trichotomy (Z.pos (digits2_pos p)) d) as [Hlt|[Heq|Hgt]]; [|done|].
  - assert (2 ^ Z.pos (digits2_pos p) ≤ 2 ^ (d - 1)) by (apply Z.pow_le_mono_r; lia). lia.
  - assert (2 ^ d ≤ 2 ^ (Z.pos (digits2_pos p) - 1)) by (apply Z.pow_le_mono_r; lia). lia.
Qed.

Lemma iter_xO_value (m d : positive) : Z.pos (Pos.iter xO m d) = Z.pos m * 2 ^ Z.pos d.
Proof.
  change (Pos.iter xO m d) with (shift_pos d m).
  rewrite shift_pos_correct, Zpower_pos_nat, Zpower_nat_Z, positive_nat_Z. lia.
Qed.

Lemma digits2_pos_scale (p q : positive) (k : Z) :
  0 ≤ k → Z.pos q = Z.pos p * 2 ^ k →
  Z.pos (digits2_pos q) = Z.pos (digits2_pos p) + k.
Proof.
  intros Hk Hq. apply digits2_pos_unique. pose proof (digits2_pos_spec p) as Hp.
  replace (Z.pos (digits2_pos p) + k - 1) with (Z.pos (digits2_pos p) - 1 + k) by lia.
  rewrite !Z.pow_add_r by lia. rewrite Hq.
  assert (0 < 2 ^ k) by (apply Z.pow_pos_nonneg; lia). nia.
Qed.

Lemma shr_1_even (m : Z) :
  0 ≤ m →
  shr_1 {| shr_m := 2 * m; shr_r := false; shr_s := false |} =
    {| shr_m := m; shr_r := false; shr_s := false |}.
Proof. intros Hm. destruct m as [|q|q]; [done|done|lia]. Qed.

Lemma iter_pos_shr_exact (p : positive) :
  ∀ m, 0 ≤ m →
    SpecFloat.iter_pos shr_1 p {| shr_m := m * 2 ^ Z.pos p; shr_r := false; shr_s := false |} =
      {| shr_m := m; shr_r := false; shr_s := false |}.
Proof.
  induction p as [p IH|p IH|]; intros m Hm; cbn [SpecFloat.iter_pos].
  - change (Z.pos p~1) with (2 * Z.pos p + 1).
    replace (m * 2 ^ (2 * Z.pos p + 1)) with (2 * (m * 2 ^ Z.pos p * 2 ^ Z.pos p)).
    2:{ rewrite !Z.pow_add_r by lia. replace (2 * Z.pos p) with (Z.pos p + Z.pos p) by lia.
        rewrite Z.pow_add_r by lia. lia. }
    assert (0 < 2 ^ Z.pos p) by (apply Z.pow_pos_nonneg; lia).
    rewrite shr_1_even by nia. rewrite IH by nia. by apply IH.
  - change (Z.pos p~0) with (2 * Z.pos p).
    replace (m * 2 ^ (2 * Z.pos p)) with (m * 2 ^ Z.pos p * 2 ^ Z.pos p).
    2:{ replace (2 * Z.pos p) with (Z.pos p + Z.pos p) by lia.
        rewrite Z.pow_add_r by lia. lia. }
    assert (0 < 2 ^ Z.pos p) by (apply Z.pow_pos_nonneg; lia).
    rewrite IH by nia. by apply IH.
  - change (2 ^ 1) with 2. rewrite Z.mul_comm. by apply shr_1_even.
Qed.

(** A value that fits the format is rounded to itself. *)
Lemma binary_round_exact (s : bool) (p m : positive) (e t : Z) :
  t = fexp prec emax (Z.pos (digits2_pos p) + e) →
  t ≤ emax - prec →
  (t ≤ e ∧ Z.pos m = Z.pos p * 2 ^ (e - t)) ∨ (e < t ∧ Z.pos p = Z.pos m * 2 ^ (t - e)) →
  binary_round prec emax s p e = S754_finite s m t.
Proof.
  intros Ht Hmax Hcase. unfold binary_round. rewrite <- Ht.
  assert (Hfin : ∀ q : positive,
             Z.pos (digits2_pos q) + t = Z.pos (digits2_pos p) + e →
             binary_round_aux prec emax s (Z.pos q) t loc_Exact = S754_finite s q t).
  { intros q Hq. unfold binary_round_aux, shr_fexp. cbn [Zdigits2 shr_record_of_loc].
    rewrite Hq, <- Ht, Z.sub_diag. cbn [shr shr_m loc_of_shr_record round_nearest_even].
    cbn [Zdigits2]. rewrite Hq, <- Ht, Z.sub_diag. cbn [shr shr_m].
    by rewrite (proj2 (Z.leb_le _ _) Hmax). }
  destruct Hcase as [[Hle Hm]|[Hlt Hp]].
  - unfold shl_align. destruct (t - e) as [|d|d] eqn:Hd; [| lia |].
    + assert (t = e) as -> by lia. rewrite Z.sub_diag, Z.mul_1_r in Hm.
      injection Hm as ->. by apply Hfin.
    + assert (Hq : Pos.iter xO p d = m).
      { apply Pos2Z.inj. rewrite iter_xO_value, Hm. f_equal. f_equal. lia. }
      rewrite Hq. apply Hfin.
      rewrite (digits2_pos_scale p m (e - t)) by (lia || done). lia.
  - unfold shl_align. destruct (t - e) as [|d|d] eqn:Hd; [lia| |lia].
    unfold binary_round_aux, shr_fexp. cbn [Zdigits2 shr_record_of_loc].
    rewrite <- Ht, Hd. cbn [shr]. rewrite Hp, iter_pos_shr_exact by lia.
    cbn [shr_m loc_of_shr_record round_nearest_even Zdigits2].
    replace (e + Z.pos d) with t by lia.
    assert (Hq : Z.pos (digits2_pos m) + t = Z.pos (digits2_pos p) + e).
    { rewrite (digits2_pos_scale m p (Z.pos d)) by (lia || done). lia. }
    rewrite Hq, <- Ht, Z.sub_diag. cbn [shr shr_m].
    by rewrite (proj2 (Z.leb_le _ _) Hmax).
Qed.

Lemma binary_round_scaled (s : bool) (q ps : positive) (K : Z) :
  Z.pos q < 2 ^ 53 → 0 ≤ K → Z.pos ps = Z.pos q * 2 ^ K →
  binary_round prec emax s ps (- K) =
    S754_finite s (Z.to_pos (Z.pos q * 2 ^ (53 - Z.pos (digits2_pos q))))
      (Z.pos (digits2_pos q) - 53).
Proof.
  intros Hq HK Hps.
  pose proof (digits2_pos_spec q) as Hd.
  pose proof (digits2_pos_scale q ps K HK Hps) as Hds.
  set (d := Z.pos (digits2_pos q)) in *.
  assert (Hd53 : d ≤ 53).
  { destruct (Z.le_gt_cases d 53) as [|Hgt]; [done|].
    assert (2 ^ 53 ≤ 2 ^ (d - 1)) by (apply Z.pow_le_mono_r; lia). lia. }
  assert (Hpos : 0 < Z.pos q * 2 ^ (53 - d)).
  { assert (0 < 2 ^ (53 - d)) by (apply Z.pow_pos_nonneg; lia). lia. }
  apply binary_round_exact.
  - rewrite Hds. unfold fexp, emin, prec, emax. lia.
  - unfold prec, emax. lia.
  - rewrite Z2Pos.id by done. rewrite Hps.
    destruct (Z.le_gt_cases (d - 53) (- K)) as [Hle|Hgt].
    + left. split; [done|].
      rewrite <- Z.mul_assoc, <- Z.pow_add_r by lia. f_equal. f_equal. lia.
    + right. split; [done|].
      rewrite <- Z.mul_assoc, <- Z.pow_add_r by lia. f_equal. f_equal. lia.
Qed.

Lemma normalize_scaled (n K : Z) :
  Z.abs n < 2 ^ 53 → 0 ≤ K →
  binary_normalize prec emax (n * 2 ^ K) (- K) false = floatOfZ n.
Proof.
  intros Hn HK. unfold floatOfZ.
  assert (H2K : 0 < 2 ^ K) by (apply Z.pow_pos_nonneg; lia).
  destruct n as [|q|q].
  - done.
  - destruct (Z.pos q * 2 ^ K) as [|ps|ps] eqn:Hps; [lia| |lia].
    cbn [binary_normalize].
    rewrite (binary_round_scaled false q ps K) by (lia || done).
    change (binary_round prec emax false q 0)
      with (binary_round prec emax false q (- 0)).
    rewrite (binary_round_scaled false q q 0) by (lia || done). done.
  - destruct (Z.neg q * 2 ^ K) as [|ps|ps] eqn:Hps; [lia|lia|].
    cbn [binary_normalize].
    rewrite (binary_round_scaled true q ps K) by lia.
    change (binary_round prec emax true q 0)
      with (binary_round prec emax true q (- 0)).
    rewrite (binary_round_scaled true q q 0) by (lia || done). done.
Qed.

(** The double of a non-zero integer below 2^53 in absolute value. *)
Lemma floatOfZ_finite (n : Z) :
  n ≠ 0 → Z.abs n < 2 ^ 53 →
  ∃ (m : positive) (e : Z),
    floatOfZ n = S754_finite (n <? 0) m e ∧
    - 52 ≤ e ≤ 0 ∧ Z.pos m = Z.abs n * 2 ^ (- e) ∧ Z.pos (digits2_pos m) = 53.
Proof.
  intros Hn0 Hn.
  assert (Hq : ∀ (s : bool) (q : positive),
             Z.pos q < 2 ^ 53 →
             ∃ (m : positive) (e : Z),
               binary_round prec emax s q 0 = S754_finite s m e ∧
               - 52 ≤ e ≤ 0 ∧ Z.pos m = Z.pos q * 2 ^ (- e) ∧
               Z.pos (digits2_pos m) = 53).
  { intros s q Hlt.
    change (binary_round prec emax s q 0) with (binary_round prec emax s q (- 0)).
    rewrite (binary_round_scaled s q q 0) by (lia || done).
    pose proof (digits2_pos_spec q) as Hd.
    set (d := Z.pos (digits2_pos q)) in *.
    assert (Hd53 : d ≤ 53).
    { destruct (Z.le_gt_cases d 53) as [|Hgt]; [done|].
      assert (2 ^ 53 ≤ 2 ^ (d - 1)) by (apply Z.pow_le_mono_r; lia). lia. }
    assert (Hpos : 0 < Z.pos q * 2 ^ (53 - d)).
    { assert (0 < 2 ^ (53 - d)) by (apply Z.pow_pos_nonneg; lia). lia. }
    eexists _, _. split; [done|]. split; [subst d; lia|].
    rewrite Z2Pos.id by done. split; [f_equal; f_equal; lia|].
    rewrite (digits2_pos_scale q _ (53 - d)); [subst d; lia|lia|].
    by rewrite Z2Pos.id. }
  destruct n as [|q|q]; [done| |].
  - destruct (Hq false q Hn) as (m & e & H1 & H2 & H3 & H4). by exists m, e.
  - destruct (Hq true q Hn) as (m & e & H1 & H2 & H3 & H4). by exists m, e.
Qed.

Lemma floatOfZ_valid (n : Z) : Z.abs n < 2 ^ 53 → valid_binary (floatOfZ n) = true.
Proof.
  intros Hn. destruct (Z.eq_dec n 0) as [->|Hn0]; [done|].
  destruct (floatOfZ_finite n Hn0 Hn) as (m & e & -> & He & _ & Hd).
  cbn [SpecFloat.valid_binary]. unfold bounded, canonical_mantissa.
  rewrite Hd. unfold fexp, emin, prec, emax.
  apply andb_true_intro. split; [apply Z.eqb_eq | apply Z.leb_le]; lia.
Qed.

Lemma shl_align_fst (m : positive) (e ez : Z) :
  ez ≤ e → Z.pos (fst (shl_align m e ez)) = Z.pos m * 2 ^ (e - ez).
Proof.
  intros Hle. unfold shl_align. destruct (ez - e) as [|d|d] eqn:Hd; cbn [fst].
  - replace (e - ez) with 0 by lia. lia.
  - lia.
  - rewrite iter_xO_value. f_equal. f_equal. lia.
Qed.

Lemma cond_Zopp_abs (n x : Z) : cond_Zopp (n <? 0) (Z.abs n * x) = n * x.
Proof. unfold cond_Zopp. destruct (Z.ltb_spec n 0); lia. Qed.

(** Adding two integers whose sum stays below 2^53 in absolute value is
    exact. *)
Lemma SF64add_floatOfZ (a b : Z) :
  Z.abs a < 2 ^ 53 → Z.abs b < 2 ^ 53 → Z.abs (a + b) < 2 ^ 53 →
  SF64add (floatOfZ a) (floatOfZ b) = floatOfZ (a + b).
Proof.
  intros Ha Hb Hab. unfold SF64add.
  destruct (Z.eq_dec a 0) as [->|Ha0].
  { destruct (Z.eq_dec b 0) as [->|Hb0]; [done|].
    destruct (floatOfZ_finite b Hb0 Hb) as (m & e & Heq & _).
    rewrite Z.add_0_l, Heq. done. }
  destruct (Z.eq_dec b 0) as [->|Hb0].
  { destruct (floatOfZ_finite a Ha0 Ha) as (m & e & Heq & _).
    rewrite Z.add_0_r, Heq. done. }
  destruct (floatOfZ_finite a Ha0 Ha) as (ma & ea & -> & Hea & Hma & _).
  destruct (floatOfZ_finite b Hb0 Hb) as (mb & eb & -> & Heb & Hmb & _).
  cbn [SFadd]. cbv zeta.
  set (ez := Z.min ea eb).
  rewrite !shl_align_fst by (subst ez; lia).
  rewrite Hma, Hmb, <- !Z.mul_assoc, <- !Z.pow_add_r by (subst ez; lia).
  replace (- ea + (ea - ez)) with (- ez) by lia.
  replace (- eb + (eb - ez)) with (- ez) by lia.
  rewrite !cond_Zopp_abs, <- Z.mul_add_distr_r.
  rewrite <- (Z.opp_involutive ez) at 2.
  apply normalize_scaled; [done | subst ez; lia].
Qed.

Lemma Prim2SF_numberOfZ (n : Z) :
  Z.abs n < 2 ^ 53 → Prim2SF (numberOfZ n) = floatOfZ n.
Proof. intros Hn. apply Prim2SF_SF2Prim. by apply floatOfZ_valid. Qed.

Lemma numberOfZ_add (a b : Z) :
  Z.abs a < 2 ^ 53 → Z.abs b < 2 ^ 53 → Z.abs (a + b) < 2 ^ 53 →
  PrimFloat.add (numberOfZ a) (numberOfZ b) = numberOfZ (a + b).
Proof.
  intros Ha Hb Hab.
  rewrite <- (SF2Prim_Prim2SF (PrimFloat.add _ _)), add_spec.
  rewrite !Prim2SF_numberOfZ by done. by rewrite SF64add_floatOfZ.
Qed.

Lemma numberOfZ_leb_0 (n : Z) :
  Z.abs n < 2 ^ 53 → PrimFloat.leb (numberOfZ n) 0 = (n <=? 0).
Proof.
  intros Hn. rewrite leb_spec, Prim2SF_numberOfZ by done.
  change (Prim2SF 0) with (S754_zero false).
  destruct (Z.eq_dec n 0) as [->|Hn0]; [done|].
  destruct (floatOfZ_finite n Hn0 Hn) as (m & e & -> & _).
  unfold SFleb, SFcompare.
  destruct (Z.ltb_spec n 0), (Z.leb_spec n 0); (done || lia).
Qed.

Lemma leb_0_numberOfZ (n : Z) :
  Z.abs n < 2 ^ 53 → PrimFloat.leb 0 (numberOfZ n) = (0 <=? n).
Proof.
  intros Hn. rewrite leb_spec, Prim2SF_numberOfZ by done.
  change (Prim2SF 0) with (S754_zero false).
  destruct (Z.eq_dec n 0) as [->|Hn0]; [done|].
  destruct (floatOfZ_finite n Hn0 Hn) as (m & e & -> & _).
  unfold SFleb, SFcompare.
  destruct (Z.ltb_spec n 0), (Z.leb_spec 0 n); (done || lia).
Qed.

Lemma bump_add (a b : nat) (x : float) : bump (a + b) x = bump b (bump a x).
Proof. unfold bump. rewrite (Nat.add_comm a b). apply Nat.iter_add. Qed.

Lemma whole_add (x : float) (n k : Z) :
  whole x n → - n ≤ k → n + k < 2 ^ 53 →
  whole (PrimFloat.add x (numberOfZ k)) (n + k).
Proof.
  intros [-> Hn] Hk Hnk. split; [|lia].
  apply numberOfZ_add; lia.
Qed.

(** Below 2^53 every increment counts. *)
Lemma bump_whole (k : nat) (x : float) (n : Z) :
  whole x n → n + Z.of_nat k < 2 ^ 53 → whole (bump k x) (n + Z.of_nat k).
Proof.
  intros Hx. pose proof (proj2 Hx) as Hn. induction k as [|k IH]; intros Hk.
  - rewrite Z.add_0_r. exact Hx.
  - replace (n + Z.of_nat (S k)) with (n + Z.of_nat k + 1) by lia.
    change (bump (S k) x) with (PrimFloat.add (bump k x) (numberOfZ 1)).
    apply whole_add; [apply IH| |]; lia.
Qed.

Lemma whole_leb_0 (x : float) (n : Z) :
  whole x n → PrimFloat.leb x 0 = (n <=? 0) ∧ PrimFloat.leb 0 x = true.
Proof.
  intros [-> Hn]. rewrite numberOfZ_leb_0, leb_0_numberOfZ by lia.
  split; [done|]. apply Z.leb_le. lia.
Qed.

Lemma whole_inj (x : float) (n n' : Z) : whole x n → whole x n' → n = n'.
Proof.
  intros [-> Hn] [Heq Hn'].
  apply (f_equal Prim2SF) in Heq. rewrite !Prim2SF_numberOfZ in Heq by lia.
  destruct (Z.eq_dec n 0) as [->|Hn0], (Z.eq_dec n' 0) as [->|Hn'0]; [done| | |].
  - destruct (floatOfZ_finite n' Hn'0 ltac:(lia)) as (m & e & Hm & _).
    rewrite Hm in Heq. discriminate.
  - destruct (floatOfZ_finite n Hn0 ltac:(lia)) as (m & e & Hm & _).
    rewrite Hm in Heq. discriminate.
  - destruct (floatOfZ_finite n Hn0 ltac:(lia)) as (m & e & Hm & He & Hv & _).
    destruct (floatOfZ_finite n' Hn'0 ltac:(lia)) as (m' & e' & Hm' & He' & Hv' & _).
    rewrite Hm, Hm' in Heq. injection Heq as _ -> ->.
    assert (0 < 2 ^ (- e')) by (apply Z.pow_pos_nonneg; lia). nia.
Qed.

(** ** [escapeHTML] *)

Lemma replaceAll_app (c : Z) (by_ s t : list Z) :
  replaceAll c by_ (s ++ t) = replaceAll c by_ s ++ replaceAll c by_ t.
Proof. unfold replaceAll. apply bind_app. Qed.

Lemma replaceAll_fresh (c : Z) (by_ s : list Z) :
  c ∉ s → replaceAll c by_ s = s.
Proof.
  unfold replaceAll. induction s as [|x s IH]; intros Hc; [done|].
  apply not_elem_of_cons in Hc as [Hx Hs]. cbn.
  rewrite bool_decide_eq_false_2 by congruence. cbn. f_equal. by apply IH.
Qed.

Lemma escapeHTML_app (s t : list Z) :
  escapeHTML (s ++ t) = escapeHTML s ++ escapeHTML t.
Proof. unfold escapeHTML. by rewrite !replaceAll_app. Qed.

Lemma escapeHTML_one (x : Z) : escapeHTML [x] = entity x.
Proof.
  unfold escapeHTML, entity, replaceAll.
  repeat case_bool_decide; subst; try done; cbn;
    repeat (rewrite bool_decide_eq_false_2 by (intros ?; subst; done); cbn); done.
Qed.

(** The five passes act as one: each code unit is replaced on its own, and
    the ampersand that a later entity brings in is not escaped again. *)
Lemma escapeHTML_bind (str : list Z) : escapeHTML str = str ≫= entity.
Proof.
  induction str as [|x str IH]; [done|].
  change (x :: str) with ([x] ++ str). rewrite escapeHTML_app, IH, escapeHTML_one.
  reflexivity.
Qed.

Lemma escapeHTML_cons (x : Z) (str : list Z) :
  escapeHTML (x :: str) = entity x ++ escapeHTML str.
Proof. by rewrite !escapeHTML_bind. Qed.

Lemma entity_head_inj (x y : Z) (s t : list Z) :
  entity x ++ s = entity y ++ t → x = y ∧ s = t.
Proof.
  unfold entity. repeat case_bool_decide; subst; cbn; intros Heq;
    by simplify_eq.
Qed.

Lemma entity_nonempty (x : Z) : entity x ≠ [].
Proof. unfold entity. repeat case_bool_decide; done. Qed.

Lemma entity_length (x : Z) : (1 ≤ length (entity x))%nat.
Proof. unfold entity. repeat case_bool_decide; cbn; lia. Qed.

Lemma entity_special_length (x : Z) :
  x ∈ [38; 60; 62; 34; 39] → (1 < length (entity x))%nat.
Proof.
  intros Hx. unfold entity. repeat case_bool_decide; cbn; try lia.
  exfalso. set_solver.
Qed.

Lemma escapeHTML_length (str : list Z) : (length str ≤ length (escapeHTML str))%nat.
Proof.
  induction str as [|x str IH]; [done|].
  rewrite escapeHTML_cons, length_app. pose proof (entity_length x). cbn. lia.
Qed.

(** X7. The output of [escapeHTML] holds no angle bracket and no quote,
    whatever the input: each of these four code units is gone from the
    result, so the text can stand in element content and in a quoted
    attribute value. *)
Theorem escapeHTML_no_markup (str : list Z) :
  Forall (λ c, c ≠ 60 ∧ c ≠ 62 ∧ c ≠ 34 ∧ c ≠ 39) (escapeHTML str).
Proof.
  induction str as [|x str IH]; [constructor|].
  rewrite escapeHTML_cons. apply Forall_app. split; [|done].
  unfold entity. repeat case_bool_decide; cbn; repeat constructor; done.
Qed.

(** X8. [escapeHTML] loses nothing: two strings with the same escaped form
    are the same string. *)
Theorem escapeHTML_inj (s t : list Z) :
  escapeHTML s = escapeHTML t → s = t.
Proof.
  revert t. induction s as [|x s IH]; intros [|y t] Heq.
  - done.
  - rewrite escapeHTML_cons in Heq. cbn in Heq.
    symmetry in Heq. apply app_eq_nil in Heq as [Heq _].
    by apply entity_nonempty in Heq.
  - rewrite escapeHTML_cons in Heq. cbn in Heq.
    apply app_eq_nil in Heq as [Heq _]. by apply entity_nonempty in Heq.
  - rewrite !escapeHTML_cons in Heq. apply entity_head_inj in Heq as [-> Heq].
    f_equal. by apply IH.
Qed.

Lemma escapeHTML_inj_witness :
  codeUnits "a<b" = [97; 60; 98].
Proof.
  apply (escapeHTML_inj (codeUnits "a<b") [97; 60; 98]). reflexivity.
Defined.

(** X9. [escapeHTML] returns its input unchanged exactly when the input
    holds none of the five special code units; and the escaped form of a
    concatenation is the concatenation of the escaped forms, so a text may
    be escaped piece by piece. *)
Theorem escapeHTML_plain (str : list Z) :
  (escapeHTML str = str ↔ Forall (λ c, c ∉ [38; 60; 62; 34; 39]) str) ∧
  ∀ t, escapeHTML (str ++ t) = escapeHTML str ++ escapeHTML t.
Proof.
  split; [|intros t; apply escapeHTML_app]. split.
  - induction str as [|x str IH]; intros Heq; [constructor|].
    rewrite escapeHTML_cons in Heq.
    destruct (decide (x ∈ [38; 60; 62; 34; 39])) as [Hx|Hx].
    + exfalso. apply (f_equal length) in Heq. rewrite length_app in Heq. cbn in Heq.
      pose proof (entity_special_length x Hx). pose proof (escapeHTML_length str). lia.
    + assert (He : entity x = [x]).
      { unfold entity. repeat case_bool_decide; subst; try done; exfalso; set_solver. }
      rewrite He in Heq. cbn in Heq. injection Heq as Heq. constructor; [done|by apply IH].
  - induction 1 as [|x str Hx _ IH]; [done|].
    rewrite escapeHTML_cons, IH.
    assert (He : entity x = [x]).
    { unfold entity. repeat case_bool_decide; subst; try done; exfalso; set_solver. }
    by rewrite He.
Qed.

(** ** Statistics, hidden grades and the slot machine *)

Ltac unfold_St :=
  unfold updateStatistic, addGradeEntry, setTotalGrades, useFreeSpinToday,
    refreshCoinDisplay, refreshLever, hasFreeSpinToday, otherDay,
    refreshStatisticsPanel, saveStatistics, putStatistics, setSlotCoins,
    setLeverDisabled, loadStatistics, Date_now, mbind, St_bind, mret, St_ret in *.

Lemma refreshCoinDisplay_stats (w : World) :
  _statsCache (refreshCoinDisplay w).2 = _statsCache w ∧
  statsWrites (refreshCoinDisplay w).2 = statsWrites w ∧
  panelShown (refreshCoinDisplay w).2 = panelShown w ∧
  clock (refreshCoinDisplay w).2 = clock w ∧
  localDate (refreshCoinDisplay w).2 = localDate w.
Proof. unfold_St. cbn. repeat case_match; cbn; done. Qed.

Lemma updateStatistic_stats (key : StatKey) (increment : float) (w : World) :
  _statsCache (updateStatistic key increment w).2 =
    withLastUpdated (clock w (ticks w)) (addTo key increment (_statsCache w)) ∧
  statsWrites (updateStatistic key increment w).2 =
    withLastUpdated (clock w (ticks w)) (addTo key increment (_statsCache w))
      :: statsWrites w ∧
  clock (updateStatistic key increment w).2 = clock w ∧
  localDate (updateStatistic key increment w).2 = localDate w.
Proof. unfold_St. cbn. repeat case_match; cbn; done. Qed.

Lemma addGradeEntry_stats (type : EntryType) (entry : GradeEntry) (w : World) :
  addGradeEntry type entry w =
    (tt, {| _statsCache := withLastUpdated (clock w (ticks w))
                             (pushEntry type entry (_statsCache w));
            statsWrites := withLastUpdated (clock w (ticks w))
                             (pushEntry type entry (_statsCache w)) :: statsWrites w;
            clock := clock w; ticks := S (ticks w); localDate := localDate w;
            panelShown := panelShown w; slotCoins := slotCoins w;
            leverDisabled := leverDisabled w |}).
Proof. reflexivity. Qed.

(** *** Revealing grades *)

Lemma revealAllStep_cellClick (g g' : GradesPage) (w : World) (n index : nat) :
  cells g = cells g' → revealed g = revealed g' →
  subjectName g = subjectName g' → pageUrl g = pageUrl g' →
  cells (revealAllStep (g, w, n) index).1.1 = cells (cellClick index (g', w)).1 ∧
  revealed (revealAllStep (g, w, n) index).1.1 = revealed (cellClick index (g', w)).1 ∧
  subjectName (revealAllStep (g, w, n) index).1.1 =
    subjectName (cellClick index (g', w)).1 ∧
  pageUrl (revealAllStep (g, w, n) index).1.1 = pageUrl (cellClick index (g', w)).1 ∧
  (revealAllStep (g, w, n) index).1.2 = (cellClick index (g', w)).2.
Proof.
  intros Hc Hr Hs Hu. unfold revealAllStep, cellClick. cbn [fst snd].
  rewrite Hc. destruct (cells g' !! index) as [cell|]; [|done].
  destruct (c_revealed cell); cbn [fst snd cells revealed subjectName pageUrl]; [done|].
  unfold entryOf. rewrite Hr, Hs, Hu. done.
Qed.

Lemma revealAll_loop (ixs : list nat) (g g' : GradesPage) (w : World) (n : nat) :
  cells g = cells g' → revealed g = revealed g' →
  subjectName g = subjectName g' → pageUrl g = pageUrl g' →
  cells (foldl revealAllStep (g, w, n) ixs).1.1 =
    cells (foldl (λ acc index, cellClick index acc) (g', w) ixs).1 ∧
  revealed (foldl revealAllStep (g, w, n) ixs).1.1 =
    revealed (foldl (λ acc index, cellClick index acc) (g', w) ixs).1 ∧
  (foldl revealAllStep (g, w, n) ixs).1.2 =
    (foldl (λ acc index, cellClick index acc) (g', w) ixs).2.
Proof.
  revert g g' w n. induction ixs as [|index ixs IH]; intros g g' w n Hc Hr Hs Hu.
  - done.
  - cbn [foldl].
    destruct (revealAllStep_cellClick g g' w n index Hc Hr Hs Hu)
      as (Hc' & Hr' & Hs' & Hu' & Hw').
    destruct (revealAllStep (g, w, n) index) as [[g1 w1] n1].
    destruct (cellClick index (g', w)) as [g1' w1'].
    cbn [fst snd] in *. subst w1'. by apply IH.
Qed.

Lemma cellClick_length (index : nat) (p : GradesPage * World) :
  length (cells (cellClick index p).1) = length (cells p.1).
Proof.
  unfold cellClick. destruct (cells p.1 !! index) as [cell|]; [|done].
  destruct (c_revealed cell); cbn; [done|]. by rewrite length_alter.
Qed.

Lemma cellClick_keeps_revealed (index j : nat) (p : GradesPage * World) (cell : Cell) :
  cells p.1 !! j = Some cell → c_revealed cell = true →
  ∃ cell', cells (cellClick index p).1 !! j = Some cell' ∧ c_revealed cell' = true.
Proof.
  intros Hj Hrev. unfold cellClick. destruct (cells p.1 !! index) as [c|] eqn:Hi; [|eauto].
  destruct (c_revealed c) eqn:Hc; cbn [fst cells]; [eauto|].
  destruct (decide (j = index)) as [->|Hne].
  - rewrite list_lookup_alter_eq, Hj. cbn. eauto.
  - rewrite list_lookup_alter_ne by done. eauto.
Qed.

Lemma cellClick_reveals (index : nat) (p : GradesPage * World) (cell : Cell) :
  cells p.1 !! index = Some cell →
  ∃ cell', cells (cellClick index p).1 !! index = Some cell' ∧ c_revealed cell' = true.
Proof.
  intros Hi. unfold cellClick. rewrite Hi.
  destruct (c_revealed cell) eqn:Hc; cbn [fst cells]; [eauto|].
  rewrite list_lookup_alter_eq, Hi. cbn. eauto.
Qed.

Lemma clicks_length (ixs : list nat) (p : GradesPage * World) :
  length (cells (foldl (λ acc index, cellClick index acc) p ixs).1) = length (cells p.1).
Proof.
  revert p. induction ixs as [|index ixs IH]; intros p; [done|].
  cbn [foldl]. by rewrite IH, cellClick_length.
Qed.

Lemma clicks_reveal_prefix (k : nat) (p : GradesPage * World) :
  (k ≤ length (cells p.1))%nat →
  ∀ j cell, (j < k)%nat →
    cells (foldl (λ acc index, cellClick index acc) p (seq 0 k)).1 !! j = Some cell →
    c_revealed cell = true.
Proof.
  induction k as [|k IH]; intros Hk j cell Hj Hcell; [lia|].
  rewrite seq_S, foldl_app in Hcell. cbn [foldl Nat.add] in Hcell.
  set (q := foldl (λ acc index, cellClick index acc) p (seq 0 k)) in *.
  assert (Hlen : length (cells q.1) = length (cells p.1)) by apply clicks_length.
  destruct (decide (j = k)) as [->|Hne].
  - destruct (lookup_lt_is_Some_2 (cells q.1) k) as [c Hc]; [lia|].
    destruct (cellClick_reveals k q c Hc) as (c' & Hc' & Hrev). congruence.
  - destruct (lookup_lt_is_Some_2 (cells q.1) j) as [c Hc]; [lia|].
    assert (Hrev : c_revealed c = true) by (apply (IH ltac:(lia) j c); [lia|done]).
    destruct (cellClick_keeps_revealed k j q c Hc Hrev) as (c' & Hc' & Hrev').
    congruence.
Qed.

(** X10. The button that reveals all grades does to the cells, to the set
    of revealed indices and to the statistics (cache and storage writes)
    exactly what one click on every cell, in document order, does; after it
    every cell is revealed and the button is gone. *)
Theorem revealAll_as_clicks (p : GradesPage * World) :
  revealAllBtn p.1 = true →
  cells (revealAll p).1 =
    cells (foldl (λ acc index, cellClick index acc) p (seq 0 (length (cells p.1)))).1 ∧
  revealed (revealAll p).1 =
    revealed (foldl (λ acc index, cellClick index acc) p (seq 0 (length (cells p.1)))).1 ∧
  _statsCache (revealAll p).2 =
    _statsCache (foldl (λ acc index, cellClick index acc) p
                   (seq 0 (length (cells p.1)))).2 ∧
  statsWrites (revealAll p).2 =
    statsWrites (foldl (λ acc index, cellClick index acc) p
                   (seq 0 (length (cells p.1)))).2 ∧
  Forall (λ cell, c_revealed cell = true) (cells (revealAll p).1) ∧
  revealAllBtn (revealAll p).1 = false.
Proof.
  intros Hbtn. destruct p as [g w]. cbn [fst snd] in *.
  destruct (revealAll_loop (seq 0 (length (cells g))) g g w 0%nat
              eq_refl eq_refl eq_refl eq_refl) as (Hc & Hr & Hw).
  unfold revealAll. cbn [fst snd]. rewrite Hbtn. cbv zeta.
  cbn [fst snd cells revealed revealAllBtn]. rewrite Hc, Hr, Hw.
  split_and!; try done.
  - case_bool_decide; [|done]. apply refreshCoinDisplay_stats.
  - case_bool_decide; [|done]. apply refreshCoinDisplay_stats.
  - apply Forall_forall. intros cell [j Hj]%list_elem_of_lookup.
    apply (clicks_reveal_prefix (length (cells g)) (g, w) ltac:(done) j cell); [|done].
    apply lookup_lt_Some in Hj. by rewrite clicks_length in Hj.
Qed.

Lemma revealAll_as_clicks_witness :
  cells (revealAll sampleGrades).1 =
    cells (foldl (λ acc index, cellClick index acc) sampleGrades
             (seq 0 (length (cells sampleGrades.1)))).1 ∧
  revealed (revealAll sampleGrades).1 =
    revealed (foldl (λ acc index, cellClick index acc) sampleGrades
                (seq 0 (length (cells sampleGrades.1)))).1 ∧
  _statsCache (revealAll sampleGrades).2 =
    _statsCache (foldl (λ acc index, cellClick index acc) sampleGrades
                   (seq 0 (length (cells sampleGrades.1)))).2 ∧
  statsWrites (revealAll sampleGrades).2 =
    statsWrites (foldl (λ acc index, cellClick index acc) sampleGrades
                   (seq 0 (length (cells sampleGrades.1)))).2 ∧
  Forall (λ cell, c_revealed cell = true) (cells (revealAll sampleGrades).1) ∧
  revealAllBtn (revealAll sampleGrades).1 = false.
Proof. apply (revealAll_as_clicks sampleGrades). reflexivity. Defined.

(** X11. A grade is counted once: a click on a cell leaves the cell
    revealed, and a further click on it changes neither the cells, nor the
    set of revealed indices, nor what was written to storage, nor the
    statistics, the clock readings taken or the dashboard; it can only show
    the overlay again. *)
Theorem cellClick_counted_once (index : nat) (p : GradesPage * World) :
  (∀ cell, cells (cellClick index p).1 !! index = Some cell → c_revealed cell = true) ∧
  cells (cellClick index (cellClick index p)).1 = cells (cellClick index p).1 ∧
  revealed (cellClick index (cellClick index p)).1 = revealed (cellClick index p).1 ∧
  revealedWrites (cellClick index (cellClick index p)).1 =
    revealedWrites (cellClick index p).1 ∧
  (cellClick index (cellClick index p)).2 = (cellClick index p).2.
Proof.
  destruct (cells p.1 !! index) as [cell|] eqn:Hi.
  - destruct (cellClick_reveals index p cell Hi) as (cell' & Hc' & Hrev).
    split; [intros c Hc; congruence|].
    set (q := cellClick index p) in *. unfold cellClick.
    rewrite Hc', Hrev. done.
  - assert (Hq : cellClick index p = p) by (unfold cellClick; by rewrite Hi).
    rewrite !Hq. split; [intros c Hc; congruence|done].
Qed.

Lemma tally_alter (P : Cell → bool) (cs : list Cell) (index : nat) (cell : Cell) :
  cs !! index = Some cell → c_revealed cell = false → P (reveal cell) = P cell →
  tally P (alter reveal index cs) = tally P cs + (if P cell then 1 else 0).
Proof.
  unfold tally. revert index. induction cs as [|c cs IH]; intros index Hi Hrev HP; [done|].
  destruct index as [|index]; cbn in Hi.
  - injection Hi as ->. cbn [alter list_alter].
    rewrite (filter_cons_False _ cell) by (rewrite Hrev; cbn; tauto).
    destruct (P cell) eqn:HPc.
    + rewrite filter_cons_True by (rewrite HP; exact I). cbn [length]. lia.
    + rewrite filter_cons_False by (rewrite HP; cbn; tauto). lia.
  - cbn [alter list_alter]. specialize (IH index Hi Hrev HP).
    destruct (decide (c_revealed c && P c)) as [Hc|Hc].
    + rewrite !filter_cons_True by done. cbn [length]. lia.
    + rewrite !filter_cons_False by done. lia.
Qed.

Lemma tally_bounds (P : Cell → bool) (cs : list Cell) :
  0 ≤ tally P cs ≤ Z.of_nat (length cs).
Proof.
  unfold tally.
  pose proof (length_filter (λ cell, c_revealed cell && P cell) cs). lia.
Qed.

Lemma St_bind_eq {A B} (m : St A) (k : A → St B) (w : World) :
  (m ≫= k) w = k (m w).1 (m w).2.
Proof. reflexivity. Qed.

Lemma later_refl (w : World) : later w w.
Proof. by split_and!. Qed.

Lemma later_trans (w1 w2 w3 : World) : later w1 w2 → later w2 w3 → later w1 w3.
Proof.
  intros (H1 & H2 & H3 & H4 & H5 & H6) (K1 & K2 & K3 & K4 & K5 & K6).
  split_and!; try congruence; try lia; etrans; eauto.
Qed.

Lemma Date_now_later (w : World) : later w (Date_now w).2.
Proof. unfold later. cbn. split_and!; try done; lia. Qed.

Lemma Date_now_cache (w : World) : _statsCache (Date_now w).2 = _statsCache w.
Proof. reflexivity. Qed.

Lemma Date_now_inSync (w : World) : inSync w → inSync (Date_now w).2.
Proof. done. Qed.

Lemma refreshCoinDisplay_later (w : World) : later w (refreshCoinDisplay w).2.
Proof.
  destruct w as [stats ws cl t ld ps sc lv]. unfold later. unfold_St. cbn.
  repeat (case_match; cbn); split_and!; try done; try lia; by split.
Qed.

Lemma updateStatistic_publish (key : StatKey) (increment : float) (w : World) :
  updateStatistic key increment w = publish (addTo key increment (_statsCache w)) w.
Proof. reflexivity. Qed.

Lemma publish_later (stats : GradeStatistics) (w : World) : later w (publish stats w).2.
Proof.
  destruct w as [stats0 ws cl t ld ps sc lv]. unfold later, publish. unfold_St. cbn.
  repeat (case_match; cbn); split_and!; try done; try lia; by split.
Qed.

Lemma publish_inSync (stats : GradeStatistics) (w : World) :
  (is_Some (leverDisabled w) → is_Some (slotCoins w)) →
  inSync (publish stats w).2.
Proof.
  destruct w as [stats0 ws cl t ld ps sc lv]. unfold inSync, publish. unfold_St. cbn.
  intros Hp.
  destruct sc as [n|]; cbn.
  2:{ destruct lv as [b|]; [exfalso; destruct Hp as [? [=]]; by eexists|].
      destruct ps; cbn; split_and!; try done; by intros ? [= <-]. }
  destruct lv as [b|]; cbn.
  2:{ destruct ps; cbn; split_and!; try done; by intros ? [= <-]. }
  destruct ps; cbn.
  all: destruct (PrimFloat.leb (coins stats) 0) eqn:Hc; cbn;
    [case_bool_decide; cbn|]; split_and!; try done; by intros ? [= <-].
Qed.

Lemma updateStatistic_later (key : StatKey) (increment : float) (w : World) :
  later w (updateStatistic key increment w).2.
Proof. rewrite updateStatistic_publish. apply publish_later. Qed.

Lemma updateStatistic_inSync (key : StatKey) (increment : float) (w : World) :
  (is_Some (leverDisabled w) → is_Some (slotCoins w)) →
  inSync (updateStatistic key increment w).2.
Proof. rewrite updateStatistic_publish. apply publish_inSync. Qed.

Lemma updateStatistic_cache (key : StatKey) (increment : float) (w : World) :
  _statsCache (updateStatistic key increment w).2 =
    withLastUpdated (clock w (ticks w)) (addTo key increment (_statsCache w)).
Proof. apply updateStatistic_stats. Qed.

Lemma addGradeEntry_cache (type : EntryType) (entry : GradeEntry) (w : World) :
  _statsCache (addGradeEntry type entry w).2 =
    withLastUpdated (clock w (ticks w)) (pushEntry type entry (_statsCache w)).
Proof. reflexivity. Qed.

Lemma addGradeEntry_later (type : EntryType) (entry : GradeEntry) (w : World) :
  later w (addGradeEntry type entry w).2.
Proof. rewrite addGradeEntry_stats. unfold later. cbn. split_and!; try done; lia. Qed.

Lemma addGradeEntry_inSync (type : EntryType) (entry : GradeEntry) (w : World) :
  inSync w → inSync (addGradeEntry type entry w).2.
Proof.
  intros (H1 & H2 & H3 & H4). rewrite addGradeEntry_stats. unfold inSync. cbn.
  split_and!; [done| |done|done].
  intros shown Hs. destruct (H2 shown Hs) as (? & ? & ?). by destruct type.
Qed.

Lemma useFreeSpinToday_later (w : World) : later w (useFreeSpinToday w).2.
Proof. unfold later. unfold_St. cbn. split_and!; try done; lia. Qed.

Lemma setTotalGrades_later (total : float) (w : World) :
  later w (setTotalGrades total w).2.
Proof. unfold later. unfold_St. cbn. split_and!; try done; lia. Qed.

Ltac later_chain :=
  lazymatch goal with
  | |- later ?w (updateStatistic _ _ ?w1).2 =>
      apply (later_trans w w1); [later_chain | apply updateStatistic_later]
  | |- later ?w (addGradeEntry _ _ ?w1).2 =>
      apply (later_trans w w1); [later_chain | apply addGradeEntry_later]
  | |- later ?w (Date_now ?w1).2 =>
      apply (later_trans w w1); [later_chain | apply Date_now_later]
  | |- later ?w (refreshCoinDisplay ?w1).2 =>
      apply (later_trans w w1); [later_chain | apply refreshCoinDisplay_later]
  | |- later ?w (useFreeSpinToday ?w1).2 =>
      apply (later_trans w w1); [later_chain | apply useFreeSpinToday_later]
  | |- later ?w (setTotalGrades _ ?w1).2 =>
      apply (later_trans w w1); [later_chain | apply setTotalGrades_later]
  | |- later ?w _ => apply later_refl
  end.

Ltac inSync_chain w Hs :=
  lazymatch goal with
  | |- inSync (addGradeEntry _ _ ?w1).2 => apply addGradeEntry_inSync; inSync_chain w Hs
  | |- inSync (Date_now ?w1).2 => apply Date_now_inSync; inSync_chain w Hs
  | |- inSync (updateStatistic _ _ ?w1).2 =>
      apply updateStatistic_inSync;
      let Hl := fresh in
      let Hc := fresh in
      let Hv := fresh in
      assert (Hl : later w w1) by later_chain;
      destruct Hl as (_ & _ & _ & _ & Hc & Hv);
      intros ?; apply Hc, (proj2 (proj2 (proj2 Hs))), Hv; assumption
  | |- inSync _ => exact Hs
  end.

(** *** Crediting revealed grades *)

Lemma bump_0 (x : float) : bump 0 x = x.
Proof. reflexivity. Qed.

Lemma bump_1 (x : float) : bump 1 x = PrimFloat.add x 1.
Proof. reflexivity. Qed.

Lemma bump_2 (x : float) : bump 2 x = PrimFloat.add (PrimFloat.add x 1) 1.
Proof. reflexivity. Qed.

Lemma credited_refl (s : GradeStatistics) : credited 0 0 0 s s.
Proof. unfold credited. cbn. split_and!; (done || lia). Qed.

Lemma credited_trans (r p f r' p' f' : nat) (s s' s'' : GradeStatistics) :
  credited r p f s s' → credited r' p' f' s' s'' →
  credited (r + r') (p + p') (f + f') s s''.
Proof.
  intros (H1 & H2 & H3 & H4 & H5 & H6 & H7 & H8) (K1 & K2 & K3 & K4 & K5 & K6 & K7 & K8).
  unfold credited. rewrite K1, K2, K3, K4, K5, K6, K7, K8, H1, H2, H3, H4, H5, H6, H7, H8.
  rewrite <- !bump_add. split_and!; try done; try lia.
  f_equal. lia.
Qed.

(** The world after the first click on a hidden cell. *)
Lemma cellClick_fresh (index : nat) (g : GradesPage) (w : World) (cell : Cell) :
  cells g !! index = Some cell → c_revealed cell = false →
  later w (cellClick index (g, w)).2 ∧
  (inSync w → inSync (cellClick index (g, w)).2) ∧
  credited 1 (if c_perfect cell then 1 else 0) (if failed cell then 1 else 0)
    (_statsCache w) (_statsCache (cellClick index (g, w)).2).
Proof.
  intros Hi Hrev. unfold cellClick, failed. cbn [fst snd]. rewrite Hi, Hrev.
  cbn [snd].
  destruct (c_perfect cell), (c_zero cell); cbn [negb andb];
    repeat (rewrite St_bind_eq; cbn beta); unfold mret, St_ret; cbn [fst snd].
  all: split; [later_chain|].
  all: split; [intros Hs; inSync_chain w Hs|].
  all: rewrite ?addGradeEntry_cache, ?Date_now_cache, ?updateStatistic_cache.
  all: generalize (_statsCache w); intros stats; unfold credited; cbn;
    rewrite ?length_app; cbn [length]; split_and!; (reflexivity || lia).
Qed.

Lemma revealedMore_refl (cs : list Cell) : revealedMore 0 0 0 cs cs.
Proof. unfold revealedMore. lia. Qed.

Lemma revealedMore_trans (r p f r' p' f' : nat) (cs cs' cs'' : list Cell) :
  revealedMore r p f cs cs' → revealedMore r' p' f' cs' cs'' →
  revealedMore (r + r') (p + p') (f + f') cs cs''.
Proof. unfold revealedMore. lia. Qed.

Lemma revealedMore_newly (r p f : nat) (cs cs' : list Cell) :
  revealedMore r p f cs cs' →
  newly everyCell cs cs' = r ∧ newly c_perfect cs cs' = p ∧ newly failed cs cs' = f.
Proof. unfold revealedMore, newly. lia. Qed.

(** A click on a cell credits the grade it reveals, if it reveals one. *)
Lemma cellClick_credited (index : nat) (p : GradesPage * World) :
  ∃ r pf f : nat,
    (r ≤ 1)%nat ∧ (r ≤ length (cells p.1))%nat ∧ (pf ≤ r)%nat ∧ (f ≤ r)%nat ∧
    revealedMore r pf f (cells p.1) (cells (cellClick index p).1) ∧
    credited r pf f (_statsCache p.2) (_statsCache (cellClick index p).2).
Proof.
  destruct p as [g w]. cbn [fst snd].
  destruct (cells g !! index) as [cell|] eqn:Hi.
  2:{ exists 0%nat, 0%nat, 0%nat. unfold cellClick. cbn [fst snd]. rewrite Hi.
      split_and!; [lia..|apply revealedMore_refl|apply credited_refl]. }
  destruct (c_revealed cell) eqn:Hrev.
  { exists 0%nat, 0%nat, 0%nat. unfold cellClick. cbn [fst snd]. rewrite Hi, Hrev.
    split_and!; [lia..|apply revealedMore_refl|apply credited_refl]. }
  destruct (cellClick_fresh index g w cell Hi Hrev) as (_ & _ & Hc).
  exists 1%nat, (if c_perfect cell then 1 else 0)%nat, (if failed cell then 1 else 0)%nat.
  split; [lia|]. split; [apply lookup_lt_Some in Hi; lia|].
  split; [destruct (c_perfect cell); lia|].
  split; [destruct (failed cell); lia|]. split; [|done].
  assert (Hcells : cells (cellClick index (g, w)).1 = alter reveal index (cells g)).
  { unfold cellClick. cbn [fst]. by rewrite Hi, Hrev. }
  rewrite Hcells. unfold revealedMore.
  rewrite !(tally_alter _ (cells g) index cell Hi Hrev) by done.
  unfold everyCell. destruct (c_perfect cell), (failed cell); lia.
Qed.

Lemma clicks_credited (ixs : list nat) (p : GradesPage * World) :
  ∃ r pf f : nat,
    (r ≤ length ixs)%nat ∧ (pf ≤ r)%nat ∧ (f ≤ r)%nat ∧
    revealedMore r pf f (cells p.1)
      (cells (foldl (λ acc index, cellClick index acc) p ixs).1) ∧
    credited r pf f (_statsCache p.2)
      (_statsCache (foldl (λ acc index, cellClick index acc) p ixs).2).
Proof.
  revert p. induction ixs as [|index ixs IH]; intros p.
  - exists 0%nat, 0%nat, 0%nat. cbn [foldl length].
    split_and!; [lia..|apply revealedMore_refl|apply credited_refl].
  - cbn [foldl length].
    destruct (cellClick_credited index p) as (r & pf & f & Hr & _ & Hp & Hf & Hm & Hc).
    destruct (IH (cellClick index p)) as (r' & pf' & f' & Hr' & Hp' & Hf' & Hm' & Hc').
    exists (r + r')%nat, (pf + pf')%nat, (f + f')%nat.
    split_and!; [lia..| |].
    + by eapply revealedMore_trans.
    + by eapply credited_trans.
Qed.

Lemma revealAll_credited (p : GradesPage * World) :
  ∃ r pf f : nat,
    (r ≤ length (cells p.1))%nat ∧ (pf ≤ r)%nat ∧ (f ≤ r)%nat ∧
    revealedMore r pf f (cells p.1) (cells (revealAll p).1) ∧
    credited r pf f (_statsCache p.2) (_statsCache (revealAll p).2).
Proof.
  unfold revealAll. destruct (revealAllBtn p.1) eqn:Hbtn.
  2:{ exists 0%nat, 0%nat, 0%nat.
      split_and!; [lia..|apply revealedMore_refl|apply credited_refl]. }
  cbv zeta. destruct p as [g w]. cbn [fst snd] in *.
  destruct (revealAll_loop (seq 0 (length (cells g))) g g w 0%nat
              eq_refl eq_refl eq_refl eq_refl) as (Hc & Hr & Hw).
  destruct (clicks_credited (seq 0 (length (cells g))) (g, w))
    as (r & pf & f & Hr' & Hp & Hf & Hm & Hcr).
  rewrite length_seq in Hr'. cbn [fst snd] in Hm, Hcr.
  exists r, pf, f. cbn [cells]. rewrite Hc, Hw.
  split_and!; [done..|].
  case_bool_decide; [|done].
  by rewrite (proj1 (refreshCoinDisplay_stats _)).
Qed.

Lemma gradeHandle_credited (p : GradesPage * World) (e : GradeEvent) :
  ∃ r pf f : nat,
    (r ≤ length (cells p.1))%nat ∧ (pf ≤ r)%nat ∧ (f ≤ r)%nat ∧
    length (cells (gradeHandle p e).1) = length (cells p.1) ∧
    revealedMore r pf f (cells p.1) (cells (gradeHandle p e).1) ∧
    credited r pf f (_statsCache p.2) (_statsCache (gradeHandle p e).2).
Proof.
  destruct e as [index|]; cbn [gradeHandle].
  - destruct (cellClick_credited index p)
      as (r & pf & f & _ & Hr & Hp & Hf & Hm & Hc).
    exists r, pf, f. split_and!; try done. apply cellClick_length.
  - destruct (revealAll_credited p) as (r & pf & f & Hr & Hp & Hf & Hm & Hc).
    exists r, pf, f. split_and!; try done.
    unfold revealAll. destruct (revealAllBtn p.1); [|done]. cbv zeta.
    destruct p as [g w]. cbn [fst snd cells].
    destruct (revealAll_loop (seq 0 (length (cells g))) g g w 0%nat
                eq_refl eq_refl eq_refl eq_refl) as (Hcl & _ & _).
    by rewrite Hcl, clicks_length.
Qed.

Lemma events_credited (evs : list GradeEvent) (p : GradesPage * World) :
  ∃ r pf f : nat,
    (r ≤ length evs * length (cells p.1))%nat ∧ (pf ≤ r)%nat ∧ (f ≤ r)%nat ∧
    length (cells (foldl gradeHandle p evs).1) = length (cells p.1) ∧
    revealedMore r pf f (cells p.1) (cells (foldl gradeHandle p evs).1) ∧
    credited r pf f (_statsCache p.2) (_statsCache (foldl gradeHandle p evs).2).
Proof.
  revert p. induction evs as [|e evs IH]; intros p.
  - exists 0%nat, 0%nat, 0%nat. cbn [foldl length].
    split_and!; [lia..|done|apply revealedMore_refl|apply credited_refl].
  - cbn [foldl length].
    destruct (gradeHandle_credited p e) as (r & pf & f & Hr & Hp & Hf & Hl & Hm & Hc).
    destruct (IH (gradeHandle p e))
      as (r' & pf' & f' & Hr' & Hp' & Hf' & Hl' & Hm' & Hc').
    rewrite Hl in Hr'.
    exists (r + r')%nat, (pf + pf')%nat, (f + f')%nat.
    split_and!; [lia..|congruence| |].
    + by eapply revealedMore_trans.
    + by eapply credited_trans.
Qed.

(** X12. Accounting of revealed grades: over any sequence of clicks on
    cells and on the reveal-all button, the numbers of revealed, of perfect
    and of failed cells do not go down, and the statistics are credited
    with exactly the cells that got revealed:
    [revealedCount] is incremented once for each of them, [defeatedCount]
    once for each perfect one, [failCount] once for each zero (and not
    perfect) one, [coins] once for each of them and once more for each
    perfect one; the lists of entries grow by the perfect and by the failed
    ones; [totalGrades] and [lastFreeSpin] stay as they are. The counters
    are doubles, and an increment is the addition of 1 to a double: a
    counter that holds a whole number ends with that number plus the number
    of increments as long as this stays below 2^53. *)
Theorem grade_accounting (evs : list GradeEvent) (p : GradesPage * World) :
  let cs := cells p.1 in
  let cs' := cells (foldl gradeHandle p evs).1 in
  let s := _statsCache p.2 in
  let s' := _statsCache (foldl gradeHandle p evs).2 in
  (tally everyCell cs ≤ tally everyCell cs' ∧
   tally c_perfect cs ≤ tally c_perfect cs' ∧
   tally failed cs ≤ tally failed cs') ∧
  credited (newly everyCell cs cs') (newly c_perfect cs cs') (newly failed cs cs') s s' ∧
  (∀ n, whole (revealedCount s) n →
        n + (tally everyCell cs' - tally everyCell cs) < 2 ^ 53 →
        whole (revealedCount s') (n + (tally everyCell cs' - tally everyCell cs))) ∧
  (∀ n, whole (defeatedCount s) n →
        n + (tally c_perfect cs' - tally c_perfect cs) < 2 ^ 53 →
        whole (defeatedCount s') (n + (tally c_perfect cs' - tally c_perfect cs))) ∧
  (∀ n, whole (failCount s) n →
        n + (tally failed cs' - tally failed cs) < 2 ^ 53 →
        whole (failCount s') (n + (tally failed cs' - tally failed cs))) ∧
  (∀ n, whole (coins s) n →
        n + (tally everyCell cs' - tally everyCell cs) +
            (tally c_perfect cs' - tally c_perfect cs) < 2 ^ 53 →
        whole (coins s') (n + (tally everyCell cs' - tally everyCell cs) +
                              (tally c_perfect cs' - tally c_perfect cs))).
Proof.
  cbv zeta.
  destruct (events_credited evs p) as (r & pf & f & _ & _ & _ & _ & Hm & Hc).
  destruct (revealedMore_newly r pf f _ _ Hm) as (-> & -> & ->).
  destruct Hm as (Hr & Hp & Hf). rewrite Hr, Hp, Hf.
  destruct Hc as (H1 & H2 & H3 & H4 & H5 & H6 & H7 & H8).
  split; [lia|]. split; [by unfold credited|].
  split_and!; intros n Hn Hlt.
  - replace (n + (_ - _)) with (n + Z.of_nat r) in * by lia.
    rewrite H1. by apply bump_whole.
  - replace (n + (_ - _)) with (n + Z.of_nat pf) in * by lia.
    rewrite H2. by apply bump_whole.
  - replace (n + (_ - _)) with (n + Z.of_nat f) in * by lia.
    rewrite H3. by apply bump_whole.
  - replace (n + (_ - _) + (_ - _)) with (n + Z.of_nat (r + pf)) in * by lia.
    rewrite H4. by apply bump_whole.
Qed.

(** At 2^53 the addition of 1 gives 2^53 again: the counter of revealed
    grades stays where it is while a grade is revealed. *)
Example reveal_not_counted_at_2_53 :
  let p := cellClick 0 (sampleGrades.1, sampleWorld fullStats) in
  (c_revealed <$> cells sampleGrades.1 !! 0%nat) = Some false ∧
  (c_revealed <$> cells p.1 !! 0%nat) = Some true ∧
  revealedCount (_statsCache p.2) = 9007199254740992%float ∧
  coins (_statsCache p.2) = 2%float.
Proof. cbv zeta. split_and!; reflexivity. Qed.

(** The page of three grades, the third revealed on an earlier visit:
    revealing all credits two grades, one perfect and one failed. *)
Example revealAll_sample_credits :
  revealedCount (_statsCache (revealAll sampleGrades).2) = 2%float ∧
  defeatedCount (_statsCache (revealAll sampleGrades).2) = 1%float ∧
  failCount (_statsCache (revealAll sampleGrades).2) = 1%float ∧
  coins (_statsCache (revealAll sampleGrades).2) = 3%float ∧
  totalGrades (_statsCache (revealAll sampleGrades).2) = 3%float.
Proof. split_and!; reflexivity. Qed.
Lemma elem_of_setAdd (set : list nat) (i j : nat) :
  j ∈ setAdd set i ↔ j ∈ set ∨ j = i.
Proof.
  unfold setAdd. case_bool_decide.
  - split; [by left|]. by intros [?| ->].
  - by rewrite elem_of_app, list_elem_of_singleton.
Qed.

Lemma elem_of_foldl_setAdd (arr acc : list nat) (j : nat) :
  j ∈ foldl setAdd acc arr ↔ j ∈ acc ∨ j ∈ arr.
Proof.
  revert acc. induction arr as [|i arr IH]; intros acc; cbn [foldl].
  - split; [by left|]. by intros [?|?%elem_of_nil].
  - rewrite IH, elem_of_setAdd, elem_of_cons. naive_solver.
Qed.

Lemma elem_of_loadRevealed (arr : list nat) (j : nat) :
  j ∈ loadRevealed (Some arr) ↔ j ∈ arr.
Proof.
  unfold loadRevealed. cbn. rewrite elem_of_foldl_setAdd.
  split; [by intros [?%elem_of_nil|?] | by right].
Qed.

Lemma setup_cells (rows : list Cell) (subject url : string) (stored : option (list nat))
    (w : World) :
  cells (setupHiddenGrades rows subject url stored w).1 =
    imap (λ index cell, withRevealed (bool_decide (index ∈ loadRevealed stored)) cell) rows.
Proof. unfold setupHiddenGrades. by destruct rows. Qed.

Lemma setup_revealed (rows : list Cell) (subject url : string)
    (stored : option (list nat)) (w : World) :
  revealed (setupHiddenGrades rows subject url stored w).1 = loadRevealed stored ∧
  revealedWrites (setupHiddenGrades rows subject url stored w).1 = [].
Proof. unfold setupHiddenGrades. by destruct rows. Qed.

Lemma cellClick_marks (rows : list Cell) (index : nat) (p : GradesPage * World) :
  cells p.1 =
    imap (λ i cell, withRevealed (bool_decide (i ∈ revealed p.1)) cell) rows →
  cells (cellClick index p).1 =
    imap (λ i cell, withRevealed (bool_decide (i ∈ revealed (cellClick index p).1)) cell)
         rows.
Proof.
  intros Hinv. unfold cellClick. destruct (cells p.1 !! index) as [cell|] eqn:Hi; [|done].
  destruct (c_revealed cell) eqn:Hrev; cbn [fst cells revealed]; [done|].
  rewrite Hinv. apply list_eq. intros j.
  rewrite !list_lookup_imap. destruct (decide (j = index)) as [->|Hne].
  - rewrite list_lookup_alter_eq, list_lookup_imap.
    destruct (rows !! index) as [row|]; [|done]. cbn. f_equal.
    unfold reveal, withRevealed. cbn.
    by rewrite (bool_decide_eq_true_2 (index ∈ setAdd (revealed p.1) index))
      by (apply elem_of_setAdd; by right).
  - rewrite list_lookup_alter_ne, list_lookup_imap by done.
    destruct (rows !! j) as [row|]; [|done]. cbn. do 2 f_equal.
    apply bool_decide_ext. rewrite elem_of_setAdd. naive_solver.
Qed.

Lemma clicks_marks (rows : list Cell) (ixs : list nat) (p : GradesPage * World) :
  cells p.1 =
    imap (λ i cell, withRevealed (bool_decide (i ∈ revealed p.1)) cell) rows →
  cells (foldl (λ acc index, cellClick index acc) p ixs).1 =
    imap (λ i cell,
            withRevealed
              (bool_decide
                 (i ∈ revealed (foldl (λ acc index, cellClick index acc) p ixs).1)) cell)
         rows.
Proof.
  revert p. induction ixs as [|index ixs IH]; intros p Hinv; [done|].
  cbn [foldl]. by apply IH, cellClick_marks.
Qed.

Lemma revealAllStep_count (acc : GradesPage * World * nat) (index : nat) :
  (acc.2 ≤ (revealAllStep acc index).2)%nat ∧
  ((revealAllStep acc index).2 = acc.2 → revealAllStep acc index = acc).
Proof.
  unfold revealAllStep. destruct (cells acc.1.1 !! index) as [cell|]; [|done].
  destruct (c_revealed cell); cbn [snd]; [done|]. split; lia.
Qed.

Lemma revealAll_loop_count (ixs : list nat) (acc : GradesPage * World * nat) :
  (acc.2 ≤ (foldl revealAllStep acc ixs).2)%nat ∧
  ((foldl revealAllStep acc ixs).2 = acc.2 → foldl revealAllStep acc ixs = acc).
Proof.
  revert acc. induction ixs as [|index ixs IH]; intros acc; [done|].
  cbn [foldl]. destruct (IH (revealAllStep acc index)) as [Hle Heq].
  destruct (revealAllStep_count acc index) as [Hle' Heq'].
  split; [lia|]. intros Hn. rewrite Heq by lia. apply Heq'. lia.
Qed.

Lemma gradeHandle_marks (rows : list Cell) (stored : option (list nat))
    (p : GradesPage * World) (e : GradeEvent) :
  cells p.1 =
    imap (λ i cell, withRevealed (bool_decide (i ∈ revealed p.1)) cell) rows →
  (∀ i, i ∈ revealed p.1 ↔ i ∈ loadRevealed (storedNow stored p.1)) →
  cells (gradeHandle p e).1 =
    imap (λ i cell, withRevealed (bool_decide (i ∈ revealed (gradeHandle p e).1)) cell)
         rows ∧
  (∀ i, i ∈ revealed (gradeHandle p e).1 ↔
        i ∈ loadRevealed (storedNow stored (gradeHandle p e).1)).
Proof.
  intros Hinv Hst. destruct e as [index|]; cbn [gradeHandle].
  - split; [by apply cellClick_marks|].
    unfold cellClick. destruct (cells p.1 !! index) as [cell|]; [|done].
    destruct (c_revealed cell); cbn [fst revealed]; [done|].
    intros i. unfold storedNow. cbn [revealedWrites]. by rewrite elem_of_loadRevealed.
  - unfold revealAll. destruct (revealAllBtn p.1); [|done]. cbv zeta.
    destruct p as [g w]. cbn [fst snd] in *.
    destruct (revealAll_loop (seq 0 (length (cells g))) g g w 0%nat
                eq_refl eq_refl eq_refl eq_refl) as (Hc & Hr & _).
    pose proof (clicks_marks rows (seq 0 (length (cells g))) (g, w) Hinv) as Hm.
    cbn [cells revealed]. split; [by rewrite Hc, Hr|].
    case_bool_decide as Hn.
    + intros i. unfold storedNow. cbn [revealedWrites]. by rewrite elem_of_loadRevealed.
    + destruct (revealAll_loop_count (seq 0 (length (cells g))) (g, w, 0%nat))
        as [_ Heq].
      rewrite Heq by (cbn [snd]; lia). exact Hst.
Qed.

(** X13. What is revealed stays revealed: after any clicks on cells and on
    the reveal-all button, loading the same grades page again, with what
    the storage key of the page then holds, sets up exactly the cells the
    visit ended with, the same ones revealed and the same ones hidden. *)
Theorem reveal_survives_reload (rows : list Cell) (subject url : string)
    (stored : option (list nat)) (w w' : World) (evs : list GradeEvent) :
  cells (setupHiddenGrades rows subject url
           (storedNow stored
              (foldl gradeHandle (setupHiddenGrades rows subject url stored w) evs).1)
           w').1 =
    cells (foldl gradeHandle (setupHiddenGrades rows subject url stored w) evs).1.
Proof.
  assert (Hinv : ∀ evs p,
            cells p.1 =
              imap (λ i cell, withRevealed (bool_decide (i ∈ revealed p.1)) cell) rows →
            (∀ i, i ∈ revealed p.1 ↔ i ∈ loadRevealed (storedNow stored p.1)) →
            cells (foldl gradeHandle p evs).1 =
              imap (λ i cell,
                      withRevealed
                        (bool_decide (i ∈ revealed (foldl gradeHandle p evs).1)) cell)
                   rows ∧
            (∀ i, i ∈ revealed (foldl gradeHandle p evs).1 ↔
                  i ∈ loadRevealed (storedNow stored (foldl gradeHandle p evs).1))).
  { clear. intros evs. induction evs as [|e evs IH]; intros p H1 H2; [done|].
    cbn [foldl]. destruct (gradeHandle_marks rows stored p e H1 H2). by apply IH. }
  set (p0 := setupHiddenGrades rows subject url stored w).
  destruct (setup_revealed rows subject url stored w) as [Hr0 Hw0]. fold p0 in Hr0, Hw0.
  destruct (Hinv evs p0) as [Hc Hst].
  - unfold p0. by rewrite setup_cells, (proj1 (setup_revealed _ _ _ _ _)).
  - intros i. unfold storedNow. by rewrite Hw0, Hr0.
  - rewrite setup_cells, Hc. apply imap_ext. intros i row _. cbn. f_equal.
    apply bool_decide_ext. symmetry. apply Hst.
Qed.



(** *** Coins, the lever and the dashboard *)

Ltac split4 := split; [|split; [|split]].

Lemma cellClick_world (index : nat) (p : GradesPage * World) :
  later p.2 (cellClick index p).2 ∧
  (inSync p.2 → inSync (cellClick index p).2) ∧
  lastFreeSpin (_statsCache (cellClick index p).2) = lastFreeSpin (_statsCache p.2).
Proof.
  destruct p as [g w]. cbn [snd].
  destruct (cells g !! index) as [cell|] eqn:Hi.
  2:{ unfold cellClick. cbn [fst snd]. rewrite Hi.
      split_and!; [apply later_refl|done|done]. }
  destruct (c_revealed cell) eqn:Hrev.
  { unfold cellClick. cbn [fst snd]. rewrite Hi, Hrev. cbn [snd].
    split_and!; [apply later_refl|done|done]. }
  destruct (cellClick_fresh index g w cell Hi Hrev) as (Hl & Hs & Hc).
  split; [done|]. split; [done|]. apply Hc.
Qed.

Lemma clicks_world (ixs : list nat) (p : GradesPage * World) :
  later p.2 (foldl (λ acc index, cellClick index acc) p ixs).2 ∧
  (inSync p.2 → inSync (foldl (λ acc index, cellClick index acc) p ixs).2) ∧
  lastFreeSpin (_statsCache (foldl (λ acc index, cellClick index acc) p ixs).2) =
    lastFreeSpin (_statsCache p.2).
Proof.
  revert p. induction ixs as [|index ixs IH]; intros p.
  - split_and!; [apply later_refl|done|done].
  - cbn [foldl]. destruct (IH (cellClick index p)) as (H1 & H2 & H3).
    destruct (cellClick_world index p) as (K1 & K2 & K3).
    split_and!; [by eapply later_trans|auto|congruence].
Qed.

Lemma refreshCoinDisplay_inSync (w : World) : inSync w → inSync (refreshCoinDisplay w).2.
Proof.
  destruct w as [stats ws cl t ld ps sc lv]. unfold inSync.
  intros (H1 & H2 & H3 & H4). cbn in *.
  unfold refreshCoinDisplay, refreshLever, hasFreeSpinToday, otherDay, setSlotCoins,
    setLeverDisabled, loadStatistics, Date_now, mbind, St_bind, mret, St_ret. cbn.
  destruct sc as [n|]; cbn; [|done].
  destruct lv as [b|]; cbn.
  2:{ split_and!; try done. by intros ? [= <-]. }
  destruct (PrimFloat.leb (coins stats) 0) eqn:Hc; cbn.
  - case_bool_decide; cbn; split_and!; try done; by intros ? [= <-].
  - split_and!; try done; by intros ? [= <-].
Qed.

Lemma revealAll_world (p : GradesPage * World) :
  later p.2 (revealAll p).2 ∧
  (inSync p.2 → inSync (revealAll p).2) ∧
  lastFreeSpin (_statsCache (revealAll p).2) = lastFreeSpin (_statsCache p.2).
Proof.
  unfold revealAll. destruct (revealAllBtn p.1);
    [|split_and!; [apply later_refl|done|done]].
  cbv zeta. destruct p as [g w]. cbn [fst snd].
  destruct (revealAll_loop (seq 0 (length (cells g))) g g w 0%nat
              eq_refl eq_refl eq_refl eq_refl) as (_ & _ & Hw).
  rewrite Hw.
  destruct (clicks_world (seq 0 (length (cells g))) (g, w)) as (H1 & H2 & H3).
  cbn [snd] in *. case_bool_decide; [|done].
  set (w1 := (foldl (λ acc index, cellClick index acc) (g, w)
                (seq 0 (length (cells g)))).2) in *.
  destruct (refreshCoinDisplay_stats w1) as (Hc & _).
  split_and!.
  - eapply later_trans; [exact H1|apply refreshCoinDisplay_later].
  - intros Hs. by apply refreshCoinDisplay_inSync, H2.
  - by rewrite Hc.
Qed.

Lemma gradeHandle_world (p : GradesPage * World) (e : GradeEvent) :
  later p.2 (gradeHandle p e).2 ∧
  (inSync p.2 → inSync (gradeHandle p e).2) ∧
  lastFreeSpin (_statsCache (gradeHandle p e).2) = lastFreeSpin (_statsCache p.2).
Proof. destruct e; [apply cellClick_world | apply revealAll_world]. Qed.

Lemma hasFreeSpinToday_spec (w : World) :
  (hasFreeSpinToday w).1 =
    (if bool_decide (lastFreeSpin (_statsCache w) = 0) then true
     else bool_decide (localDate w (lastFreeSpin (_statsCache w)) ≠
                       localDate w (clock w (ticks w)))) ∧
  _statsCache (hasFreeSpinToday w).2 = _statsCache w ∧
  statsWrites (hasFreeSpinToday w).2 = statsWrites w ∧
  later w (hasFreeSpinToday w).2 ∧
  (inSync w → inSync (hasFreeSpinToday w).2).
Proof.
  destruct w as [stats ws cl t ld ps sc lv]. unfold later, inSync.
  unfold hasFreeSpinToday, otherDay, loadStatistics, Date_now, mbind, St_bind, mret,
    St_ret. cbn.
  case_bool_decide; cbn; split_and!; try done; lia.
Qed.

Lemma useFreeSpinToday_spec (w : World) :
  coins (_statsCache (useFreeSpinToday w).2) = coins (_statsCache w) ∧
  lastFreeSpin (_statsCache (useFreeSpinToday w).2) = clock w (ticks w) ∧
  (inSync w → inSync (useFreeSpinToday w).2).
Proof.
  destruct w as [stats ws cl t ld ps sc lv]. unfold inSync.
  unfold useFreeSpinToday, saveStatistics, putStatistics, loadStatistics, Date_now,
    mbind, St_bind, mret, St_ret. cbn.
  split_and!; done.
Qed.

Lemma updateStatistic_coins (increment : float) (w : World) :
  coins (_statsCache (updateStatistic Kcoins increment w).2) =
    PrimFloat.add (coins (_statsCache w)) increment ∧
  lastFreeSpin (_statsCache (updateStatistic Kcoins increment w).2) =
    lastFreeSpin (_statsCache w).
Proof. by rewrite (proj1 (updateStatistic_stats Kcoins increment w)). Qed.

(** The three ways a click on the lever can go. *)
Lemma leverClick_world (t0 t1 t2 : nat) (sl : Slot) (w : World) :
  spinning sl = false →
  later w (leverClick t0 t1 t2 (sl, w)).2 ∧
  (inSync w → inSync (leverClick t0 t1 t2 (sl, w)).2) ∧
  ((hasFreeSpinToday w).1 = true →
     spinning (leverClick t0 t1 t2 (sl, w)).1 = true ∧
     coins (_statsCache (leverClick t0 t1 t2 (sl, w)).2) = coins (_statsCache w) ∧
     lastFreeSpin (_statsCache (leverClick t0 t1 t2 (sl, w)).2) =
       clock w (ticks (hasFreeSpinToday w).2)) ∧
  ((hasFreeSpinToday w).1 = false → PrimFloat.leb (coins (_statsCache w)) 0 = false →
     spinning (leverClick t0 t1 t2 (sl, w)).1 = true ∧
     coins (_statsCache (leverClick t0 t1 t2 (sl, w)).2) =
       PrimFloat.add (coins (_statsCache w)) (-1) ∧
     lastFreeSpin (_statsCache (leverClick t0 t1 t2 (sl, w)).2) =
       lastFreeSpin (_statsCache w)) ∧
  ((hasFreeSpinToday w).1 = false → PrimFloat.leb (coins (_statsCache w)) 0 = true →
     spinning (leverClick t0 t1 t2 (sl, w)).1 = false ∧
     resultEl (leverClick t0 t1 t2 (sl, w)).1 = NoCoins ∧
     _statsCache (leverClick t0 t1 t2 (sl, w)).2 = _statsCache w ∧
     statsWrites (leverClick t0 t1 t2 (sl, w)).2 = statsWrites w).
Proof.
  intros Hspin. unfold leverClick. cbn [fst snd]. rewrite Hspin.
  change (loadStatistics w).2 with w. change (loadStatistics w).1 with (_statsCache w).
  destruct (hasFreeSpinToday_spec w) as (_ & Hcache & Hwrites & Hlater & Hsync).
  set (w1 := (hasFreeSpinToday w).2) in *.
  destruct ((hasFreeSpinToday w).1) eqn:Hfree.
  - rewrite andb_false_r. cbn [fst snd]. rewrite St_bind_eq.
    destruct (useFreeSpinToday_spec w1) as (Hc & Hl & Hs).
    destruct (refreshCoinDisplay_stats (useFreeSpinToday w1).2) as (Hrc & _).
    pose proof Hlater as (Hclock & _).
    split4; [|intros ?; by apply refreshCoinDisplay_inSync, Hs, Hsync| |split; [done|]].
    + eapply later_trans; [|apply refreshCoinDisplay_later].
      eapply later_trans; [exact Hlater|apply useFreeSpinToday_later].
    + intros _. split; [done|]. rewrite Hrc, Hc, Hl, Hcache, Hclock. done.
    + split; intros; done.
  - rewrite andb_true_r.
    destruct (PrimFloat.leb (coins (_statsCache w)) 0) eqn:Hco; cbn [fst snd].
    + split4; [done|done|done|]. split; [intros _ ?; done|]. by intros _ _.
    + destruct (updateStatistic_coins (-1) w1) as (Hc & Hl).
      split4; [|intros Hs|done|].
      * eapply later_trans; [exact Hlater|apply updateStatistic_later].
      * apply updateStatistic_inSync. apply Hsync in Hs. apply Hs.
      * split; [|intros _ ?; done]. intros _ _. rewrite Hc, Hl, Hcache.
        split; [done|]. split; done.
Qed.

Lemma freeSpinTaken_no_free (w : World) :
  freeSpinTaken w → (hasFreeSpinToday w).1 = false.
Proof.
  intros [Hne Hday]. rewrite (proj1 (hasFreeSpinToday_spec w)).
  rewrite bool_decide_eq_false_2 by done.
  apply bool_decide_eq_false_2. intros Hd. apply Hd. symmetry. by apply Hday.
Qed.

Lemma freeSpinTaken_later (w w' : World) :
  later w w' → lastFreeSpin (_statsCache w') = lastFreeSpin (_statsCache w) →
  freeSpinTaken w → freeSpinTaken w'.
Proof.
  intros (Hc & Hd & Ht & _) Hl [Hne Hday]. split; [congruence|].
  intros n Hn. rewrite Hc, Hd, Hl. apply Hday. lia.
Qed.

Lemma spinDone_world (msg : nat) (c : Slot * World) :
  later c.2 (spinDone msg c).2 ∧
  (inSync c.2 → inSync (spinDone msg c).2) ∧
  (coins (_statsCache (spinDone msg c).2) = coins (_statsCache c.2) ∨
   coins (_statsCache (spinDone msg c).2) = PrimFloat.add (coins (_statsCache c.2)) 10) ∧
  lastFreeSpin (_statsCache (spinDone msg c).2) = lastFreeSpin (_statsCache c.2).
Proof.
  destruct c as [sl w]. unfold spinDone. cbn [fst snd].
  destruct (spinning sl); [|split4; [apply later_refl|done|by left|done]].
  destruct (results sl) as [[a b] d].
  destruct (bool_decide (a = b) && bool_decide (b = d)); cbn [snd].
  - destruct (updateStatistic_coins 10 w) as [Hc Hl].
    split4; [apply updateStatistic_later| |by right|done].
    intros Hs. apply updateStatistic_inSync, Hs.
  - destruct (bool_decide (a = b) || bool_decide (b = d) || bool_decide (a = d));
      cbn [snd]; split4;
      [apply later_refl|done|by left|done|apply later_refl|done|by left|done].
Qed.

Lemma slotHandle_world (c : Slot * World) (e : SlotEvent) :
  later c.2 (slotHandle c e).2 ∧
  (inSync c.2 → inSync (slotHandle c e).2) ∧
  (freeSpinTaken c.2 →
     lastFreeSpin (_statsCache (slotHandle c e).2) = lastFreeSpin (_statsCache c.2)).
Proof.
  destruct c as [sl w]. destruct e as [t0 t1 t2|msg]; cbn [slotHandle fst snd].
  - destruct (spinning sl) eqn:Hspin.
    { unfold leverClick. cbn [fst]. rewrite Hspin. cbn [snd].
      split_and!; [apply later_refl|done|done]. }
    destruct (leverClick_world t0 t1 t2 sl w Hspin) as (Hl & Hs & Hfree & Hpaid & Hno).
    split_and!; [done|done|].
    intros Htaken. pose proof (freeSpinTaken_no_free w Htaken) as Hf.
    destruct (PrimFloat.leb (coins (_statsCache w)) 0) eqn:Hco.
    + by destruct (Hno Hf eq_refl) as (_ & _ & -> & _).
    + by destruct (Hpaid Hf eq_refl) as (_ & _ & ->).
  - destruct (spinDone_world msg (sl, w)) as (H1 & H2 & H3 & H4). cbn [snd] in *.
    split_and!; done.
Qed.

Lemma handleEvent_world (c : GradesPage * Slot * World) (e : Event) :
  later c.2 (handleEvent c e).2 ∧
  (inSync c.2 → inSync (handleEvent c e).2) ∧
  (freeSpinTaken c.2 →
     lastFreeSpin (_statsCache (handleEvent c e).2) = lastFreeSpin (_statsCache c.2)).
Proof.
  destruct c as [[g sl] w]. destruct e as [e|e]; cbn [handleEvent fst snd].
  - destruct (gradeHandle_world (g, w) e) as (H1 & H2 & H3). cbn [snd] in *.
    split_and!; done.
  - apply (slotHandle_world (sl, w) e).
Qed.

Lemma events_world (evs : list Event) (c : GradesPage * Slot * World) :
  later c.2 (foldl handleEvent c evs).2 ∧
  (inSync c.2 → inSync (foldl handleEvent c evs).2) ∧
  (freeSpinTaken c.2 →
     freeSpinTaken (foldl handleEvent c evs).2 ∧
     lastFreeSpin (_statsCache (foldl handleEvent c evs).2) =
       lastFreeSpin (_statsCache c.2)).
Proof.
  revert c. induction evs as [|e evs IH]; intros c.
  - split_and!; [apply later_refl|done|done].
  - cbn [foldl]. destruct (IH (handleEvent c e)) as (H1 & H2 & H4).
    destruct (handleEvent_world c e) as (K1 & K2 & K4).
    split_and!; [by eapply later_trans|auto|].
    intros Ht. specialize (K4 Ht).
    destruct H4 as [H4 H5]; [by apply (freeSpinTaken_later c.2)|].
    split; [done|congruence].
Qed.

(** X14. The dashboard stays in step with the statistics: if the coin
    badge shows the cached coins, the statistics panel the three cached
    counters, and the lever is not disabled while a coin is left, then the
    same holds after any sequence of clicks on grade cells, on the
    reveal-all button and on the lever, and of finished spins. *)
Theorem dashboard_in_sync (evs : list Event) (c : GradesPage * Slot * World) :
  inSync c.2 → inSync (foldl handleEvent c evs).2.
Proof. apply events_world. Qed.

(** *** Whole balances *)

Lemma handleEvent_length (c : GradesPage * Slot * World) (e : Event) :
  length (cells (handleEvent c e).1.1) = length (cells c.1.1).
Proof.
  destruct c as [[g sl] w]. destruct e as [e|e]; cbn [handleEvent fst snd]; [|done].
  by destruct (gradeHandle_credited (g, w) e) as (r & pf & f & _ & _ & _ & Hl & _).
Qed.

(** One event leaves a whole balance whole, and raises it by ten or by two
    coins for every grade cell at most. *)
Lemma handleEvent_whole (c : GradesPage * Slot * World) (e : Event) (n : Z) :
  whole (coins (_statsCache c.2)) n →
  n + (10 + 2 * Z.of_nat (length (cells c.1.1))) < 2 ^ 53 →
  ∃ n', whole (coins (_statsCache (handleEvent c e).2)) n' ∧
        n' ≤ n + (10 + 2 * Z.of_nat (length (cells c.1.1))).
Proof.
  intros Hw Hn. pose proof (proj2 Hw) as Hn0.
  destruct c as [[g sl] w]. cbn [fst snd] in *.
  destruct e as [e|[t0 t1 t2|msg]]; cbn [handleEvent slotHandle fst snd].
  - destruct (gradeHandle_credited (g, w) e)
      as (r & pf & f & Hr & Hp & _ & _ & _ & Hc).
    cbn [fst snd] in *. destruct Hc as (_ & _ & _ & Hc & _).
    exists (n + Z.of_nat (r + pf)). split; [|lia].
    rewrite Hc. apply bump_whole; [done|lia].
  - destruct (spinning sl) eqn:Hspin.
    { unfold leverClick. cbn [fst]. rewrite Hspin. cbn [snd]. exists n. split; [done|lia]. }
    destruct (leverClick_world t0 t1 t2 sl w Hspin) as (_ & _ & Hfree & Hpaid & Hno).
    destruct ((hasFreeSpinToday w).1) eqn:Hf.
    + destruct (Hfree eq_refl) as (_ & -> & _). exists n. split; [done|lia].
    + destruct (whole_leb_0 _ _ Hw) as [Hleb _].
      destruct (PrimFloat.leb (coins (_statsCache w)) 0) eqn:Hco.
      * destruct (Hno eq_refl eq_refl) as (_ & _ & -> & _). exists n. split; [done|lia].
      * destruct (Hpaid eq_refl eq_refl) as (_ & -> & _).
        symmetry in Hleb. apply Z.leb_gt in Hleb.
        exists (n + -1). split; [|lia].
        change (-1)%float with (numberOfZ (-1)). apply whole_add; [done|lia|lia].
  - destruct (spinDone_world msg (sl, w)) as (_ & _ & [Hc|Hc] & _); cbn [snd] in Hc.
    + exists n. rewrite Hc. split; [done|lia].
    + exists (n + 10). rewrite Hc. split; [|lia].
      change 10%float with (numberOfZ 10). apply whole_add; [done|lia|lia].
Qed.

Lemma events_whole (evs : list Event) (c : GradesPage * Slot * World) (n : Z) :
  whole (coins (_statsCache c.2)) n →
  n + (10 + 2 * Z.of_nat (length (cells c.1.1))) * Z.of_nat (length evs) < 2 ^ 53 →
  ∃ n', whole (coins (_statsCache (foldl handleEvent c evs).2)) n'.
Proof.
  revert c n. induction evs as [|e evs IH]; intros c n Hw Hn; [by exists n|].
  cbn [foldl]. cbn [length] in Hn.
  destruct (handleEvent_whole c e n Hw ltac:(lia)) as (n1 & Hw1 & Hn1).
  apply (IH (handleEvent c e) n1 Hw1). rewrite handleEvent_length. lia.
Qed.

(** X15. Coins never go below zero, when the balance is a whole number:
    from a balance that is a whole number and not negative, and as long as
    the coins that the events can bring (ten for a jackpot, two for every
    grade cell of the page) keep it below 2^53, any sequence of reveals,
    pulls of the lever and finished spins leaves a balance that is a whole
    number again, so [0 <= coins] holds. A pull without a coin and without
    the free spin of the day is refused. *)
Theorem coins_never_negative (evs : list Event) (c : GradesPage * Slot * World) (n : Z) :
  whole (coins (_statsCache c.2)) n →
  n + (10 + 2 * Z.of_nat (length (cells c.1.1))) * Z.of_nat (length evs) < 2 ^ 53 →
  (∃ n', whole (coins (_statsCache (foldl handleEvent c evs).2)) n') ∧
  PrimFloat.leb 0 (coins (_statsCache (foldl handleEvent c evs).2)) = true.
Proof.
  intros Hw Hn. destruct (events_whole evs c n Hw Hn) as [n' Hw'].
  split; [by exists n'|]. by destruct (whole_leb_0 _ _ Hw').
Qed.

(** The balance need not be whole: storage may hold half a coin. Then
    [coins <= 0] is false, the pull is paid, and the balance is negative. *)
Example half_coin_pull_goes_negative :
  spinning (leverClick 0 1 2 (idleSlot, halfCoinWorld)).1 = true ∧
  coins (_statsCache (leverClick 0 1 2 (idleSlot, halfCoinWorld)).2) = (-0.5)%float ∧
  PrimFloat.leb 0 (coins (_statsCache (leverClick 0 1 2 (idleSlot, halfCoinWorld)).2)) =
    false.
Proof. split_and!; reflexivity. Qed.

(** X16. One free spin a day: once the free spin is taken, and as long as
    the clock stays on the local date of that spin, whatever happens in
    between, [lastFreeSpin] stays what it is and a pull of the lever is not
    free: it is refused when no coin is left, that is when [coins <= 0]
    holds, with the statistics untouched, and costs one coin otherwise, by
    the addition of -1 to the balance. *)
Theorem free_spin_once_a_day (evs : list Event) (c : GradesPage * Slot * World)
    (t0 t1 t2 : nat) :
  freeSpinTaken c.2 →
  lastFreeSpin (_statsCache (foldl handleEvent c evs).2) = lastFreeSpin (_statsCache c.2) ∧
  (spinning (foldl handleEvent c evs).1.2 = false →
   if PrimFloat.leb (coins (_statsCache (foldl handleEvent c evs).2)) 0 then
     spinning (leverClick t0 t1 t2 ((foldl handleEvent c evs).1.2,
                                    (foldl handleEvent c evs).2)).1 = false ∧
     _statsCache (leverClick t0 t1 t2 ((foldl handleEvent c evs).1.2,
                                       (foldl handleEvent c evs).2)).2 =
       _statsCache (foldl handleEvent c evs).2
   else
     spinning (leverClick t0 t1 t2 ((foldl handleEvent c evs).1.2,
                                    (foldl handleEvent c evs).2)).1 = true ∧
     coins (_statsCache (leverClick t0 t1 t2 ((foldl handleEvent c evs).1.2,
                                              (foldl handleEvent c evs).2)).2) =
       PrimFloat.add (coins (_statsCache (foldl handleEvent c evs).2)) (-1)).
Proof.
  intros Htaken.
  destruct (events_world evs c) as (_ & _ & Hkeep).
  destruct (Hkeep Htaken) as [Htaken' Hlast]. split; [done|].
  intros Hspin. pose proof (freeSpinTaken_no_free _ Htaken') as Hf.
  destruct (leverClick_world t0 t1 t2 (foldl handleEvent c evs).1.2
              (foldl handleEvent c evs).2 Hspin) as (_ & _ & _ & Hpaid & Hno).
  destruct (PrimFloat.leb (coins (_statsCache (foldl handleEvent c evs).2)) 0) eqn:Hco.
  - by destruct (Hno Hf eq_refl) as (? & _ & ? & _).
  - by destruct (Hpaid Hf eq_refl) as (? & ? & _).
Qed.

Lemma sampleWorld_inSync (stats : GradeStatistics) : inSync (sampleWorld stats).
Proof.
  unfold inSync, sampleWorld. cbn. split_and!; try done.
  - by intros n [= <-].
  - by intros shown [= <-].
Qed.

Lemma eveningWorld_taken : freeSpinTaken eveningWorld.
Proof.
  split; [done|]. intros n _. cbn. f_equal.
  transitivity 19675; [symmetry|reflexivity].
  apply (Z.div_unique _ _ _ (80000000 + Z.min (Z.of_nat n) 1000)); lia.
Qed.

Lemma dashboard_in_sync_witness :
  inSync (foldl handleEvent (sampleGrades.1, idleSlot, sampleWorld EMPTY_STATS)
            [OnGrades (CellClick 0); OnSlot (LeverClick 1 1 1); OnSlot (SpinDone 0);
             OnGrades RevealAll]).2.
Proof.
  apply (dashboard_in_sync
           [OnGrades (CellClick 0); OnSlot (LeverClick 1 1 1); OnSlot (SpinDone 0);
            OnGrades RevealAll]
           (sampleGrades.1, idleSlot, sampleWorld EMPTY_STATS)).
  apply sampleWorld_inSync.
Defined.

Lemma coins_never_negative_witness :
  whole (coins (_statsCache (sampleWorld EMPTY_STATS))) 0 ∧
  (∃ n', whole (coins (_statsCache
                         (foldl handleEvent
                            (sampleGrades.1, idleSlot, sampleWorld EMPTY_STATS)
                            [OnSlot (LeverClick 0 1 2); OnSlot (SpinDone 3);
                             OnSlot (LeverClick 0 1 2); OnGrades (CellClick 1)]).2)) n') ∧
  PrimFloat.leb 0 (coins (_statsCache
                            (foldl handleEvent
                               (sampleGrades.1, idleSlot, sampleWorld EMPTY_STATS)
                               [OnSlot (LeverClick 0 1 2); OnSlot (SpinDone 3);
                                OnSlot (LeverClick 0 1 2); OnGrades (CellClick 1)]).2)) =
    true.
Proof.
  assert (Hw : whole (coins (_statsCache (sampleWorld EMPTY_STATS))) 0).
  { split; [reflexivity|]. vm_compute. split; [discriminate|reflexivity]. }
  split; [exact Hw|].
  apply (coins_never_negative
           [OnSlot (LeverClick 0 1 2); OnSlot (SpinDone 3);
            OnSlot (LeverClick 0 1 2); OnGrades (CellClick 1)]
           (sampleGrades.1, idleSlot, sampleWorld EMPTY_STATS) 0 Hw).
  vm_compute. reflexivity.
Defined.

Lemma free_spin_once_a_day_witness :
  lastFreeSpin (_statsCache
                  (foldl handleEvent (sampleGrades.1, idleSlot, eveningWorld)
                     [OnSlot (LeverClick 0 1 2); OnSlot (SpinDone 3)]).2) =
    1700000000000 ∧
  (spinning (foldl handleEvent (sampleGrades.1, idleSlot, eveningWorld)
               [OnSlot (LeverClick 0 1 2); OnSlot (SpinDone 3)]).1.2 = false →
   spinning (leverClick 4 4 4
               ((foldl handleEvent (sampleGrades.1, idleSlot, eveningWorld)
                   [OnSlot (LeverClick 0 1 2); OnSlot (SpinDone 3)]).1.2,
                (foldl handleEvent (sampleGrades.1, idleSlot, eveningWorld)
                   [OnSlot (LeverClick 0 1 2); OnSlot (SpinDone 3)]).2)).1 = true ∧
   coins (_statsCache
            (leverClick 4 4 4
               ((foldl handleEvent (sampleGrades.1, idleSlot, eveningWorld)
                   [OnSlot (LeverClick 0 1 2); OnSlot (SpinDone 3)]).1.2,
                (foldl handleEvent (sampleGrades.1, idleSlot, eveningWorld)
                   [OnSlot (LeverClick 0 1 2); OnSlot (SpinDone 3)]).2)).2) = 0%float).
Proof.
  apply (free_spin_once_a_day [OnSlot (LeverClick 0 1 2); OnSlot (SpinDone 3)]
           (sampleGrades.1, idleSlot, eveningWorld) 4 4 4).
  apply eveningWorld_taken.
Defined.

Lemma SLOT_EMOJIS_NoDup : NoDup SLOT_EMOJIS.
Proof. by_decide. Qed.

Lemma SLOT_EMOJIS_inj (i j : nat) :
  (i < 8)%nat → (j < 8)%nat → SLOT_EMOJIS !! i = SLOT_EMOJIS !! j → i = j.
Proof.
  intros Hi Hj Heq.
  destruct (lookup_lt_is_Some_2 SLOT_EMOJIS i) as [x Hx]; [done|].
  rewrite Hx in Heq. symmetry in Heq.
  by apply (NoDup_lookup SLOT_EMOJIS i j x SLOT_EMOJIS_NoDup).
Qed.

(** X17. What a spin pays: a pull that starts a spin with the three indices
    drawn below the number of symbols ends, when the reels have stopped,
    with [spinning] off again, with ten coins more (the addition of 10 to
    the balance) exactly when the three indices are the same, and with no
    change of the coins otherwise; the machine then announces the jackpot,
    a near miss when just two indices agree, and one of the consolation
    lines when none do. *)
Theorem spin_outcome (t0 t1 t2 msg : nat) (sl : Slot) (w : World) :
  (t0 < 8)%nat → (t1 < 8)%nat → (t2 < 8)%nat →
  spinning sl = false →
  spinning (leverClick t0 t1 t2 (sl, w)).1 = true →
  spinning (spinDone msg (leverClick t0 t1 t2 (sl, w))).1 = false ∧
  coins (_statsCache (spinDone msg (leverClick t0 t1 t2 (sl, w))).2) =
    (if bool_decide (t0 = t1 ∧ t1 = t2)
     then PrimFloat.add (coins (_statsCache (leverClick t0 t1 t2 (sl, w)).2)) 10
     else coins (_statsCache (leverClick t0 t1 t2 (sl, w)).2)) ∧
  resultEl (spinDone msg (leverClick t0 t1 t2 (sl, w))).1 =
    (if bool_decide (t0 = t1 ∧ t1 = t2) then Jackpot
     else if bool_decide (t0 = t1 ∨ t1 = t2 ∨ t0 = t2) then Almost
     else TryAgain msg).
Proof.
  intros H0 H1 H2 Hidle Hspin.
  assert (Hres : results (leverClick t0 t1 t2 (sl, w)).1 =
                 (SLOT_EMOJIS !! t0, SLOT_EMOJIS !! t1, SLOT_EMOJIS !! t2)).
  { revert Hspin. unfold leverClick. cbn [fst snd]. rewrite Hidle.
    destruct (PrimFloat.leb _ _ && negb _); cbn [fst snd spinning results]; intros Hs;
      first [done | congruence]. }
  set (q := leverClick t0 t1 t2 (sl, w)) in *.
  unfold spinDone. rewrite Hspin, Hres.
  assert (E01 : bool_decide (SLOT_EMOJIS !! t0 = SLOT_EMOJIS !! t1) = bool_decide (t0 = t1)).
  { apply bool_decide_ext. split; [by apply SLOT_EMOJIS_inj | by intros ->]. }
  assert (E12 : bool_decide (SLOT_EMOJIS !! t1 = SLOT_EMOJIS !! t2) = bool_decide (t1 = t2)).
  { apply bool_decide_ext. split; [by apply SLOT_EMOJIS_inj | by intros ->]. }
  assert (E02 : bool_decide (SLOT_EMOJIS !! t0 = SLOT_EMOJIS !! t2) = bool_decide (t0 = t2)).
  { apply bool_decide_ext. split; [by apply SLOT_EMOJIS_inj | by intros ->]. }
  rewrite E01, E12, E02.
  destruct (decide (t0 = t1)) as [H01|H01], (decide (t1 = t2)) as [H12|H12].
  - rewrite !(bool_decide_eq_true_2 (t0 = t1)), !(bool_decide_eq_true_2 (t1 = t2)) by done.
    rewrite (bool_decide_eq_true_2 (t0 = t1 ∧ t1 = t2)) by done.
    cbn [andb fst snd spinning resultEl].
    destruct (updateStatistic_coins 10 q.2) as [-> _]. done.
  - rewrite !(bool_decide_eq_true_2 (t0 = t1)), !(bool_decide_eq_false_2 (t1 = t2)) by done.
    rewrite (bool_decide_eq_false_2 (t0 = t1 ∧ t1 = t2)) by tauto.
    rewrite (bool_decide_eq_true_2 (t0 = t1 ∨ t1 = t2 ∨ t0 = t2)) by tauto.
    cbn [andb orb fst snd spinning resultEl]. done.
  - rewrite !(bool_decide_eq_false_2 (t0 = t1)), !(bool_decide_eq_true_2 (t1 = t2)) by done.
    rewrite (bool_decide_eq_false_2 (t0 = t1 ∧ t1 = t2)) by tauto.
    rewrite (bool_decide_eq_true_2 (t0 = t1 ∨ t1 = t2 ∨ t0 = t2)) by tauto.
    cbn [andb orb fst snd spinning resultEl]. done.
  - rewrite !(bool_decide_eq_false_2 (t0 = t1)), !(bool_decide_eq_false_2 (t1 = t2)) by done.
    rewrite (bool_decide_eq_false_2 (t0 = t1 ∧ t1 = t2)) by tauto.
    cbn [andb orb]. destruct (decide (t0 = t2)) as [H02|H02].
    + rewrite (bool_decide_eq_true_2 (t0 = t2)) by done.
      rewrite (bool_decide_eq_true_2 (t0 = t1 ∨ t1 = t2 ∨ t0 = t2)) by tauto.
      cbn [fst snd spinning resultEl]. done.
    + rewrite (bool_decide_eq_false_2 (t0 = t2)) by done.
      rewrite (bool_decide_eq_false_2 (t0 = t1 ∨ t1 = t2 ∨ t0 = t2)) by tauto.
      cbn [fst snd spinning resultEl]. done.
Qed.

Lemma spin_outcome_witness :
  spinning (spinDone 0 (leverClick 6 6 6 (idleSlot, eveningWorld))).1 = false ∧
  coins (_statsCache (leverClick 6 6 6 (idleSlot, eveningWorld)).2) = 1%float ∧
  coins (_statsCache (spinDone 0 (leverClick 6 6 6 (idleSlot, eveningWorld))).2) =
    11%float ∧
  resultEl (spinDone 0 (leverClick 6 6 6 (idleSlot, eveningWorld))).1 = Jackpot.
Proof.
  split; [|split; [reflexivity|]];
    apply (spin_outcome 6 6 6 0 idleSlot eveningWorld); try lia; reflexivity.
Defined.

(** ** Semester lists *)

Lemma alter_last {A} (f : A → A) (l : list A) (x : A) :
  alter f (length (l ++ [x]) - 1)%nat (l ++ [x]) = l ++ [f x].
Proof.
  rewrite length_app. cbn [length].
  replace (length l + 1 - 1)%nat with (length l + 0)%nat by lia.
  by rewrite alter_app_r.
Qed.

(** What the grouping loop keeps true: the groups hold the items seen so
    far, in order; no group is empty and each holds items of its own code;
    neighbouring groups differ in their code; [currentCode] is the code of
    the last group. *)
Lemma pushItem_invariant (items : list Li) :
  concat (g_items <$> (foldl pushItem ([], "") items).1) = items ∧
  Forall (λ g, g_items g ≠ [] ∧ Forall (λ li, li_code li = g_code g) (g_items g))
         (foldl pushItem ([], "") items).1 ∧
  (∀ i g g', (foldl pushItem ([], "") items).1 !! i = Some g →
             (foldl pushItem ([], "") items).1 !! S i = Some g' →
             g_code g ≠ g_code g') ∧
  (∀ g, last (foldl pushItem ([], "") items).1 = Some g →
        g_code g = (foldl pushItem ([], "") items).2).
Proof.
  induction items as [|li items IH] using rev_ind.
  - cbn. split_and!; [done|constructor|done|done].
  - rewrite foldl_app. cbn [foldl].
    destruct (foldl pushItem ([], "") items) as [gs cur]. cbn [fst snd] in IH.
    destruct IH as (Hcat & Hall & Hadj & Hlast).
    unfold pushItem. cbn [fst snd].
    destruct (decide (gs = [])) as [->|Hne].
    { rewrite (bool_decide_eq_true_2 ([] = [])) by done. rewrite orb_true_r.
      cbn [fst snd app]. cbn in Hcat. subst items. cbn.
      split_and!; [done| |by intros [|i] ?? ?|intros g [= <-]; done].
      constructor; [|constructor]. cbn. split; [done|by constructor]. }
    destruct (exists_last Hne) as (gs0 & g0 & ->).
    specialize (Hlast g0 (last_snoc g0 gs0)).
    rewrite (bool_decide_eq_false_2 (gs0 ++ [g0] = [])) by done. rewrite orb_false_r.
    apply Forall_app in Hall as [Hall0 [Hg0 _]%Forall_cons].
    rewrite fmap_app, concat_app in Hcat. cbn in Hcat. rewrite app_nil_r in Hcat.
    case_bool_decide as Hcode; cbn [fst snd].
    + split_and!.
      * rewrite !fmap_app, !concat_app. cbn. rewrite !app_nil_r, <- Hcat.
        by rewrite <- !app_assoc.
      * apply Forall_app. split; [apply Forall_app; split; [done|by constructor]|].
        constructor; [|constructor]. cbn. split; [done|by constructor].
      * intros i g g' Hi Hi'.
        destruct (decide (S i < length (gs0 ++ [g0]))%nat) as [Hlt|Hge].
        -- rewrite lookup_app_l in Hi by lia. rewrite lookup_app_l in Hi' by lia.
           by apply (Hadj i).
        -- assert (Hlen : length (gs0 ++ [g0]) = S (length gs0))
             by (rewrite length_app; cbn; lia).
           assert (Hi_lt : (S i < length ((gs0 ++ [g0]) ++ [{| g_code := li_code li;
                                                               g_items := [li] |}]))%nat).
           { by apply lookup_lt_Some in Hi'. }
           rewrite length_app in Hi_lt. cbn in Hi_lt.
           assert (i = length gs0) as -> by lia.
           rewrite lookup_app_l in Hi by lia.
           rewrite list_lookup_middle in Hi by done. injection Hi as <-.
           rewrite lookup_app_r in Hi' by lia.
           replace (S (length gs0) - length (gs0 ++ [g0]))%nat with 0%nat in Hi' by lia.
           injection Hi' as <-. cbn. congruence.
      * rewrite last_snoc. by intros g [= <-].
    + rewrite alter_last. cbn.
      split_and!.
      * rewrite !fmap_app, !concat_app. cbn. rewrite !app_nil_r, <- Hcat.
        by rewrite <- !app_assoc.
      * apply Forall_app. split; [done|]. constructor; [|constructor]. cbn.
        destruct Hg0 as [Hg0 Hcodes]. split; [by destruct (g_items g0)|].
        apply Forall_app. split; [done|]. constructor; [congruence|constructor].
      * intros i g g' Hi Hi'.
        assert (Hi_lt : (S i < length (gs0 ++ [g0]))%nat).
        { apply lookup_lt_Some in Hi'. by rewrite !length_app in *. }
        rewrite length_app in Hi_lt. cbn in Hi_lt.
        rewrite lookup_app_l in Hi by lia.
        destruct (decide (S i = length gs0)) as [Heq|Hneq].
        -- rewrite Heq, list_lookup_middle in Hi' by done. injection Hi' as <-.
           cbn. apply (Hadj i g g0); [by rewrite lookup_app_l by lia|].
           by rewrite Heq, list_lookup_middle.
        -- rewrite lookup_app_l in Hi' by lia.
           apply (Hadj i g g'); by rewrite lookup_app_l by lia.
      * rewrite last_snoc. intros g [= <-]. done.
Qed.

Lemma groupItems_runs_lemma (items : list Li) :
  concat (g_items <$> groupItems items) = items ∧
  Forall (λ g, g_items g ≠ [] ∧ Forall (λ li, li_code li = g_code g) (g_items g))
         (groupItems items).
Proof. destruct (pushItem_invariant items) as (H1 & H2 & _). by split. Qed.

(** X18. The groups that [collapseFlatSemesters] forms are the runs of the
    list: put one after the other they give back the items in their order;
    no group is empty; the items of a group all carry the code of the
    group; and two neighbouring groups never have the same code. A code
    that comes back after another one starts a group of its own. *)
Theorem groupItems_runs (items : list Li) :
  concat (g_items <$> groupItems items) = items ∧
  Forall (λ g, g_items g ≠ [] ∧ Forall (λ li, li_code li = g_code g) (g_items g))
         (groupItems items) ∧
  ∀ i g g', groupItems items !! i = Some g → groupItems items !! S i = Some g' →
            g_code g ≠ g_code g'.
Proof.
  destruct (pushItem_invariant items) as (H1 & H2 & H3 & _). by split_and!.
Qed.

Lemma filter_ext_in {A} (P Q : A → Prop) `{!∀ x, Decision (P x)} `{!∀ x, Decision (Q x)}
    (l : list A) :
  (∀ x, x ∈ l → P x ↔ Q x) → filter P l = filter Q l.
Proof.
  induction l as [|x l IH]; intros Hext; [done|].
  assert (Hl : filter P l = filter Q l).
  { apply IH. intros y Hy. apply Hext. by right. }
  destruct (decide (P x)) as [HP|HP].
  - rewrite !filter_cons_True; [by rewrite Hl| |done]. apply Hext; [left|done].
  - rewrite !filter_cons_False; [done| |done]. intros HQ. apply HP, Hext; [left|done].
Qed.

Lemma elem_of_concat {A} (x : A) (ls : list (list A)) :
  x ∈ concat ls → ∃ l, x ∈ l ∧ l ∈ ls.
Proof.
  induction ls as [|l ls IH]; cbn; [by intros ?%elem_of_nil|].
  intros [Hx|Hx]%elem_of_app.
  - exists l. split; [done|left].
  - destruct (IH Hx) as (l' & ? & ?). exists l'. split; [done|by right].
Qed.

Lemma wrap_loop (igs : list (nat * Group)) (cs : list UlChild) :
  foldl wrapGroup cs (reverse igs) =
    ((λ ig, SemesterGroup (codeToLabel (g_code ig.2)) (bool_decide (0 < ig.1)%nat)
              (g_items ig.2)) <$> igs) ++
    filter (λ c, Forall (λ ig, c ∉ (Plain <$> g_items ig.2)) igs) cs.
Proof.
  induction igs as [|ig igs IH].
  - cbn. symmetry. apply filter_all, Forall_forall. intros c _. constructor.
  - rewrite reverse_cons, foldl_app. cbn [foldl]. rewrite IH. unfold wrapGroup at 1.
    rewrite fmap_cons. cbn [app]. f_equal. rewrite filter_app. f_equal.
    + apply filter_all, Forall_forall. intros c (ig' & -> & _)%list_elem_of_fmap.
      by intros (li & [=] & _)%list_elem_of_fmap.
    + rewrite list_filter_filter. apply list_filter_iff. intros c.
      by rewrite Forall_cons.
Qed.

Lemma hostChildren_plain (children : list HostChild) (li : Li) :
  Plain li ∈ hostChildren children → li ∈ liChildren children.
Proof.
  intros (i & y & Heq & Hi)%elem_of_lookup_imap. destruct y as [code|]; [|done].
  injection Heq as ->. unfold liChildren. apply list_elem_of_omap.
  exists (Some {| li_key := i; li_code := code |}). split; [|done].
  by apply (elem_of_lookup_imap_2
              (λ k c, match c with
                      | HostLi code => Some {| li_key := k; li_code := code |}
                      | HostOther => None
                      end) children (HostLi code) i).
Qed.

Lemma hostChildren_no_group (children : list HostChild) (label : string) (b : bool)
    (items : list Li) :
  SemesterGroup label b items ∉ hostChildren children.
Proof. intros (i & y & Heq & _)%elem_of_lookup_imap. by destruct y. Qed.

(** X19. What [collapseFlatSemesters] leaves in the list: nothing changes
    when the items form at most one group; otherwise the list holds one
    wrapper per group, in the order of the groups, each with the label of
    its code and with all the items of the group, the first one expanded
    and every other one collapsed, followed by the children that are not
    list items, in their order. *)
Theorem collapseFlatSemesters_result (children : list HostChild) :
  collapseFlatSemesters children =
    if bool_decide (length (groupItems (liChildren children)) ≤ 1)%nat
    then hostChildren children
    else imap (λ i g, SemesterGroup (codeToLabel (g_code g)) (bool_decide (0 < i)%nat)
                        (g_items g))
              (groupItems (liChildren children)) ++
         filter (λ c, isOther c) (hostChildren children).
Proof.
  unfold collapseFlatSemesters. cbv zeta.
  destruct (liChildren children) as [|li0 items0] eqn:Hitems; [done|].
  rewrite <- Hitems. case_bool_decide as Hlen; [done|].
  rewrite wrap_loop. f_equal.
  - rewrite fmap_imap. done.
  - destruct (groupItems_runs_lemma (liChildren children)) as [Hcat _].
    apply filter_ext_in. intros c Hc. destruct c as [li|k|label b items]; cbn.
    + split; [|done]. intros Hall. apply hostChildren_plain in Hc.
      rewrite <- Hcat in Hc. apply elem_of_concat in Hc as (its & Hli & Hits).
      apply list_elem_of_fmap in Hits as (g & -> & Hg).
      apply list_elem_of_lookup in Hg as [i Hi].
      assert (Hig : (i, g) ∈ imap (λ i g, (i, g)) (groupItems (liChildren children))).
      { by apply (elem_of_lookup_imap_2 (λ i g, (i, g)) _ g i). }
      apply (proj1 (Forall_forall _ _) Hall) in Hig. cbn in Hig.
      apply Hig, list_elem_of_fmap. eauto.
    + split; [done|]. intros _. apply Forall_forall. intros ig _.
      by intros (li & [=] & _)%list_elem_of_fmap.
    + by apply hostChildren_no_group in Hc.
Qed.

Lemma digit_roundtrip (d : Z) :
  0 ≤ d ≤ 9 →
  isDigit (ascii_of_nat (48 + Z.to_nat d)) = true ∧
  digitValue (ascii_of_nat (48 + Z.to_nat d)) = d.
Proof.
  intros Hd. unfold isDigit, digitValue.
  rewrite nat_ascii_embedding by lia. split; [|lia].
  apply andb_true_iff. split; apply Nat.leb_le; lia.
Qed.

Lemma year_digits (y : Z) :
  0 ≤ y < 10000 →
  0 ≤ y / 1000 ≤ 9 ∧ 0 ≤ y / 100 mod 10 ≤ 9 ∧ 0 ≤ y / 10 mod 10 ≤ 9 ∧ 0 ≤ y mod 10 ≤ 9 ∧
  1000 * (y / 1000) + 100 * (y / 100 mod 10) + 10 * (y / 10 mod 10) + y mod 10 = y.
Proof. intros Hy. Z.div_mod_to_equations. lia. Qed.

Lemma codeToLabel_code (y : Z) (season : ascii) :
  0 ≤ y < 10000 → season ∈ ["Z"; "z"; "L"; "l"]%char →
  codeToLabel (semesterCode y season) =
    if bool_decide (season ∈ ["Z"; "z"]%char)
    then "Semestr zimowy " +:+ pretty y +:+ "/" +:+ pretty (y + 1)
    else "Semestr letni " +:+ pretty (y - 1) +:+ "/" +:+ pretty y.
Proof.
  intros Hy Hs. destruct (year_digits y Hy) as (H1 & H2 & H3 & H4 & Hsum).
  unfold codeToLabel, semesterCode.
  destruct (digit_roundtrip _ H1) as [-> ->].
  destruct (digit_roundtrip _ H2) as [-> ->].
  destruct (digit_roundtrip _ H3) as [-> ->].
  destruct (digit_roundtrip _ H4) as [-> ->].
  rewrite (bool_decide_eq_true_2 _ Hs). cbn [andb]. cbv zeta. by rewrite Hsum.
Qed.

(** X20. The label of a semester code names the academic year: for a year
    [y] written with four digits, the winter code of [y] is labelled with
    the years [y]/[y+1] and the summer code of [y+1] with the same two
    years, and the letter of the season may be in either case. *)
Theorem codeToLabel_academic_year (y : Z) :
  0 ≤ y < 9999 →
  codeToLabel (semesterCode y "Z") =
    "Semestr zimowy " +:+ pretty y +:+ "/" +:+ pretty (y + 1) ∧
  codeToLabel (semesterCode (y + 1) "L") =
    "Semestr letni " +:+ pretty y +:+ "/" +:+ pretty (y + 1) ∧
  codeToLabel (semesterCode y "z") = codeToLabel (semesterCode y "Z") ∧
  codeToLabel (semesterCode (y + 1) "l") = codeToLabel (semesterCode (y + 1) "L").
Proof.
  intros Hy.
  rewrite !codeToLabel_code by (first [lia | by_decide]).
  rewrite !bool_decide_eq_true_2 by by_decide.
  rewrite !bool_decide_eq_false_2 by by_decide.
  replace (y + 1 - 1) with y by lia. done.
Qed.

Lemma codeToLabel_academic_year_witness :
  codeToLabel "2025Z" = "Semestr zimowy 2025/2026" ∧
  codeToLabel "2026L" = "Semestr letni 2025/2026" ∧
  codeToLabel "2025z" = codeToLabel "2025Z" ∧
  codeToLabel "2026l" = codeToLabel "2026L".
Proof. apply (codeToLabel_academic_year 2025). lia. Defined.

(** ** Theme *)

Lemma elem_of_setOf (l : list string) (x : string) : x ∈ setOf l ↔ x ∈ l.
Proof.
  unfold setOf.
  cut (∀ acc, x ∈ foldl (λ s y, if bool_decide (y ∈ s) then s else s ++ [y]) acc l ↔
              x ∈ acc ∨ x ∈ l).
  { intros H. rewrite H. split; [by intros [?%elem_of_nil|?] | by right]. }
  induction l as [|y l IH]; intros acc; cbn [foldl].
  - split; [by left | by intros [?|?%elem_of_nil]].
  - rewrite IH, elem_of_cons. case_bool_decide.
    + split; [intros [?|?]; auto | intros [?|[->|?]]; auto].
    + rewrite elem_of_app, list_elem_of_singleton. tauto.
Qed.

Lemma lookup_removeStale (palette : list (string * string)) (keys : list string)
    (st : gmap string string) (key : string) :
  foldl (removeStale palette) st keys !! key =
    if bool_decide (key ∈ keys ∧ key ∉ palette.*1) then None else st !! key.
Proof.
  revert st. induction keys as [|k keys IH]; intros st; cbn [foldl].
  - rewrite bool_decide_eq_false_2; [done|]. by intros [?%elem_of_nil _].
  - rewrite IH. unfold removeStale.
    destruct (decide (key ∈ keys ∧ key ∉ palette.*1)) as [Hin|Hout].
    + rewrite !bool_decide_eq_true_2; [done| |done].
      destruct Hin as [H1 H2]. split; [by right|done].
    + rewrite (bool_decide_eq_false_2 _ Hout).
      destruct (decide (k ∈ palette.*1)) as [Hk|Hk].
      * rewrite (bool_decide_eq_true_2 _ Hk). rewrite bool_decide_eq_false_2; [done|].
        intros [[->|?]%elem_of_cons ?]; tauto.
      * rewrite (bool_decide_eq_false_2 _ Hk).
        destruct (decide (key = k)) as [->|Hne].
        -- rewrite lookup_delete_eq. rewrite bool_decide_eq_true_2; [done|].
           split; [left|done].
        -- rewrite lookup_delete_ne by done. rewrite bool_decide_eq_false_2; [done|].
           intros [[->|?]%elem_of_cons ?]; tauto.
Qed.

Lemma lookup_setProperty (kvs : list (string * string)) (st : gmap string string)
    (key : string) :
  NoDup kvs.*1 →
  foldl setProperty st kvs !! key =
    match (list_to_map kvs : gmap string string) !! key with
    | Some v => Some v
    | None => st !! key
    end.
Proof.
  revert st. induction kvs as [|[k v] kvs IH]; intros st Hnd; cbn [foldl].
  - by rewrite list_to_map_nil, lookup_empty.
  - cbn in Hnd. apply NoDup_cons in Hnd as [Hk Hnd]. rewrite IH by done.
    unfold setProperty. cbn [fst snd]. rewrite list_to_map_cons.
    destruct (decide (key = k)) as [->|Hne].
    + rewrite lookup_insert_eq.
      rewrite (not_elem_of_list_to_map_1 (M := gmap string)) by done.
      by rewrite lookup_insert_eq.
    + rewrite (lookup_insert_ne (list_to_map kvs)) by done.
      by rewrite lookup_insert_ne by done.
Qed.

Lemma paletteOf_NoDup (id : PaletteId) : NoDup (paletteOf id).*1.
Proof. destruct id; by_decide. Qed.

(** The inline style after [applyPalette], one property at a time. *)
Lemma applyPalette_lookup (id : PaletteId) (t : ThemeState) (key : string) :
  rootStyle (applyPalette id t) !! key =
    match (list_to_map (paletteOf id) : gmap string string) !! key with
    | Some v => Some v
    | None =>
        if bool_decide (key ∈ LIGHT_PALETTE.*1 ++ DARK_PALETTE.*1) then None
        else rootStyle t !! key
    end.
Proof.
  unfold applyPalette. cbn [rootStyle].
  rewrite lookup_setProperty by apply paletteOf_NoDup.
  destruct (list_to_map (paletteOf id) !! key) as [v|] eqn:Hp; [done|].
  apply not_elem_of_list_to_map in Hp.
  rewrite lookup_removeStale. unfold allKeys.
  destruct (decide (key ∈ LIGHT_PALETTE.*1 ++ DARK_PALETTE.*1)) as [Hin|Hout].
  - rewrite (bool_decide_eq_true_2 _ Hin). rewrite bool_decide_eq_true_2; [done|].
    split; [by apply (proj2 (elem_of_setOf _ key))|exact Hp].
  - rewrite (bool_decide_eq_false_2 _ Hout). rewrite bool_decide_eq_false_2; [done|].
    intros [Hk _]. apply Hout. by apply (proj1 (elem_of_setOf _ key)).
Qed.

(** X21. [applyPalette] sets exactly the chosen palette: afterwards every
    variable of the palette has the value of the palette; every variable
    that only the other palette names is gone from the inline style, so that
    nothing of the dark theme is left behind under the light one; and a
    property that neither palette names is as it was. *)
Theorem applyPalette_exact (id : PaletteId) (t : ThemeState) (key : string) :
  (∀ v, (key, v) ∈ paletteOf id → rootStyle (applyPalette id t) !! key = Some v) ∧
  (key ∈ LIGHT_PALETTE.*1 ++ DARK_PALETTE.*1 → key ∉ (paletteOf id).*1 →
     rootStyle (applyPalette id t) !! key = None) ∧
  (key ∉ LIGHT_PALETTE.*1 ++ DARK_PALETTE.*1 →
     rootStyle (applyPalette id t) !! key = rootStyle t !! key).
Proof.
  rewrite applyPalette_lookup. split_and!.
  - intros v Hv.
    by rewrite (elem_of_list_to_map_1 (M := gmap string) _ _ _ (paletteOf_NoDup id) Hv).
  - intros Hin Hout.
    rewrite (not_elem_of_list_to_map_1 (M := gmap string)) by done.
    by rewrite bool_decide_eq_true_2.
  - intros Hout.
    rewrite (not_elem_of_list_to_map_1 (M := gmap string)).
    + by rewrite bool_decide_eq_false_2.
    + intros Hk. apply Hout. destruct id; set_solver.
Qed.

Lemma applyPalette_exact_witness :
  rootStyle (applyPalette light (applyPalette dark hostTheme)) !! "--usos-bg" =
    Some "#f8fafc" ∧
  rootStyle (applyPalette light (applyPalette dark hostTheme)) !! "--background" = None ∧
  rootStyle (applyPalette light (applyPalette dark hostTheme)) !! "--page-width" =
    Some "960px".
Proof.
  destruct (applyPalette_exact light (applyPalette dark hostTheme) "--usos-bg")
    as (H1 & _ & _).
  destruct (applyPalette_exact light (applyPalette dark hostTheme) "--background")
    as (_ & H2 & _).
  destruct (applyPalette_exact light (applyPalette dark hostTheme) "--page-width")
    as (_ & _ & H3).
  split_and!.
  - apply H1. by_decide.
  - apply H2; by_decide.
  - rewrite H3 by by_decide.
    destruct (applyPalette_exact dark hostTheme "--page-width") as (_ & _ & H4).
    rewrite H4 by by_decide. reflexivity.
Defined.

(** X22. The last settings win: applying settings after other settings
    leaves the inline style and the two classes of [body] as applying them
    alone does, whatever theme was applied before. *)
Theorem applySettings_last_wins (s1 s2 : BetterUsosSettings) (t : ThemeState) :
  rootStyle (applySettings s2 (applySettings s1 t)) = rootStyle (applySettings s2 t) ∧
  darkClass (applySettings s2 (applySettings s1 t)) = darkClass (applySettings s2 t) ∧
  hideBannerClass (applySettings s2 (applySettings s1 t)) =
    hideBannerClass (applySettings s2 t).
Proof.
  split; [|done]. apply map_eq. intros key. unfold applySettings. cbv zeta.
  set (id1 := if bool_decide (s_themeId s1 = Some "dark") then dark else light).
  set (id2 := if bool_decide (s_themeId s2 = Some "dark") then dark else light).
  rewrite !(applyPalette_lookup id2). cbn [rootStyle].
  destruct ((list_to_map (paletteOf id2) : gmap string string) !! key) as [v|]; [done|].
  case_bool_decide as Hk; [done|].
  rewrite (applyPalette_lookup id1). cbn [rootStyle].
  rewrite (bool_decide_eq_false_2 _ Hk).
  destruct ((list_to_map (paletteOf id1) : gmap string string) !! key) as [v|] eqn:Hv;
    [|done].
  apply elem_of_list_to_map_2 in Hv. exfalso. apply Hk.
  apply (list_elem_of_fmap_2 fst) in Hv. cbn [fst] in Hv.
  apply elem_of_app. destruct id1; [by left | by right].
Qed.

(** ** Hashed ids *)

Lemma digit36_alnum (d : Z) :
  0 ≤ d < 36 →
  (48 ≤ nat_of_ascii (digit36 d) ≤ 57)%nat ∨ (97 ≤ nat_of_ascii (digit36 d) ≤ 122)%nat.
Proof.
  intros Hd. unfold digit36. destruct (d <? 10) eqn:E.
  - apply Z.ltb_lt in E. left. rewrite nat_ascii_embedding by lia. lia.
  - apply Z.ltb_ge in E. right. rewrite nat_ascii_embedding by lia. lia.
Qed.

Lemma toString36_go_alnum (fuel : nat) (n : Z) (acc : string) :
  Forall (λ c, (48 ≤ nat_of_ascii c ≤ 57)%nat ∨ (97 ≤ nat_of_ascii c ≤ 122)%nat)
         (list_ascii_of_string acc) →
  Forall (λ c, (48 ≤ nat_of_ascii c ≤ 57)%nat ∨ (97 ≤ nat_of_ascii c ≤ 122)%nat)
         (list_ascii_of_string (toString36_go fuel n acc)).
Proof.
  revert n acc. induction fuel as [|fuel IH]; intros n acc Hacc; [done|].
  cbn [toString36_go].
  assert (Hacc' : Forall (λ c, (48 ≤ nat_of_ascii c ≤ 57)%nat ∨
                               (97 ≤ nat_of_ascii c ≤ 122)%nat)
                    (list_ascii_of_string (String (digit36 (n mod 36)) acc))).
  { cbn [list_ascii_of_string]. constructor; [|done].
    apply digit36_alnum, Z.mod_pos_bound. lia. }
  destruct (n / 36 =? 0); [done|]. by apply IH.
Qed.

(** X23. The id made up for a card without an id is [bu-] followed by
    digits and small letters only. It is therefore never the id of the
    statistics panel or of the slot panel, whatever the link of the card: a
    native card cannot take the place of a panel in the registry. *)
Theorem hashed_id_alnum (frame : Frame) :
  f_id frame = "" →
  (∃ s, getFrameId frame = "bu-" +:+ s ∧
        Forall (λ c, (48 ≤ nat_of_ascii c ≤ 57)%nat ∨ (97 ≤ nat_of_ascii c ≤ 122)%nat)
               (list_ascii_of_string s)) ∧
  getFrameId frame ≠ getFrameId statsPanel ∧
  getFrameId frame ≠ getFrameId slotPanel.
Proof.
  intros Hid. rewrite (getFrameId_hashed frame Hid).
  set (s := toString36 (Z.abs (hashHref (titleHref frame)))).
  assert (Hs : Forall (λ c, (48 ≤ nat_of_ascii c ≤ 57)%nat ∨
                            (97 ≤ nat_of_ascii c ≤ 122)%nat)
                 (list_ascii_of_string s)).
  { apply toString36_go_alnum. constructor. }
  split; [by exists s|]. clearbody s.
  assert (Hdash : ∀ l : list ascii,
             Forall (λ c, (48 ≤ nat_of_ascii c ≤ 57)%nat ∨
                          (97 ≤ nat_of_ascii c ≤ 122)%nat) l →
             "-"%char ∉ l).
  { intros l Hl Hin. apply (proj1 (Forall_forall _ _) Hl) in Hin.
    change (nat_of_ascii "-") with 45%nat in Hin. lia. }
  split; intros Heq; cbn in Heq; injection Heq as Heq;
    change ("" +:+ s) with s in Heq; subst s;
    apply Hdash in Hs; apply Hs; by_decide.
Qed.

Lemma hashed_id_alnum_witness :
  (∃ s, getFrameId (kontrolerFrame "Moje grupy") = "bu-" +:+ s ∧
        Forall (λ c, (48 ≤ nat_of_ascii c ≤ 57)%nat ∨ (97 ≤ nat_of_ascii c ≤ 122)%nat)
               (list_ascii_of_string s)) ∧
  getFrameId (kontrolerFrame "Moje grupy") ≠ getFrameId statsPanel ∧
  getFrameId (kontrolerFrame "Moje grupy") ≠ getFrameId slotPanel.
Proof. apply (hashed_id_alnum (kontrolerFrame "Moje grupy")). reflexivity. Defined.

